(** * apify-deep-research: the research pipeline and its reference ledger

    A shallow embedding of [src/tokenizer.js] (the context budgeter),
    [src/research.js] (class [Research]: search, crawl cache, chapter
    generation, citation bookkeeping, document assembly) and of the
    stages of [main] in [src/index.js], followed by the properties the
    specification states about them.

    Conventions.
    - A JavaScript string is a [string]: a sequence of code units, here the
      code units below 256 (the Latin-1 range), on which [toLowerCase],
      [trim] and the regular expression class [\s] act unit by unit.
    - A call that can throw returns a [Result]; the exception is the
      [Throw] case and ends the enclosing [async] function.
    - A number of the model's answer ([z.number()]) is a rational [Q]; an
      outline's chapter number is integer-valued.
    - The mutable fields of a [Research] object ([cache], [references],
      [usedReferences]) are threaded explicitly; the disk is a finite map
      from paths to files, with the directories it holds.
    - External collaborators (the tokenizer's [encode], the search and
      crawl actors, the language model, the styled rendering) are
      variables of the sections that use them; the reading of the clock
      is an argument. *)

From Stdlib Require Import ZArith QArith Lqa Ascii String List Lia Bool Sorted.
From stdpp Require Import base tactics option list strings pretty gmap.

Open Scope string_scope.
Open Scope list_scope.
Open Scope Z_scope.

(** ** Exceptions *)

Inductive Error :=
  | TypeError (what : string)       (* a property read on [undefined] *)
  | TokenizerError (token : string) (* [encode] refused a text that holds a special token *)
  | CacheIOError (path : string)    (* [fs.readJSON] / [fs.writeJSON] / [fs.writeFile] failed *)
  | ExternalServiceError (what : string).

Inductive Result (A : Type) :=
  | Ok (a : A)
  | Throw (e : Error).

Arguments Ok {A} a.
Arguments Throw {A} e.

#[global] Instance Result_bind : MBind Result :=
  fun A B k r =>
    match r with
    | Ok a => k a
    | Throw e => Throw e
    end.

Definition succeeded {A} (r : Result A) : bool :=
  match r with Ok _ => true | Throw _ => false end.

(** ** JavaScript strings and numbers *)

Module Js.

Definition nl : string := String (ascii_of_nat 10) EmptyString.
Definition dquote : string := String (ascii_of_nat 34) EmptyString.

(** [Array.prototype.join]. *)
Fixpoint join (sep : string) (parts : list string) : string :=
  match parts with
  | [] => ""
  | [p] => p
  | p :: rest => p +:+ sep +:+ join sep rest
  end.

(** [s.split(sep)] for a separator of one code unit. *)
Fixpoint split (sep : ascii) (s : string) : list string :=
  match s with
  | EmptyString => [""]
  | String c rest =>
      if Ascii.eqb c sep then "" :: split sep rest
      else match split sep rest with
           | [] => [String c ""]
           | part :: parts => String c part :: parts
           end
  end.

(** [xs.map((x, i) => f x i)], [i] counted from [start]. *)
Fixpoint mapi_from {A B} (start : nat) (f : A -> nat -> B) (xs : list A) : list B :=
  match xs with
  | [] => []
  | x :: rest => f x start :: mapi_from (S start) f rest
  end.

Definition mapi {A B} (f : A -> nat -> B) (xs : list A) : list B :=
  mapi_from 0 f xs.

(** Template-literal conversion of an array length or index. *)
Definition of_nat (n : nat) : string := pretty n.

(** Template-literal conversion of an integer-valued number. *)
Definition of_Z (z : Z) : string := pretty z.

(** White space and line terminators, as [trim] and [\s] see them, among
    the code units below 256: TAB, LF, VT, FF, CR, SP, NBSP. *)
Definition is_space (c : ascii) : bool :=
  let n := nat_of_ascii c in
  ((9 <=? n) && (n <=? 13) || (n =? 32) || (n =? 160))%nat.

(** [toLowerCase] on one code unit: A-Z and the accented capitals
    U+00C0..U+00DE (U+00D7, the multiplication sign, apart). *)
Definition lower_unit (c : ascii) : ascii :=
  let n := nat_of_ascii c in
  if ((65 <=? n) && (n <=? 90)
      || (192 <=? n) && (n <=? 222) && negb (n =? 215))%nat
  then ascii_of_nat (n + 32) else c.

Fixpoint toLowerCase (s : string) : string :=
  match s with
  | EmptyString => EmptyString
  | String c rest => String (lower_unit c) (toLowerCase rest)
  end.

Fixpoint trimStart (s : string) : string :=
  match s with
  | EmptyString => EmptyString
  | String c rest => if is_space c then trimStart rest else s
  end.

Fixpoint all_space (s : string) : bool :=
  match s with
  | EmptyString => true
  | String c rest => is_space c && all_space rest
  end.

Fixpoint trimEnd (s : string) : string :=
  match s with
  | EmptyString => EmptyString
  | String c rest => if all_space s then EmptyString else String c (trimEnd rest)
  end.

Definition trim (s : string) : string := trimEnd (trimStart s).

(** The value of a string of decimal digits, read left to right; [None]
    for the empty string and for any other code unit. *)
Definition digitValue (c : ascii) : option N :=
  let n := nat_of_ascii c in
  if ((48 <=? n) && (n <=? 57))%nat then Some (N.of_nat (n - 48)) else None.

Fixpoint decimalFrom (acc : N) (s : string) : option N :=
  match s with
  | EmptyString => Some acc
  | String c rest =>
      match digitValue c with
      | Some d => decimalFrom (10 * acc + d) rest
      | None => None
      end
  end.

Definition decimalValue (s : string) : option N :=
  match s with
  | EmptyString => None
  | _ => decimalFrom 0 s
  end.

Definition leadingZero (s : string) : bool :=
  match s with
  | String c _ => Ascii.eqb c "0"
  | EmptyString => false
  end.

(** A property key that is an array index: the canonical decimal
    numeral (no leading zero) of an integer below 2^32 - 1. *)
Definition arrayIndex (key : string) : option N :=
  match decimalValue key with
  | Some n =>
      if (negb (leadingZero key) || String.eqb key "0")
         && (n <? 4294967295)%N
      then Some n else None
  | None => None
  end.

Definition isArrayIndex (key : string) : bool :=
  match arrayIndex key with
  | Some _ => true
  | None => false
  end.

(** *** Numbers *)

(** [x < y] and [x >= y] on numbers. *)
Definition ltb (x y : Q) : bool := negb (Qle_bool y x).
Definition geb (x y : Q) : bool := Qle_bool y x.

(** A number with an integer value, and that value. *)
Definition isInteger (x : Q) : bool := (Qnum x mod Z.pos (Qden x) =? 0)%Z.
Definition toInteger (x : Q) : Z := (Qnum x / Z.pos (Qden x))%Z.

(** [array[x]] for a number [x] that is not negative: the element at an
    integer-valued [x], [undefined] ([None]) at any other number and
    past the end. *)
Definition at_number {A} (array : list A) (x : Q) : option A :=
  if isInteger x then array !! Z.to_nat (toInteger x) else None.

End Js.

(** ** Plain objects used as maps *)

(** The own properties of a plain object, in the order of their
    creation; assigning to an existing key keeps its place. *)
Definition JsObject (V : Type) : Type := list (string * V).

(** [o[key] = v] for a value [v] that is an object. The key [__proto__]
    reaches the setter inherited from [Object.prototype], which changes
    the prototype and creates no own property. *)
Fixpoint assign {V} (key : string) (v : V) (o : JsObject V) : JsObject V :=
  match o with
  | [] => [(key, v)]
  | (k, v') :: rest =>
      if String.eqb k key then (k, v) :: rest else (k, v') :: assign key v rest
  end.

Definition obj_set {V} (key : string) (v : V) (o : JsObject V) : JsObject V :=
  if String.eqb key "__proto__" then o else assign key v o.

(** The order in which [Object.keys] and [Object.values] list own
    properties: array-index keys first, ascending; then the other keys
    in the order of their creation. *)
Fixpoint insertIndexed {V} (n : N) (e : string * V)
    (sorted : list (N * (string * V))) : list (N * (string * V)) :=
  match sorted with
  | [] => [(n, e)]
  | (m, e') :: rest =>
      if (n <=? m)%N then (n, e) :: sorted else (m, e') :: insertIndexed n e rest
  end.

Fixpoint indexedProperties {V} (o : JsObject V) : list (N * (string * V)) :=
  match o with
  | [] => []
  | e :: rest =>
      match Js.arrayIndex (fst e) with
      | Some n => insertIndexed n e (indexedProperties rest)
      | None => indexedProperties rest
      end
  end.

Definition namedProperties {V} (o : JsObject V) : list (string * V) :=
  List.filter (fun e => negb (Js.isArrayIndex (fst e))) o.

Definition ownProperties {V} (o : JsObject V) : list (string * V) :=
  map snd (indexedProperties o) ++ namedProperties o.

Definition Object_keys {V} (o : JsObject V) : list string :=
  map fst (ownProperties o).
Definition Object_values {V} (o : JsObject V) : list V :=
  map snd (ownProperties o).


(** ** Crawled documents *)

(** A dataset item of the content crawler, as it is cached and handed to
    the generation stages: [item.url], [item.text] and
    [item.metadata?.title] ([None] when [metadata] or its [title] is
    missing). *)
Record Item := mkItem {
  url : string;
  text : string;
  metadata_title : option string
}.

(** ** src/tokenizer.js *)

(** The delimited block built for the candidate that would take
    position [i] (1-based) among the accepted documents. *)
Definition contentBlock (i : nat) (body : string) : string :=
  "<content" +:+ Js.of_nat i +:+ ">" +:+ Js.nl +:+ body +:+ Js.nl
  +:+ "</content" +:+ Js.of_nat i +:+ ">".

Section Tokenizer.

(** [encode] of the [gpt-tokenizer] package: the token ids of a text, or
    the error it throws on a text that it refuses (one that holds a
    special token). *)
Variable encode : string -> Result (list nat).

Definition estimateTokens (text : string) : Result Z :=
  if String.eqb text "" then Ok 0
  else tokens ← encode text; Ok (Z.of_nat (length tokens)).

(** The [for (const content of contents)] loop, with its two mutable
    locals [truncatedContents] and [totalTokens]. *)
Fixpoint truncateLoop (contextWindow : Z) (contents : list Item)
    (truncatedContents : list Item) (totalTokens : Z) : Result (list Item) :=
  match contents with
  | [] => Ok truncatedContents
  | content :: rest =>
      let contentText :=
        contentBlock (length truncatedContents + 1) (text content) in
      contentTokens ← estimateTokens contentText;
      if totalTokens + contentTokens <=? contextWindow
      then truncateLoop contextWindow rest
             (truncatedContents ++ [content]) (totalTokens + contentTokens)
      else Ok truncatedContents
  end.

Definition truncateContentsToFit (prompt : string) (contents : list Item)
    (contextWindow : Z) : Result (list Item) :=
  baseTokens ← estimateTokens prompt;
  let availableTokens := contextWindow - baseTokens in
  if availableTokens <=? 0 then Ok []
  else truncateLoop contextWindow contents [] baseTokens.

(** *** The budgeter as the specification words it *)

(** Estimated tokens of the documents [ds] once wrapped, the first of
    them taking position [start]; defined when each block has an
    estimate. *)
Fixpoint wrappedTokens (start : nat) (ds : list Item) : Result Z :=
  match ds with
  | [] => Ok 0
  | d :: rest =>
      n ← estimateTokens (contentBlock start (text d));
      m ← wrappedTokens (S start) rest;
      Ok (n + m)
  end.

(** Template plus accepted documents with their delimiters. *)
Definition cumulativeTokens (prompt : string) (selection : list Item) : Result Z :=
  n ← estimateTokens prompt;
  m ← wrappedTokens 1 selection;
  Ok (n + m).

(** The greedy walk of section 4.2: [accepted] documents so far (only
    their number matters for the next delimiter) and the [running]
    total; the walk stops at the first overflow. *)
Fixpoint greedyWalk (W : Z) (accepted : nat) (running : Z) (ds : list Item)
    : Result (list Item) :=
  match ds with
  | [] => Ok []
  | d :: rest =>
      n ← estimateTokens (contentBlock (S accepted) (text d));
      if running + n <=? W
      then selection ← greedyWalk W (S accepted) (running + n) rest;
           Ok (d :: selection)
      else Ok []
  end.

Definition budgeterSelect (t : string) (ds : list Item) (W : Z)
    : Result (list Item) :=
  n ← estimateTokens t;
  if W <=? n then Ok [] else greedyWalk W 0 n ds.

End Tokenizer.

(** ** Node's [createHash("md5").update(s).digest("hex")]

    The digest of RFC 1321 over the UTF-8 bytes of the string, printed as
    32 lower-case hexadecimal digits. *)

Module MD5.

Definition add32 (a b : Z) : Z := (a + b) mod 2 ^ 32.

Definition rotl32 (x c : Z) : Z :=
  Z.lor (Z.shiftl x c mod 2 ^ 32) (Z.shiftr x (32 - c)).

Definition not32 (x : Z) : Z := Z.lxor x 0xffffffff.

Definition shifts : list Z :=
  [7; 12; 17; 22; 7; 12; 17; 22; 7; 12; 17; 22; 7; 12; 17; 22;
   5; 9; 14; 20; 5; 9; 14; 20; 5; 9; 14; 20; 5; 9; 14; 20;
   4; 11; 16; 23; 4; 11; 16; 23; 4; 11; 16; 23; 4; 11; 16; 23;
   6; 10; 15; 21; 6; 10; 15; 21; 6; 10; 15; 21; 6; 10; 15; 21].

Definition sines : list Z :=
  [0xd76aa478; 0xe8c7b756; 0x242070db; 0xc1bdceee;
   0xf57c0faf; 0x4787c62a; 0xa8304613; 0xfd469501;
   0x698098d8; 0x8b44f7af; 0xffff5bb1; 0x895cd7be;
   0x6b901122; 0xfd987193; 0xa679438e; 0x49b40821;
   0xf61e2562; 0xc040b340; 0x265e5a51; 0xe9b6c7aa;
   0xd62f105d; 0x02441453; 0xd8a1e681; 0xe7d3fbc8;
   0x21e1cde6; 0xc33707d6; 0xf4d50d87; 0x455a14ed;
   0xa9e3e905; 0xfcefa3f8; 0x676f02d9; 0x8d2a4c8a;
   0xfffa3942; 0x8771f681; 0x6d9d6122; 0xfde5380c;
   0xa4beea44; 0x4bdecfa9; 0xf6bb4b60; 0xbebfbc70;
   0x289b7ec6; 0xeaa127fa; 0xd4ef3085; 0x04881d05;
   0xd9d4d039; 0xe6db99e5; 0x1fa27cf8; 0xc4ac5665;
   0xf4292244; 0x432aff97; 0xab9423a7; 0xfc93a039;
   0x655b59c3; 0x8f0ccc92; 0xffeff47d; 0x85845dd1;
   0x6fa87e4f; 0xfe2ce6e0; 0xa3014314; 0x4e0811a1;
   0xf7537e82; 0xbd3af235; 0x2ad7d2bb; 0xeb86d391].

(** UTF-8 bytes of a string of code units below 256. *)
Fixpoint utf8 (s : string) : list Z :=
  match s with
  | EmptyString => []
  | String c rest =>
      let n := Z.of_nat (nat_of_ascii c) in
      if n <? 128 then n :: utf8 rest
      else Z.lor 0xc0 (Z.shiftr n 6) :: Z.lor 0x80 (Z.land n 0x3f) :: utf8 rest
  end.

(** Little-endian bytes of [x], [n] of them. *)
Fixpoint le_bytes (n : nat) (x : Z) : list Z :=
  match n with
  | O => []
  | S k => x mod 256 :: le_bytes k (x / 256)
  end.

Definition pad (msg : list Z) : list Z :=
  let len := Z.of_nat (length msg) in
  let zeros := Z.to_nat ((55 - len) mod 64) in
  msg ++ [0x80] ++ repeat 0 zeros ++ le_bytes 8 ((8 * len) mod 2 ^ 64).

Fixpoint le_word (bytes : list Z) : Z :=
  match bytes with
  | [] => 0
  | b :: rest => b + 256 * le_word rest
  end.

(** The sixteen 32-bit words of a 64-byte block. *)
Fixpoint words (n : nat) (block : list Z) : list Z :=
  match n with
  | O => []
  | S k => le_word (take 4 block) :: words k (drop 4 block)
  end.

Record State := mkState { sa : Z; sb : Z; sc : Z; sd : Z }.

Definition init : State :=
  mkState 0x67452301 0xefcdab89 0x98badcfe 0x10325476.

Definition round (M : list Z) (st : State) (i : nat) : State :=
  let '(mkState A B C D) := st in
  let iz := Z.of_nat i in
  let '(F, g) :=
    if iz <? 16 then (Z.lor (Z.land B C) (Z.land (not32 B) D), iz)
    else if iz <? 32 then
      (Z.lor (Z.land D B) (Z.land (not32 D) C), (5 * iz + 1) mod 16)
    else if iz <? 48 then (Z.lxor B (Z.lxor C D), (3 * iz + 5) mod 16)
    else (Z.lxor C (Z.lor B (not32 D)), (7 * iz) mod 16) in
  let F' := add32 (add32 (add32 F A) (nth i sines 0)) (nth (Z.to_nat g) M 0) in
  mkState D (add32 B (rotl32 F' (nth i shifts 0))) B C.

Definition block (st : State) (M : list Z) : State :=
  let st' := fold_left (round M) (seq 0 64) st in
  mkState (add32 (sa st) (sa st')) (add32 (sb st) (sb st'))
          (add32 (sc st) (sc st')) (add32 (sd st) (sd st')).

Fixpoint blocks (n : nat) (st : State) (bytes : list Z) : State :=
  match n with
  | O => st
  | S k => blocks k (block st (words 16 (take 64 bytes))) (drop 64 bytes)
  end.

Definition hex_digit (d : Z) : ascii :=
  if d <? 10 then ascii_of_nat (Z.to_nat (48 + d))
  else ascii_of_nat (Z.to_nat (87 + d)).

Fixpoint hex (bytes : list Z) : string :=
  match bytes with
  | [] => EmptyString
  | b :: rest => String (hex_digit (b / 16)) (String (hex_digit (b mod 16)) (hex rest))
  end.

Definition digest_hex (s : string) : string :=
  let bytes := pad (utf8 s) in
  let st := blocks (length bytes / 64) init bytes in
  hex (le_bytes 4 (sa st) ++ le_bytes 4 (sb st)
       ++ le_bytes 4 (sc st) ++ le_bytes 4 (sd st)).

End MD5.

(** ** Node's [path] (POSIX) *)

Definition isDot (segment : string) : bool := String.eqb segment ".".
Definition isDotDot (segment : string) : bool := String.eqb segment "..".

(** [normalizeString]: empty segments and [.] go; [..] takes back the
    last segment kept, unless there is none or it is [..] itself, in
    which case it stays when the path is relative ([allowAboveRoot]).
    [stack] holds the segments kept so far, last first. *)
Fixpoint normalizeSegments (allowAboveRoot : bool) (stack segments : list string)
    : list string :=
  match segments with
  | [] => rev stack
  | segment :: rest =>
      if String.eqb segment "" || isDot segment
      then normalizeSegments allowAboveRoot stack rest
      else if isDotDot segment then
        match stack with
        | top :: below =>
            if isDotDot top
            then normalizeSegments allowAboveRoot
                   (if allowAboveRoot then segment :: stack else stack) rest
            else normalizeSegments allowAboveRoot below rest
        | [] =>
            normalizeSegments allowAboveRoot
              (if allowAboveRoot then [segment] else []) rest
        end
      else normalizeSegments allowAboveRoot (segment :: stack) rest
  end.

Definition startsWithSlash (p : string) : bool :=
  match p with
  | String c _ => Ascii.eqb c "/"
  | EmptyString => false
  end.

Fixpoint endsWithSlash (p : string) : bool :=
  match p with
  | EmptyString => false
  | String c rest => if String.eqb rest "" then Ascii.eqb c "/" else endsWithSlash rest
  end.

(** [path.normalize] *)
Definition path_normalize (p : string) : string :=
  if String.eqb p "" then "."
  else
    let isAbsolute := startsWithSlash p in
    let trailingSeparator := endsWithSlash p in
    let kept :=
      Js.join "/" (normalizeSegments (negb isAbsolute) [] (Js.split "/" p)) in
    if String.eqb kept "" then
      if isAbsolute then "/" else if trailingSeparator then "./" else "."
    else
      let kept := if trailingSeparator then kept +:+ "/" else kept in
      if isAbsolute then "/" +:+ kept else kept.

(** [path.join(dir, name)]: the arguments that are not empty, joined by
    a slash and normalized. *)
Definition path_join (dir name : string) : string :=
  if String.eqb dir "" then path_normalize name
  else if String.eqb name "" then path_normalize dir
  else path_normalize (dir +:+ "/" +:+ name).

(** The directory in which a normalized relative path names an entry:
    the path less its last segment, [.] for a single segment. *)
Definition parentDirectory (p : string) : string :=
  match removelast (Js.split "/" p) with
  | [] => "."
  | segments => Js.join "/" segments
  end.

(** ** The disk *)

(** What a path of the working directory holds: a JSON record of a
    crawled item, a record that [fs.readJSON] cannot read or parse, or a
    text written by [fs.writeFile]. *)
Inductive File :=
  | JsonFile (item : Item)
  | Unreadable
  | TextFile (content : string).

(** The files by path, and the directories. The working directory,
    the directories above it, and the directories [cache] and [reports]
    are taken to exist, so [fs.ensureDir] has nothing to do; any other
    directory exists when [directories] lists it. [writable] is false
    when writes fail (read-only or full disk). *)
Record Disk := mkDisk {
  files : gmap string File;
  directories : list string;
  writable : bool
}.

(** A path made of [..] segments only: a directory above the working
    directory. *)
Definition aboveWorkingDirectory (dir : string) : bool :=
  forallb isDotDot (Js.split "/" dir).

Definition directoryExists (d : Disk) (dir : string) : bool :=
  String.eqb dir "." || aboveWorkingDirectory dir
  || String.eqb dir "cache" || String.eqb dir "reports"
  || existsb (String.eqb dir) (directories d).

Definition pathExists (d : Disk) (path : string) : bool :=
  bool_decide (is_Some (files d !! path)).

Definition readJSON (d : Disk) (path : string) : Result Item :=
  match files d !! path with
  | Some (JsonFile item) => Ok item
  | _ => Throw (CacheIOError path)
  end.

(** A write fails on a disk that refuses writes and under a directory
    that does not exist. *)
Definition canWrite (d : Disk) (path : string) : bool :=
  writable d && directoryExists d (parentDirectory path).

Definition writeJSON (d : Disk) (path : string) (item : Item) : Result Disk :=
  if canWrite d path
  then Ok (mkDisk (<[path := JsonFile item]> (files d)) (directories d) true)
  else Throw (CacheIOError path).

Definition writeFile (d : Disk) (path : string) (content : string) : Result Disk :=
  if canWrite d path
  then Ok (mkDisk (<[path := TextFile content]> (files d)) (directories d) true)
  else Throw (CacheIOError path).

(** ** src/models.js: the context windows *)

Definition supportedModels : list (string * list (string * Z)) :=
  [ ("openai", [("o3-mini", 200000)]);
    ("google", [("gemini-2.0-flash", 1048576); ("gemini-1.5-pro", 2097152)]);
    ("anthropic", [("claude-3-5-haiku-20241022", 200000);
                   ("claude-3-5-sonnet-20241022", 200000)]);
    ("deepseek", [("deepseek-chat", 64000)]);
    ("xai", [("grok-2-1212", 131072)]) ].

(** ** class Research *)

Record Config := mkConfig {
  locale : string;
  selected_model : string
}.

Record Reference := mkReference {
  ref_title : string;
  ref_url : string
}.

(** The fields of a [Research] object that the crawl, chapter and
    document stages read or write. ([stats], [lastRunId] and the API
    clients carry no data these stages compute with.) *)
Record Research := mkResearch {
  config : Config;
  cache : JsObject Item;
  references : gmap string Reference;
  usedReferences : list string
}.

(** The constructor: empty cache, empty [references], empty ledger. *)
Definition newResearch (cfg : Config) : Research :=
  mkResearch cfg [] ∅ [].

(** [getProviderKey()]: [find] gives [undefined] for a model of no
    provider, and [undefined[0]] throws. *)
Definition getProviderKey (R : Research) : Result string :=
  match find (fun entry =>
                existsb (String.eqb (selected_model (config R)))
                        (map fst (snd entry)))
             supportedModels with
  | Some entry => Ok (fst entry)
  | None => Throw (TypeError "getProviderKey")
  end.

(** [supportedModels[this.getProviderKey()].models[selected_model].contextWindow] *)
Definition modelContextWindow (R : Research) : Result Z :=
  provider ← getProviderKey R;
  match find (fun entry => String.eqb (fst entry) provider) supportedModels with
  | Some entry =>
      match find (fun m => String.eqb (fst m) (selected_model (config R)))
                 (snd entry) with
      | Some m => Ok (snd m)
      | None => Throw (TypeError "contextWindow")
      end
  | None => Throw (TypeError "models")
  end.

(** *** crawlUrls *)

(** The cache key of a URL and the path of its record. *)
Definition cacheKey (u : string) : string :=
  MD5.digest_hex (Js.trim (Js.toLowerCase u)).

Definition cachePath (u : string) : string :=
  path_join "cache" ("url_" +:+ cacheKey u +:+ ".json").

(** [x || fallback] for an optional string: [undefined] and the empty
    string are falsy. *)
Definition or_else (x : option string) (fallback : string) : string :=
  match x with
  | Some s => if String.eqb s "" then fallback else s
  | None => fallback
  end.

(** One cached or crawled item entering the in-memory corpus under
    [key]: [this.cache[key] = item; this.references.set(key, ...)]. *)
Definition remember (R : Research) (key : string) (item : Item) : Research :=
  mkResearch (config R)
    (obj_set key item (cache R))
    (<[key := mkReference (or_else (metadata_title item) key) key]> (references R))
    (usedReferences R).

(** The first loop: cache hits are read, misses collected. *)
Fixpoint lookupLoop (d : Disk) (urls : list string) (R : Research)
    (uncachedUrls : list string) : Result (Research * list string) :=
  match urls with
  | [] => Ok (R, uncachedUrls)
  | u :: rest =>
      if pathExists d (cachePath u) then
        cached ← readJSON d (cachePath u);
        lookupLoop d rest (remember R u cached) uncachedUrls
      else lookupLoop d rest R (uncachedUrls ++ [u])
  end.

(** The second loop: every crawled item is written to its record and
    enters the corpus under its own [url]. *)
Fixpoint storeLoop (d : Disk) (items : list Item) (R : Research)
    : Result (Disk * Research) :=
  match items with
  | [] => Ok (d, R)
  | item :: rest =>
      d' ← writeJSON d (cachePath (url item)) item;
      storeLoop d' rest (remember R (url item) item)
  end.

Section Crawl.

(** The content-crawler actor: its dataset items for the start URLs, or
    the failure of the call. *)
Variable crawler : list string -> Result (list Item).

Definition crawlUrls (d : Disk) (R : Research) (urls : list string)
    : Result (Disk * Research * list Item) :=
  '(R1, uncachedUrls) ← lookupLoop d urls R [];
  if (0 <? length uncachedUrls)%nat then
    items ← crawler uncachedUrls;
    '(d2, R2) ← storeLoop d items R1;
    Ok (d2, R2, Object_values (cache R2))
  else Ok (d, R1, Object_values (cache R1)).

End Crawl.

(** *** generateChapterContent *)

(** An outline entry ([ChaptersSchema]); the number is integer-valued. *)
Record Chapter := mkChapter {
  number : Z;
  title : string
}.

(** A paragraph of the model's answer ([ChapterContentSchema]): its
    text and the reference numbers it carries, which [z.number()] lets
    be any number. *)
Record Paragraph := mkParagraph {
  p_text : string;
  p_references : list Q
}.

Record ChapterContentObject := mkObject {
  summary : string;
  paragraphs : list Paragraph
}.

(** [usedReferences.includes(url)] and [usedReferences.indexOf(url)]. *)
Definition includes (u : string) (l : list string) : bool :=
  existsb (String.eqb u) l.

Fixpoint indexOf_from (i : Z) (u : string) (l : list string) : Z :=
  match l with
  | [] => -1
  | x :: rest => if String.eqb x u then i else indexOf_from (i + 1) u rest
  end.

Definition indexOf (u : string) (l : list string) : Z := indexOf_from 0 u l.

(** The ledger step of lines 352-355: push the URL unless it is there,
    then read its 1-based position. *)
Definition citeOrGetIndex (usedReferences : list string) (u : string)
    : list string * Z :=
  let used :=
    if includes u usedReferences then usedReferences
    else usedReferences ++ [u] in
  (used, indexOf u used + 1).

Definition renderMarker (refIndex : Z) (u : string) : string :=
  "[(" +:+ Js.of_Z refIndex +:+ ")](" +:+ u +:+ ")".

(** The callback of [para.references.map]: the marker of a reference
    number, or [null]; the ledger is updated on the way. A number that
    passes the guard without an integer value reads [undefined] from
    the array, and [undefined.url] throws. (On the doubles that pass
    the guard, [refNum - 1] is exact.) *)
Definition resolveReference (truncatedContents : list Item)
    (usedReferences : list string) (refNum : Q)
    : Result (list string * option string) :=
  let contentIndex := (refNum - 1)%Q in
  if Js.geb contentIndex 0
     && Js.ltb contentIndex (inject_Z (Z.of_nat (length truncatedContents)))
  then
    match Js.at_number truncatedContents contentIndex with
    | Some c =>
        let '(used, refIndex) := citeOrGetIndex usedReferences (url c) in
        Ok (used, Some (renderMarker refIndex (url c)))
    | None => Throw (TypeError "truncatedContents[contentIndex].url")
    end
  else Ok (usedReferences, None).

(** [para.references.map(...)], left to right. *)
Fixpoint resolveReferences (truncatedContents : list Item)
    (usedReferences : list string) (refNums : list Q)
    : Result (list string * list (option string)) :=
  match refNums with
  | [] => Ok (usedReferences, [])
  | refNum :: rest =>
      '(used, m) ← resolveReference truncatedContents usedReferences refNum;
      '(used', ms) ← resolveReferences truncatedContents used rest;
      Ok (used', m :: ms)
  end.

(** [.filter(Boolean)]: the [null]s go. *)
Definition filterBoolean (ms : list (option string)) : list string :=
  omap id ms.

(** The callback of [object.paragraphs.map]. *)
Definition processParagraph (truncatedContents : list Item)
    (usedReferences : list string) (para : Paragraph)
    : Result (list string * string) :=
  '(used, ms) ←
    resolveReferences truncatedContents usedReferences (p_references para);
  let refs := filterBoolean ms in
  Ok (used, p_text para
            +:+ (if (0 <? length refs)%nat then " " +:+ Js.join "" refs else "")).

Fixpoint processParagraphs (truncatedContents : list Item)
    (usedReferences : list string) (paras : list Paragraph)
    : Result (list string * list string) :=
  match paras with
  | [] => Ok (usedReferences, [])
  | para :: rest =>
      '(used, t) ← processParagraph truncatedContents usedReferences para;
      '(used', ts) ← processParagraphs truncatedContents used rest;
      Ok (used', t :: ts)
  end.

Definition chaptersText (chapters : list Chapter) : string :=
  Js.join Js.nl (map (fun c => Js.of_Z (number c) +:+ ". " +:+ title c) chapters).

Definition basePrompt (loc subject : string) (chapter : Chapter)
    (chapters : list Chapter) (previousChapter : string) : string :=
  "For a comprehensive research paper on " +:+ Js.dquote +:+ subject +:+ Js.dquote
  +:+ " that covers the following chapters, generate the complete text for chapter "
  +:+ Js.of_Z (number chapter)
  +:+ ". You will receive a list of chapters, extensive contents to work with, and previous chapter text (previous_chapter). Use the provided contents and previous_chapter as your basis, ensuring that previous_chapter is only repeated when absolutely necessary. The chapter should be written in the "
  +:+ loc +:+ " locale and cover the chapter in its entirety." +:+ Js.nl
  +:+ Js.nl
  +:+ "Your response should include:" +:+ Js.nl
  +:+ "1. A summary of the chapter" +:+ Js.nl
  +:+ "2. An array of paragraphs, where each paragraph has:" +:+ Js.nl
  +:+ "   - The paragraph text" +:+ Js.nl
  +:+ "   - An array of reference numbers (1-based) to the content items used in that paragraph" +:+ Js.nl
  +:+ Js.nl
  +:+ "Don't include the chapter title or number in your responses." +:+ Js.nl
  +:+ Js.nl
  +:+ "<chapters>" +:+ Js.nl
  +:+ chaptersText chapters +:+ Js.nl
  +:+ "</chapters>" +:+ Js.nl
  +:+ Js.nl
  +:+ "<previous_chapter>" +:+ Js.nl
  +:+ previousChapter +:+ Js.nl
  +:+ "</previous_chapter>".

Definition contentsText (truncatedContents : list Item) : string :=
  Js.join (Js.nl +:+ Js.nl)
    (Js.mapi (fun c i => contentBlock (i + 1) (text c)) truncatedContents).

(** What a chapter-body call hands back: [{summary, text}], and the
    prompt it sent to the model (kept for the properties below). *)
Record ChapterBody := mkBody {
  body_summary : string;
  body_text : string;
  body_prompt : string
}.

Section Generation.

Variable encode : string -> Result (list nat).

(** The language model behind [generateObject] with
    [ChapterContentSchema]: the answer to the [n]-th chapter-body call
    with the given prompt, or the failure of the call. *)
Variable generateObject : nat -> string -> Result ChapterContentObject.

Definition generateChapterContent (R : Research) (call : nat)
    (subject : string) (chapter : Chapter) (chapters : list Chapter)
    (contents : list Item) (previousChapter : string)
    : Result (Research * ChapterBody) :=
  let base := basePrompt (locale (config R)) subject chapter chapters previousChapter in
  contextWindow ← modelContextWindow R;
  truncatedContents ← truncateContentsToFit encode base contents contextWindow;
  let prompt := base +:+ Js.nl +:+ Js.nl +:+ contentsText truncatedContents in
  object ← generateObject call prompt;
  '(used, processedParagraphs) ←
    processParagraphs truncatedContents (usedReferences R) (paragraphs object);
  Ok (mkResearch (config R) (cache R) (references R) used,
      mkBody (summary object)
             (Js.join (Js.nl +:+ Js.nl) processedParagraphs)
             prompt).

(** *** src/index.js: the chapter loop of [main] *)

Record ChapterContent := mkChapterContent {
  cc_number : Z;
  cc_title : string;
  cc_content : string;
  cc_summary : string
}.

(** The loop's state: the [Research] object, [previousText],
    [chapterContents], and the log of the chapter-body calls made so far
    (chapter number and prompt of each, oldest first). *)
Record LoopState := mkLoop {
  research : Research;
  previousText : string;
  chapterContents : list ChapterContent;
  calls : list (Z * string)
}.

(** [for (const chapter of chapters)] over the chapters still [todo]. *)
Fixpoint chapterLoop (subject : string) (chapters : list Chapter)
    (contents : list Item) (todo : list Chapter) (st : LoopState)
    : Result LoopState :=
  match todo with
  | [] => Ok st
  | chapter :: rest =>
      '(R, content) ← generateChapterContent (research st) (length (calls st))
                        subject chapter chapters contents (previousText st);
      chapterLoop subject chapters contents rest
        (mkLoop R
           (previousText st +:+ body_text content)
           (chapterContents st ++
              [mkChapterContent (number chapter) (title chapter)
                 (body_text content) (body_summary content)])
           (calls st ++ [(number chapter, body_prompt content)]))
  end.

Definition generateChapterContents (R : Research) (subject : string)
    (chapters : list Chapter) (contents : list Item) : Result LoopState :=
  chapterLoop subject chapters contents chapters (mkLoop R "" [] []).

End Generation.

(** *** generateDocument *)

(** [.replace(/\s+/g, "_")]; [inRun] tells that the previous code unit
    was white space, already replaced. *)
Fixpoint replaceSpaceRuns (inRun : bool) (s : string) : string :=
  match s with
  | EmptyString => EmptyString
  | String c rest =>
      if Js.is_space c
      then if inRun then replaceSpaceRuns true rest
           else String "_" (replaceSpaceRuns true rest)
      else String c (replaceSpaceRuns false rest)
  end.

Definition isUnderscore (c : ascii) : bool := Ascii.eqb c "_".

Definition dropLeadingUnderscore (s : string) : string :=
  match s with
  | EmptyString => EmptyString
  | String c rest => if isUnderscore c then rest else s
  end.

Fixpoint dropTrailingUnderscore (s : string) : string :=
  match s with
  | EmptyString => EmptyString
  | String c rest =>
      if isUnderscore c && String.eqb rest "" then EmptyString
      else String c (dropTrailingUnderscore rest)
  end.

(** [.replace(/(^_|_$)/g, "")]: one match at the start, then one at the
    end of what is left. *)
Definition stripEdges (s : string) : string :=
  dropTrailingUnderscore (dropLeadingUnderscore s).

Definition slug (subject : string) : string :=
  stripEdges (replaceSpaceRuns false (Js.toLowerCase subject)).

(** [isoString.split("T")[0]]. *)
Fixpoint beforeT (s : string) : string :=
  match s with
  | EmptyString => EmptyString
  | String "T" _ => EmptyString
  | String c rest => String c (beforeT rest)
  end.

Definition toc (chapters : list ChapterContent) : string :=
  Js.join Js.nl
    (map (fun c => Js.of_Z (cc_number c) +:+ ". [" +:+ cc_title c
                   +:+ "](#chapter-" +:+ Js.of_Z (cc_number c) +:+ ")")
         chapters).

(** The callback of [this.usedReferences.map]: [ref.title] throws when
    [references] has no entry for the URL. *)
Definition referenceLine (refs : gmap string Reference) (u : string)
    (index : nat) : Result string :=
  match refs !! u with
  | Some ref =>
      Ok ("- [(" +:+ Js.of_nat (index + 1) +:+ ")](" +:+ u +:+ ") " +:+ ref_title ref)
  | None => Throw (TypeError "ref.title")
  end.

Fixpoint referenceLines (refs : gmap string Reference) (index : nat)
    (used : list string) : Result (list string) :=
  match used with
  | [] => Ok []
  | u :: rest =>
      line ← referenceLine refs u index;
      lines ← referenceLines refs (S index) rest;
      Ok (line :: lines)
  end.

Definition orderedReferences (R : Research) : Result string :=
  lines ← referenceLines (references R) 0 (usedReferences R);
  Ok (Js.join Js.nl lines).

Definition chapterSection (c : ChapterContent) : string :=
  Js.nl +:+ "<h2 id='chapter-" +:+ Js.of_Z (cc_number c) +:+ "'>" +:+ cc_title c
  +:+ "</h2>" +:+ Js.nl +:+ Js.nl +:+ "*" +:+ cc_summary c +:+ "*"
  +:+ Js.nl +:+ Js.nl +:+ cc_content c.

(** The canonical text, given the clock's ISO reading [now] and the
    rendered bibliography. *)
Definition documentContent (now subject abstract : string)
    (chapters : list ChapterContent) (conclusions bibliography : string) : string :=
  Js.join Js.nl
    ([ "# " +:+ subject;
       Js.nl +:+ "*Generated on " +:+ beforeT now
         +:+ " by [apify-deep-research](https://github.com/mluggy/apify-deep-research) (not for commercial use)*"
         +:+ Js.nl;
       toc chapters;
       Js.nl;
       "*" +:+ abstract +:+ "*" ]
     ++ map chapterSection chapters
     ++ [ Js.nl +:+ "---" +:+ Js.nl;
          "*" +:+ conclusions +:+ "*";
          Js.nl +:+ "---" +:+ Js.nl;
          bibliography ]).

Record Document := mkDocument {
  content : string;
  markdown : string;
  html : string
}.

Section Assembly.

(** The styled rendering (citation markers to superscript links,
    markdown-it, the HTML page with its direction attribute): a function
    of the locale, the subject and the canonical text. *)
Variable styledRendering : string -> string -> string -> string.

(** [now] is the clock's [new Date().toISOString()] at the call. *)
Definition generateDocument (d : Disk) (R : Research) (now : string)
    (subject abstract : string) (chapters : list ChapterContent)
    (conclusions : string) : Result (Disk * Research * Document) :=
  let name := slug subject in
  bibliography ← orderedReferences R;
  let text := documentContent now subject abstract chapters conclusions bibliography in
  let mdPath := path_join "reports" (name +:+ ".md") in
  d1 ← writeFile d mdPath text;
  let htmlPath := path_join "reports" (name +:+ ".html") in
  d2 ← writeFile d1 htmlPath (styledRendering (locale (config R)) subject text);
  Ok (d2, R, mkDocument text mdPath htmlPath).

End Assembly.

(** *** src/index.js: the stages of [main] from the crawl on *)

Section Main.

Variable encode : string -> Result (list nat).
Variable crawler : list string -> Result (list Item).

(** [research.generateChapters] and [research.generateSummary] as the
    answers of the model to their prompts: the outline for a corpus, the
    abstract and conclusions for the finished chapters. *)
Variable generateChapters : list Item -> Result (list Chapter).
Variable generateObject : nat -> string -> Result ChapterContentObject.
Variable generateSummary : list ChapterContent -> Result (string * string).
Variable styledRendering : string -> string -> string -> string.

(** The body of the [try] block once the URLs are known; a [Throw] is
    what the [catch] reports as a failed research. *)
Definition researchRun (d : Disk) (cfg : Config) (subject : string)
    (urls : list string) (now : string) : Result (Disk * Research * Document) :=
  '(d1, R1, contents) ← crawlUrls crawler d (newResearch cfg) urls;
  chapters ← generateChapters contents;
  st ← generateChapterContents encode generateObject R1 subject chapters contents;
  '(abstract, conclusions) ← generateSummary (chapterContents st);
  generateDocument styledRendering d1 (research st) now subject abstract
    (chapterContents st) conclusions.

End Main.

(** ** The other stages of class Research *)

(** *** searchQueries *)

(** [set.add(x)] for each [x] of [l], in order: a value already in the
    set keeps its place. *)
Fixpoint addAll (set : list string) (l : list string) : list string :=
  match l with
  | [] => set
  | x :: rest => addAll (if includes x set then set else set ++ [x]) rest
  end.

(** [[...new Set(l)]] *)
Definition uniqueOf (l : list string) : list string := addAll [] l.

(** The input of the search actor. *)
Record SearchInput := mkSearchInput {
  si_queries : string;
  si_languageCode : string;
  si_countryCode : string;
  si_resultsPerPage : Z;
  si_maxPagesPerQuery : Z
}.

Section Search.

(** The search actor: per dataset item the URLs of its
    [organicResults] ([None] when the item has none), or the failure of
    the call. *)
Variable searchActor : SearchInput -> Result (list (option (list string))).

(** [depth] is [this.config.depth]. A locale without a dash leaves
    [countryCode] undefined, and [countryCode.toLowerCase()] throws. *)
Definition searchQueries (cfg : Config) (depth : Z) (queries : list string)
    : Result (list string) :=
  match Js.split "-" (locale cfg) with
  | languageCode :: countryCode :: _ =>
      items ← searchActor
                (mkSearchInput (Js.join Js.nl queries)
                   (if String.eqb languageCode "he" then "iw" else languageCode)
                   (Js.toLowerCase countryCode) depth 1);
      Ok (uniqueOf (flat_map (fun d => default [] d) items))
  | _ => Throw (TypeError "countryCode.toLowerCase")
  end.

End Search.

(** *** src/index.js: the locale accepted by [main] *)

Definition isLowerLetter (c : ascii) : bool :=
  let n := nat_of_ascii c in ((97 <=? n) && (n <=? 122))%nat.

Definition isUpperLetter (c : ascii) : bool :=
  let n := nat_of_ascii c in ((65 <=? n) && (n <=? 90))%nat.

(** [/^[a-z]{2}-[A-Z]{2}$/.test(value)] *)
Definition localeValid (value : string) : bool :=
  match value with
  | String a (String b (String dash (String c (String d EmptyString)))) =>
      isLowerLetter a && isLowerLetter b && Ascii.eqb dash "-"
      && isUpperLetter c && isUpperLetter d
  | _ => false
  end.

(** *** The prompts of the query, outline and summary stages *)

Record Followup := mkFollowup {
  question : string;
  answer : string
}.

Definition followupBlock (f : Followup) (i : nat) : string :=
  "<followup" +:+ Js.of_nat (i + 1) +:+ ">" +:+ Js.nl
  +:+ "Question: " +:+ question f +:+ Js.nl
  +:+ "Answer: " +:+ answer f +:+ Js.nl
  +:+ "</followup" +:+ Js.of_nat (i + 1) +:+ ">".

Definition followupText (followups : list Followup) : string :=
  Js.join (Js.nl +:+ Js.nl) (Js.mapi followupBlock followups).

(** [breadth] is [this.config.breadth]. *)
Definition searchQueriesPrompt (breadth : Z) (subject : string)
    (followups : list Followup) : string :=
  "Generate " +:+ Js.of_Z breadth
  +:+ " or less search engine queries to aid research on the subject of "
  +:+ Js.dquote +:+ subject +:+ Js.dquote
  +:+ ". Queries should address the nuances highlighted in these follow-up questions:"
  +:+ Js.nl +:+ Js.nl +:+ followupText followups.

Definition chaptersPrompt (cfg : Config) (breadth : Z) (subject : string)
    (followups : list Followup) (contents : list Item) : string :=
  "Generate a list of up to " +:+ Js.of_Z breadth
  +:+ " numbered chapters for a deep research paper on the subject of "
  +:+ Js.dquote +:+ subject +:+ Js.dquote
  +:+ ". Each chapter should have a number and title. Chapters should cover the entire subject, including followups, based on the contents provided. Note that the locale is "
  +:+ locale cfg +:+ "." +:+ Js.nl +:+ Js.nl
  +:+ followupText followups +:+ Js.nl +:+ Js.nl
  +:+ contentsText contents.

Definition summaryBlock (c : ChapterContent) (i : nat) : string :=
  "<chapter" +:+ Js.of_nat (i + 1) +:+ ">" +:+ Js.nl
  +:+ "Title: " +:+ cc_title c +:+ Js.nl
  +:+ "Summary: " +:+ cc_summary c +:+ Js.nl
  +:+ "</chapter" +:+ Js.of_nat (i + 1) +:+ ">".

Definition summaryPrompt (cfg : Config) (subject : string)
    (chapters : list ChapterContent) : string :=
  "Generate an abstract and conclusions for a research paper on "
  +:+ Js.dquote +:+ subject +:+ Js.dquote
  +:+ " based on the following chapter summaries. Texts should be written in the "
  +:+ locale cfg +:+ " locale." +:+ Js.nl +:+ Js.nl
  +:+ Js.join (Js.nl +:+ Js.nl) (Js.mapi summaryBlock chapters).

Section Stages.

(** The language model behind [generateObject] with [QueriesSchema],
    [ChaptersSchema] and [ResearchSummarySchema], reached through the
    provider of [getAIProvider]: its answer to a prompt, or the failure
    of the call (a missing API key included). [updateTokenUsage] only
    adds to the run's statistics. *)
Variable queriesObject : string -> Result (list string).
Variable chaptersObject : string -> Result (list Chapter).
Variable summaryObject : string -> Result (string * string).

Definition generateSearchQueries (breadth : Z) (subject : string)
    (followups : list Followup) : Result (list string) :=
  queriesObject (searchQueriesPrompt breadth subject followups).

Definition generateChapters (cfg : Config) (breadth : Z) (subject : string)
    (followups : list Followup) (contents : list Item) : Result (list Chapter) :=
  chaptersObject (chaptersPrompt cfg breadth subject followups contents).

Definition generateSummary (cfg : Config) (subject : string)
    (chapters : list ChapterContent) : Result (string * string) :=
  summaryObject (summaryPrompt cfg subject chapters).

End Stages.

(** *** generateDocument: citation markers to superscript links *)









(** ** The specification's vocabulary *)

(** A local reference index is in range for a budgeted list of [n]
    documents when it is one of 1..n. *)
Definition inRange (n : nat) (refNum : Z) : bool :=
  (1 <=? refNum) && (refNum <=? Z.of_nat n).

(** A number with an integer value; the number that an index is. *)
Definition wholeNumber (x : Q) : Prop := exists z : Z, (x == inject_Z z)%Q.

(** A number from 1 up to, but not including, [n + 1]: the whole
    numbers among these are the indices in range. *)
Definition withinList (n : nat) (x : Q) : bool :=
  Qle_bool 1 x && negb (Qle_bool (inject_Z (Z.of_nat n) + 1) x).

(** Every reference number of an answer is a whole number. *)
Definition wholeReferences (object : ChapterContentObject) : Prop :=
  forall para x, In para (paragraphs object) -> In x (p_references para) ->
                 wholeNumber x.

(** [numeral] is the decimal numeral of [n]: digits only, with value
    [n], and no leading zero. *)
Definition isDecimalOf (n : N) (numeral : string) : Prop :=
  Js.decimalValue numeral = Some n
  /\ (Js.leadingZero numeral = true -> numeral = "0").

(** The citation marker with index [i] for the URL [u]. *)
Definition markerText (i : N) (u marker : string) : Prop :=
  exists numeral,
    isDecimalOf i numeral /\ marker = "[(" +:+ numeral +:+ ")](" +:+ u +:+ ")".

(** [finalOrdering()]: index, URL and stored title of every cited URL,
    in first-use order. *)
Definition finalOrdering (R : Research) : list (nat * string * string) :=
  Js.mapi
    (fun u i => ((i + 1)%nat, u, default "" (ref_title <$> references R !! u)))
    (usedReferences R).

(** The bibliography line of an entry: its index as a marker on its
    URL, then its title. *)
Definition bibliographyLine (e : nat * string * string) (line : string) : Prop :=
  exists marker,
    markerText (N.of_nat (fst (fst e))) (snd (fst e)) marker
    /\ line = "- " +:+ marker +:+ " " +:+ snd e.

(** [text] is the bibliography of [R]: one line per entry of the final
    ordering, in that order. *)
Definition bibliographyOf (R : Research) (text : string) : Prop :=
  exists lines,
    text = Js.join Js.nl lines /\ Forall2 bibliographyLine (finalOrdering R) lines.

(** What a ledger may become: the old sequence stays in front, and it
    stays free of repetitions. *)
Definition grows (used used' : list string) : Prop :=
  used `prefix_of` used' /\ (NoDup used -> NoDup used').

(** [s] occurs in [t]. *)
Definition occursIn (s t : string) : Prop :=
  exists before after, t = before +:+ s +:+ after.

(** A name starts, or ends, with the separator; a subject holds an
    underscore. *)
Definition startsWithSeparator (s : string) : bool :=
  match s with
  | EmptyString => false
  | String c _ => isUnderscore c
  end.

Fixpoint endsWithSeparator (s : string) : bool :=
  match s with
  | EmptyString => false
  | String c rest =>
      if String.eqb rest "" then isUnderscore c else endsWithSeparator rest
  end.

Fixpoint hasUnderscore (s : string) : bool :=
  match s with
  | EmptyString => false
  | String c rest => isUnderscore c || hasUnderscore rest
  end.

(** No two separators in a row. *)
Fixpoint singleSeparators (s : string) : bool :=
  match s with
  | EmptyString => true
  | String c rest =>
      negb (isUnderscore c && startsWithSeparator rest) && singleSeparators rest
  end.

(** The record of a URL is absent or can be read. *)
Definition recordUsable (d : Disk) (u : string) : Prop :=
  match files d !! cachePath u with
  | None | Some (JsonFile _) => True
  | Some _ => False
  end.

(** The URL string as the cache normalizes it. *)
Definition normalized (u : string) : string := Js.trim (Js.toLowerCase u).

(** The decidable form of [occursIn]. *)
Fixpoint containsb (s t : string) : bool :=
  String.prefix s t
  || match t with
     | EmptyString => false
     | String _ rest => containsb s rest
     end.

(** The texts of the chapters generated so far, concatenated. *)
Fixpoint concatTexts (cs : list ChapterContent) : string :=
  match cs with
  | [] => ""
  | c :: rest => cc_content c +:+ concatTexts rest
  end.


(** Every code unit of [s] satisfies [p]. *)
Fixpoint allUnits (p : ascii -> bool) (s : string) : bool :=
  match s with
  | EmptyString => true
  | String c rest => p c && allUnits p rest
  end.


Definition notSpace (c : ascii) : bool := negb (Js.is_space c).

(** A code unit that [toLowerCase] leaves alone. *)
Definition isLowered (c : ascii) : bool := Ascii.eqb (Js.lower_unit c) c.

(** The record of a URL, when there is one, can be read and carries the
    URL it is looked up by. *)
Definition recordFaithful (d : Disk) (u : string) : Prop :=
  match files d !! cachePath u with
  | None => True
  | Some (JsonFile item) => url item = u
  | Some _ => False
  end.

(** Every document of the in-memory corpus has its entry in
    [references], under its own [url]. *)
Definition corpusCovered (R : Research) : Prop :=
  forall k item, In (k, item) (cache R) -> is_Some (references R !! url item).

(** Every URL of the ledger [used'] was in [used] or is the [url] of a
    document of [docs]. *)
Definition citedFrom (docs : list Item) (used used' : list string) : Prop :=
  forall u, In u used' -> In u used \/ exists c, In c docs /\ url c = u.

(** The URLs of a batch that have no record on the disk. *)
Definition misses (d : Disk) (urls : list string) : list string :=
  List.filter (fun u => negb (pathExists d (cachePath u))) urls.


(** A key that a plain object keeps in the order of creation: no array
    index, and not [__proto__]. *)
Definition ordinaryKey (key : string) : bool :=
  negb (Js.isArrayIndex key) && negb (String.eqb key "__proto__").

(** The keys of the own properties of a plain object in the order of
    their creation, which is the order of [Object.keys] for the keys
    that are no array index. *)
Definition createdKeys {V} (o : JsObject V) : list string := map fst o.

Definition namedKey (key : string) : bool := negb (Js.isArrayIndex key).

(** A file name without directory part: not empty, no slash, and not
    one of [.] and [..]. *)
Definition notSlash (c : ascii) : bool := negb (Ascii.eqb c "/").

Definition simpleName (name : string) : bool :=
  allUnits notSlash name
  && negb (String.eqb name "") && negb (isDot name) && negb (isDotDot name).

(** The tokenizer has an estimate for the text. *)
Definition accepts (encode : string -> Result (list nat)) (text : string) : Prop :=
  exists tokens, encode text = Ok tokens.

(** The tokenizer has an estimate for every document of the corpus,
    wrapped in the block of its place. *)
Definition blocksAccepted (encode : string -> Result (list nat))
    (contents : list Item) : Prop :=
  forall i c, contents !! i = Some c -> accepts encode (contentBlock (i + 1) (text c)).

(** ** Sample data for the worked examples *)

(** A tokenizer to run the budgeter with: one token per code unit. *)
Definition unitTokens (s : string) : Result (list nat) :=
  Ok (map nat_of_ascii (list_ascii_of_string s)).

(** The same, refusing a text that holds the end-of-text token, as
    [encode] of [gpt-tokenizer] does. *)
Definition strictTokens (s : string) : Result (list nat) :=
  if containsb "<|endoftext|>" s then Throw (TokenizerError "<|endoftext|>")
  else unitTokens s.

Definition docA : Item := mkItem "http://a.example/solar" "aaaa" (Some "Solar A").
Definition docB : Item := mkItem "http://b.example/panel" "bbbb" None.
Definition docC : Item := mkItem "http://c.example/reuse" "cccc" (Some "Reuse C").

(** A page that quotes the end-of-text token. *)
Definition docT : Item :=
  mkItem "http://t.example/tokens" "about <|endoftext|> and others" None.


Definition sampleConfig : Config := mkConfig "en-US" "deepseek-chat".

(** A crawl actor that answers every start URL with one item carrying
    that URL, and one whose call fails. *)
Definition echoCrawler (urls : list string) : Result (list Item) :=
  Ok (map (fun u => mkItem u ("text of " +:+ u) (Some ("Title of " +:+ u))) urls).

Definition downCrawler (urls : list string) : Result (list Item) :=
  Throw (ExternalServiceError "website-content-crawler").

(** A model that cites document 1 in its first chapter and documents 1
    and 2 in every later one, and one that cites the number 2.5. *)
Definition sampleModel (call : nat) (prompt : string) : Result ChapterContentObject :=
  Ok (mkObject ("Summary " +:+ Js.of_nat (call + 1))
        (if (call =? 0)%nat then [mkParagraph "First body." [1%Q]]
         else [mkParagraph "Later body." [1%Q; 2%Q]])).

Definition fractionalModel (call : nat) (prompt : string)
    : Result ChapterContentObject :=
  Ok (mkObject "Summary" [mkParagraph "Body." [2.5%Q]]).

Definition sampleOutline (contents : list Item) : Result (list Chapter) :=
  Ok [mkChapter 1 "Collection"; mkChapter 2 "Processing"].

Definition unsortedOutline : list Chapter :=
  [mkChapter 2 "Processing"; mkChapter 1 "Collection"; mkChapter 3 "Markets"].

Definition sampleSummary (cs : list ChapterContent) : Result (string * string) :=
  Ok ("Abstract.", "Conclusions.").

Definition plainRendering (loc subject text : string) : string := text.

(** A disk that already holds the record of [docA]. *)
Definition diskWithA : Disk :=
  mkDisk {[ cachePath (url docA) := JsonFile docA ]} [] true.

(** The same record, damaged. *)
Definition diskWithDamagedA : Disk :=
  mkDisk {[ cachePath (url docA) := Unreadable ]} [] true.

(** An empty disk that refuses writes. *)
Definition readOnlyDisk : Disk := mkDisk ∅ [] false.

(** The end-to-end scenario: the record of [docA] is cached, the URL of
    [docB] is new; two chapters; chapter 1 cites document 1, chapter 2
    documents 1 and 2. *)
Definition scenarioRun : Result (Disk * Research * Document) :=
  researchRun unitTokens echoCrawler sampleOutline sampleModel sampleSummary
    plainRendering diskWithA sampleConfig "solar panel recycling"
    [url docA; url docB] "2025-03-01T10:00:00.000Z".

Definition scenarioResearch : Research :=
  match scenarioRun with
  | Ok (_, R, _) => R
  | Throw _ => newResearch sampleConfig
  end.

Definition scenarioDocument : string :=
  match scenarioRun with
  | Ok (_, _, doc) => content doc
  | Throw _ => ""
  end.

(** A finished run with one chapter and one cited source. *)
Definition finishedResearch : Research :=
  mkResearch sampleConfig [(url docA, docA)]
    {[ url docA := mkReference "Solar A" (url docA) ]} [url docA].

Definition finishedChapters : list ChapterContent :=
  [mkChapterContent 1 "Collection"
     "First body. [(1)](http://a.example/solar)" "Summary 1"].
(** A run whose batch spells the cached URL of [docA] in capitals, up
    to the end of the chapter stage. *)
Definition respelledResearch : Research :=
  match crawlUrls downCrawler diskWithA (newResearch sampleConfig)
          ["HTTP://A.EXAMPLE/SOLAR"] with
  | Ok (_, R1, contents) =>
      match generateChapterContents unitTokens sampleModel R1
              "solar panel recycling" [mkChapter 1 "Collection"] contents with
      | Ok st => research st
      | Throw _ => R1
      end
  | Throw _ => newResearch sampleConfig
  end.

(** A search actor that answers with three dataset items, one of them
    without organic results. *)
Definition sampleSearch (input : SearchInput)
    : Result (list (option (list string))) :=
  Ok [Some [url docA; url docB]; None; Some [url docA; url docC]].

Definition sampleFollowups : list Followup :=
  [mkFollowup "Focus on residential or industrial?" "industrial"].

Definition echoPrompt {A} (answer : A) (prompt : string) : Result A := Ok answer.

(** * Properties *)

(** ** Calls that can throw *)

Lemma bind_Ok {A B} (m : Result A) (k : A -> Result B) (b : B) :
  m ≫= k = Ok b -> exists a, m = Ok a /\ k a = Ok b.
Proof. destruct m as [a|e]; [by exists a|discriminate]. Qed.

Lemma bind_Throw {A B} (m : Result A) (k : A -> Result B) (e : Error) :
  m = Throw e -> m ≫= k = Throw e.
Proof. by intros ->. Qed.

(** Splits a hypothesis [x ← m; k = Ok b] into its two steps. *)
Ltac ok_step H a E :=
  apply bind_Ok in H as (a & E & H); cbn beta iota in H.

(** ** Decimal numerals *)

Lemma append_cons (x : ascii) (a b : string) :
  String x a +:+ b = String x (a +:+ b).
Proof. reflexivity. Qed.

Lemma append_assoc (a b c : string) : (a +:+ b) +:+ c = a +:+ (b +:+ c).
Proof. induction a as [|x a IH]; [done|]. by rewrite !append_cons, IH. Qed.

Lemma append_empty_r (a : string) : a +:+ "" = a.
Proof. induction a as [|x a IH]; [done|]. by rewrite append_cons, IH. Qed.

Lemma digitValue_pretty (d : N) :
  (d < 10)%N -> Js.digitValue (pretty_N_char d) = Some d.
Proof.
  intros H.
  assert (d = 0 \/ d = 1 \/ d = 2 \/ d = 3 \/ d = 4 \/ d = 5 \/ d = 6 \/ d = 7
          \/ d = 8 \/ d = 9)%N as Hd by lia.
  repeat (destruct Hd as [->|Hd]; [reflexivity|]). by subst.
Qed.

(** Reading back what [pretty_N_go] wrote in front of [s]. *)
Lemma decimalFrom_pretty_N_go (x : N) (s : string) :
  Js.decimalFrom 0 (pretty_N_go x s) = Js.decimalFrom x s.
Proof.
  revert s. induction (N.lt_wf_0 x) as [x _ IH]; intros s.
  destruct (decide (x = 0)%N) as [->|Hx]; [by rewrite pretty_N_go_0|].
  rewrite pretty_N_go_step by lia. rewrite IH by (apply N.div_lt; lia).
  cbn [Js.decimalFrom]. rewrite digitValue_pretty by (apply N.mod_lt; lia).
  f_equal. pose proof (N.div_mod x 10). lia.
Qed.

Lemma pretty_N_go_first (x : N) (s : string) :
  (0 < x)%N ->
  exists c rest, pretty_N_go x s = String c rest /\ c <> "0"%char.
Proof.
  revert s. induction (N.lt_wf_0 x) as [x _ IH]; intros s Hx.
  rewrite pretty_N_go_step by done.
  destruct (decide (x `div` 10 = 0)%N) as [E|E].
  - rewrite E, pretty_N_go_0. eexists _, _. split; [done|].
    assert (x < 10)%N as Hlt by (apply N.div_small_iff in E; lia).
    rewrite N.mod_small by done.
    assert (x = 1 \/ x = 2 \/ x = 3 \/ x = 4 \/ x = 5 \/ x = 6 \/ x = 7
            \/ x = 8 \/ x = 9)%N as Hd by lia.
    repeat (destruct Hd as [->|Hd]; [discriminate|]). by subst.
  - apply IH; [apply N.div_lt; lia|by apply N.neq_0_lt_0].
Qed.

Lemma pretty_N_decimal (n : N) : isDecimalOf n (pretty n).
Proof.
  unfold pretty, pretty_N. destruct (decide (n = 0)%N) as [->|Hn]; [done|].
  destruct (pretty_N_go_first n "") as (c & rest & E & Hc); [lia|].
  split.
  - unfold Js.decimalValue. rewrite E, <- E.
    by rewrite decimalFrom_pretty_N_go.
  - rewrite E. cbn. intros H. apply Ascii.eqb_eq in H. congruence.
Qed.

Lemma of_nat_decimal (n : nat) : isDecimalOf (N.of_nat n) (Js.of_nat n).
Proof. apply pretty_N_decimal. Qed.

Lemma of_Z_decimal (z : Z) : 0 <= z -> isDecimalOf (Z.to_N z) (Js.of_Z z).
Proof.
  intros Hz. unfold Js.of_Z, pretty, pretty_Z. destruct z as [|p|p]; [done| |lia].
  apply (pretty_N_decimal (N.pos p)).
Qed.

(** A numeral determines its number. *)
Lemma isDecimalOf_value (n m : N) (numeral : string) :
  isDecimalOf n numeral -> isDecimalOf m numeral -> n = m.
Proof. intros [H1 _] [H2 _]. congruence. Qed.

(** ** The hash agrees with the reference digests *)

Example md5_of_empty : MD5.digest_hex "" = "d41d8cd98f00b204e9800998ecf8427e".
Proof. vm_compute. reflexivity. Qed.

Example md5_of_abc : MD5.digest_hex "abc" = "900150983cd24fb0d6963f7d28e17f72".
Proof. vm_compute. reflexivity. Qed.

Example md5_of_two_blocks :
  MD5.digest_hex
    "https://www.example.org/articles/2024/solar-panel-recycling-industrial-methods"
  = "135332cef72f7108d301d6ad1762de8b".
Proof. vm_compute. reflexivity. Qed.

(** ** The context budgeter *)

(** The delimiters of a block carry the position as a decimal numeral. *)
Lemma contentBlock_text (i : nat) (body : string) :
  exists numeral,
    isDecimalOf (N.of_nat i) numeral
    /\ contentBlock i body
       = "<content" +:+ numeral +:+ ">" +:+ Js.nl +:+ body +:+ Js.nl
         +:+ "</content" +:+ numeral +:+ ">".
Proof. exists (Js.of_nat i). split; [apply of_nat_decimal|done]. Qed.

Section TokenizerFacts.

Variable encode : string -> Result (list nat).

Local Abbreviation tokens := (estimateTokens encode).

Lemma estimateTokens_nonneg (s : string) (n : Z) : tokens s = Ok n -> 0 <= n.
Proof.
  unfold estimateTokens. destruct (String.eqb s ""); [intros [= <-]; lia|].
  destruct (encode s) as [l|e]; [|discriminate]. intros [= <-]. lia.
Qed.

Lemma wrappedTokens_nonneg (ds : list Item) (start : nat) (n : Z) :
  wrappedTokens encode start ds = Ok n -> 0 <= n.
Proof.
  revert start n. induction ds as [|d ds IH]; intros start n H; simpl in H.
  - injection H as <-. lia.
  - ok_step H a Ea. ok_step H b Eb. injection H as <-.
    apply estimateTokens_nonneg in Ea. apply IH in Eb. lia.
Qed.

Lemma wrappedTokens_snoc (xs : list Item) (d : Item) (start : nat) :
  wrappedTokens encode start (xs ++ [d])
  = (a ← wrappedTokens encode start xs;
     n ← tokens (contentBlock (start + length xs) (text d));
     Ok (a + n)).
Proof.
  revert start. induction xs as [|x xs IH]; intros start; simpl.
  - rewrite Nat.add_0_r. destruct (tokens _) as [n|e]; [|done]. simpl. f_equal. lia.
  - destruct (tokens (contentBlock start (text x))) as [a|e]; [|done]. simpl.
    rewrite IH. replace (S start + length xs)%nat with (start + S (length xs))%nat by lia.
    destruct (wrappedTokens encode (S start) xs) as [b|e]; [|done]. simpl.
    destruct (tokens _) as [n|e]; [|done]. simpl. f_equal. lia.
Qed.

(** The loop of the source accumulates what the greedy walk returns. *)
Lemma truncateLoop_greedyWalk (W : Z) (ds acc : list Item) (total : Z) :
  truncateLoop encode W ds acc total
  = (selection ← greedyWalk encode W (length acc) total ds; Ok (acc ++ selection)).
Proof.
  revert acc total. induction ds as [|d ds IH]; intros acc total; simpl.
  - by rewrite app_nil_r.
  - rewrite Nat.add_1_r.
    destruct (tokens (contentBlock (S (length acc)) (text d))) as [n|e]; [|done].
    simpl. destruct (total + n <=? W); simpl.
    + rewrite IH, length_app. simpl. rewrite Nat.add_1_r.
      destruct (greedyWalk encode W (S (length acc)) (total + n) ds) as [sel|e];
        [|done].
      simpl. by rewrite <- app_assoc.
    + by rewrite app_nil_r.
Qed.

Lemma truncateContentsToFit_budgeterSelect (t : string) (ds : list Item) (W : Z) :
  truncateContentsToFit encode t ds W = budgeterSelect encode t ds W.
Proof.
  unfold truncateContentsToFit, budgeterSelect.
  destruct (tokens t) as [n|e]; [|done]. simpl.
  destruct (Z.leb_spec (W - n) 0), (Z.leb_spec W n); try lia; try done.
  rewrite truncateLoop_greedyWalk. simpl.
  by destruct (greedyWalk encode W 0 n ds).
Qed.

(** What the walk keeps is a prefix, fits when it started within the
    window, and is followed by a document that does not fit. *)
Lemma greedyWalk_prefix (W : Z) (ds sel : list Item) (accepted : nat) (running : Z) :
  greedyWalk encode W accepted running ds = Ok sel ->
  running <= W ->
  exists rest total,
    ds = sel ++ rest
    /\ wrappedTokens encode (S accepted) sel = Ok total
    /\ running + total <= W
    /\ match rest with
       | [] => True
       | d :: _ =>
           exists over,
             wrappedTokens encode (S accepted) (sel ++ [d]) = Ok over
             /\ W < running + over
       end.
Proof.
  revert sel accepted running. induction ds as [|d ds IH];
    intros sel accepted running H Hle; simpl in H.
  - injection H as <-. exists [], 0. simpl. split; [done|]. split; [done|].
    split; [lia|done].
  - ok_step H n En.
    destruct (Z.leb_spec (running + n) W) as [Hfit|Hover].
    + ok_step H sel' Es. injection H as <-.
      destruct (IH _ _ _ Es Hfit) as (rest & total & Hds & Hsum & Hw & Hnext).
      exists rest, (n + total). split; [simpl; by f_equal|].
      split; [simpl; by rewrite En, Hsum|]. split; [lia|].
      destruct rest as [|d' rest']; [done|].
      destruct Hnext as (over & Hover & Hlt). exists (n + over).
      split; [|lia]. simpl. rewrite En. simpl. by rewrite Hover.
    + injection H as <-. exists (d :: ds), 0. split; [done|]. split; [done|].
      split; [lia|]. exists n. split; [|lia]. simpl. rewrite En. simpl.
      f_equal. lia.
Qed.

(** A prefix that fits and whose next document does not is the walk's
    result: the walk is the only greedy selection. *)
Lemma greedyWalk_unique (W : Z) (sel rest : list Item) (accepted : nat)
    (running total : Z) :
  wrappedTokens encode (S accepted) sel = Ok total ->
  running + total <= W ->
  match rest with
  | [] => True
  | d :: _ =>
      exists over,
        wrappedTokens encode (S accepted) (sel ++ [d]) = Ok over
        /\ W < running + over
  end ->
  greedyWalk encode W accepted running (sel ++ rest) = Ok sel.
Proof.
  revert accepted running total.
  induction sel as [|x sel IH]; intros accepted running total Hsum Hfit Hnext.
  - destruct rest as [|d rest']; [done|]. simpl in *.
    destruct Hnext as (over & Hover & Hlt).
    ok_step Hover n En. rewrite En. simpl. injection Hover as <-.
    destruct (Z.leb_spec (running + n) W); [lia|done].
  - simpl in *. ok_step Hsum n En. ok_step Hsum m Em. injection Hsum as <-.
    rewrite En. simpl.
    pose proof (wrappedTokens_nonneg _ _ _ Em).
    destruct (Z.leb_spec (running + n) W); [|lia].
    rewrite (IH (S accepted) (running + n) m); [done|done|lia|].
    destruct rest as [|d rest']; [done|].
    destruct Hnext as (over & Hover & Hlt). rewrite En in Hover. simpl in Hover.
    ok_step Hover o Eo. injection Hover as <-. exists o. split; [done|lia].
Qed.

(** The walk throws where the estimate of a candidate does, when every
    candidate before it was accepted. *)
Lemma greedyWalk_throws (W : Z) (sel : list Item) (d : Item) (rest : list Item)
    (accepted : nat) (running total : Z) (e : Error) :
  wrappedTokens encode (S accepted) sel = Ok total ->
  running + total <= W ->
  tokens (contentBlock (S accepted + length sel) (text d)) = Throw e ->
  greedyWalk encode W accepted running (sel ++ d :: rest) = Throw e.
Proof.
  revert accepted running total.
  induction sel as [|x sel IH]; intros accepted running total Hsum Hfit Hthrow.
  - simpl in *. rewrite Nat.add_0_r in Hthrow. by rewrite Hthrow.
  - simpl in *. ok_step Hsum n En. ok_step Hsum m Em. injection Hsum as <-.
    rewrite En. simpl.
    pose proof (wrappedTokens_nonneg _ _ _ Em).
    destruct (Z.leb_spec (running + n) W); [|lia].
    rewrite (IH (S accepted) (running + n) m); [done|done|lia|].
    by replace (S (S accepted + length sel)) with (S (accepted + S (length sel)))
      by lia.
Qed.

(** C1, as the code has it. The delimiters of a block are
    [<contentN>] and [</contentN>] with the decimal numeral of the
    position. When the tokenizer has an estimate for the template:
    [truncateContentsToFit t ds W] is empty when that estimate meets or
    exceeds [W]; otherwise whatever it returns is a prefix [sel] of
    [ds], each candidate wrapped in the delimiter of its position among
    the accepted ones, whose cumulative estimate (template plus wrapped
    selection) stays within [W], and it stops at the first document that
    would overflow; a prefix with these two properties is what it
    returns, so that when [d1; d2] fit and [d1; d2; d3] do not, the
    result on [d1; d2; d3] is exactly [d1; d2]. When the tokenizer
    throws on the template, or on a wrapped candidate while all before
    it were accepted, the call throws that error. *)
Theorem truncateContentsToFit_greedy_prefix (t : string) (ds : list Item) (W : Z) :
  (forall (i : nat) (body : string),
     exists numeral,
       isDecimalOf (N.of_nat i) numeral
       /\ contentBlock i body
          = "<content" +:+ numeral +:+ ">" +:+ Js.nl +:+ body +:+ Js.nl
            +:+ "</content" +:+ numeral +:+ ">")
  /\ (forall n, tokens t = Ok n -> W <= n ->
        truncateContentsToFit encode t ds W = Ok [])
  /\ (forall sel,
        truncateContentsToFit encode t ds W = Ok sel ->
        exists n rest,
          tokens t = Ok n
          /\ ds = sel ++ rest
          /\ (W <= n -> sel = [])
          /\ (n < W ->
              exists total,
                cumulativeTokens encode t sel = Ok total
                /\ total <= W
                /\ match rest with
                   | [] => True
                   | d :: _ =>
                       exists over,
                         cumulativeTokens encode t (sel ++ [d]) = Ok over
                         /\ W < over
                   end))
  /\ (forall n sel rest total,
        tokens t = Ok n -> n < W ->
        ds = sel ++ rest ->
        cumulativeTokens encode t sel = Ok total -> total <= W ->
        match rest with
        | [] => True
        | d :: _ =>
            exists over,
              cumulativeTokens encode t (sel ++ [d]) = Ok over /\ W < over
        end ->
        truncateContentsToFit encode t ds W = Ok sel)
  /\ (forall (d1 d2 d3 : Item) n fit over,
        tokens t = Ok n -> n < W ->
        ds = [d1; d2; d3] ->
        cumulativeTokens encode t [d1; d2] = Ok fit -> fit <= W ->
        cumulativeTokens encode t [d1; d2; d3] = Ok over -> W < over ->
        truncateContentsToFit encode t ds W = Ok [d1; d2])
  /\ (forall e, tokens t = Throw e -> truncateContentsToFit encode t ds W = Throw e)
  /\ (forall n sel d rest total e,
        tokens t = Ok n -> n < W ->
        ds = sel ++ d :: rest ->
        cumulativeTokens encode t sel = Ok total -> total <= W ->
        tokens (contentBlock (length sel + 1) (text d)) = Throw e ->
        truncateContentsToFit encode t ds W = Throw e).
Proof.
  rewrite truncateContentsToFit_budgeterSelect. unfold budgeterSelect.
  assert (forall n sel rest total,
            tokens t = Ok n -> n < W -> ds = sel ++ rest ->
            cumulativeTokens encode t sel = Ok total -> total <= W ->
            match rest with
            | [] => True
            | d :: _ =>
                exists over,
                  cumulativeTokens encode t (sel ++ [d]) = Ok over /\ W < over
            end ->
            (n ← tokens t; if W <=? n then Ok [] else greedyWalk encode W 0 n ds)
            = Ok sel) as Hunique.
  { intros n sel rest total Hn Hlt -> Hsum Hfit Hnext. rewrite Hn. simpl.
    destruct (Z.leb_spec W n); [lia|].
    unfold cumulativeTokens in *. rewrite Hn in *. simpl in *.
    ok_step Hsum m Em. injection Hsum as <-.
    apply (greedyWalk_unique W sel rest 0 n m); [done|done|].
    destruct rest as [|d rest']; [done|].
    destruct Hnext as (over & Hover & Hgt).
    ok_step Hover o Eo. injection Hover as <-. by exists o. }
  split; [apply contentBlock_text|].
  split; [|split; [|split; [|split; [|split]]]].
  - intros n Hn Hle. rewrite Hn. simpl. destruct (Z.leb_spec W n); [done|lia].
  - intros sel H. ok_step H n En. exists n.
    destruct (Z.leb_spec W n) as [Hle|Hlt].
    + injection H as <-. exists ds. split; [done|]. split; [done|].
      split; [done|lia].
    + destruct (greedyWalk_prefix W ds sel 0 n H) as (rest & total & Hds & Hsum & Hw & Hnext);
        [lia|].
      exists rest. split; [done|]. split; [done|]. split; [lia|]. intros _.
      exists (n + total). unfold cumulativeTokens. rewrite En. simpl.
      rewrite Hsum. simpl. split; [done|]. split; [lia|].
      destruct rest as [|d rest']; [done|].
      destruct Hnext as (over & Hover & Hgt). exists (n + over).
      rewrite Hover. simpl. split; [done|lia].
  - exact Hunique.
  - intros d1 d2 d3 n fit over Hn Hlt -> Hfit Hle Hover Hgt.
    apply (Hunique n [d1; d2] [d3] fit); try done. by exists over.
  - intros e He. by rewrite He.
  - intros n sel d rest total e Hn Hlt -> Hsum Hfit Hthrow. rewrite Hn. simpl.
    destruct (Z.leb_spec W n); [lia|].
    unfold cumulativeTokens in Hsum. rewrite Hn in Hsum. simpl in Hsum.
    ok_step Hsum m Em. injection Hsum as <-.
    apply (greedyWalk_throws W sel d rest 0 n m); [done|lia|].
    by rewrite Nat.add_1_r in Hthrow.
Qed.

End TokenizerFacts.

Lemma truncateContentsToFit_greedy_prefix_witness :
  truncateContentsToFit unitTokens "hello" [docA; docB; docC] 5 = Ok []
  /\ truncateContentsToFit unitTokens "hello" [docA; docB; docC] 60
     = Ok [docA; docB]
  /\ truncateContentsToFit strictTokens "hello" [docA; docT; docB] 1000
     = Throw (TokenizerError "<|endoftext|>").
Proof.
  split; [|split].
  - apply (proj1 (proj2 (truncateContentsToFit_greedy_prefix unitTokens "hello"
                           [docA; docB; docC] 5)) 5).
    + reflexivity.
    + lia.
  - apply (proj1 (proj2 (proj2 (proj2 (proj2
             (truncateContentsToFit_greedy_prefix unitTokens "hello"
                [docA; docB; docC] 60)))))
             docA docB docC 5 59 86); try reflexivity; lia.
  - apply (proj2 (proj2 (proj2 (proj2 (proj2 (proj2
             (truncateContentsToFit_greedy_prefix strictTokens "hello"
                [docA; docT; docB] 1000))))))
             5 [docA] docT [docB] 32); try reflexivity; lia.
Defined.

(** A page that quotes a special token ends the budgeting with the
    tokenizer's error instead of a selection, although the template and
    the page before it fit the window. *)
Lemma special_token_document_throws :
  estimateTokens strictTokens "hello" = Ok 5
  /\ cumulativeTokens strictTokens "hello" [docA] = Ok 32
  /\ truncateContentsToFit strictTokens "hello" [docA; docT; docB] 1000
     = Throw (TokenizerError "<|endoftext|>")
  /\ ~ (exists sel,
          truncateContentsToFit strictTokens "hello" [docA; docT; docB] 1000
          = Ok sel).
Proof.
  split; [vm_compute; reflexivity|]. split; [vm_compute; reflexivity|].
  split; [vm_compute; reflexivity|].
  intros [sel H]. vm_compute in H. discriminate H.
Qed.

(** ** Numbers of the model's answer *)

Lemma isInteger_wholeNumber (x : Q) : Js.isInteger x = true <-> wholeNumber x.
Proof.
  unfold Js.isInteger, wholeNumber. rewrite Z.eqb_eq. split.
  - intros H. exists (Qnum x / Z.pos (Qden x)). unfold Qeq. simpl.
    pose proof (Z.div_mod (Qnum x) (Z.pos (Qden x))). lia.
  - intros [z Hz]. unfold Qeq in Hz. simpl in Hz. rewrite Z.mul_1_r in Hz.
    rewrite Hz. apply Z.mod_mul. lia.
Qed.

Lemma wholeNumber_pred (x : Q) : wholeNumber (x - 1)%Q <-> wholeNumber x.
Proof.
  unfold wholeNumber. split; intros [z Hz].
  - exists (z + 1). rewrite inject_Z_plus, <- Hz. change (inject_Z 1) with 1%Q. ring.
  - exists (z - 1). unfold Z.sub. rewrite inject_Z_plus, Hz.
    change (inject_Z (- (1))) with (- (1))%Q. ring.
Qed.

Lemma guard_withinList (n : nat) (x : Q) :
  Js.geb (x - 1)%Q 0 && Js.ltb (x - 1)%Q (inject_Z (Z.of_nat n)) = withinList n x.
Proof.
  unfold Js.geb, Js.ltb, withinList. f_equal; [|f_equal].
  - apply eq_true_iff_eq. rewrite !Qle_bool_iff. split; intros H; lra.
  - apply eq_true_iff_eq. rewrite !Qle_bool_iff. split; intros H; lra.
Qed.

Lemma withinList_whole (n : nat) (z : Z) :
  withinList n (inject_Z z) = inRange n z.
Proof.
  unfold withinList, inRange. f_equal; [|].
  - apply eq_true_iff_eq. rewrite Qle_bool_iff, Z.leb_le.
    change 1%Q with (inject_Z 1). by rewrite <- Zle_Qle.
  - apply eq_true_iff_eq. rewrite negb_true_iff, Z.leb_le.
    rewrite <- not_true_iff_false, Qle_bool_iff.
    change 1%Q with (inject_Z 1). rewrite <- inject_Z_plus, <- Zle_Qle. lia.
Qed.

Lemma at_number_whole {A} (l : list A) (z : Z) :
  Js.at_number l (inject_Z z - 1)%Q = l !! Z.to_nat (z - 1).
Proof.
  unfold Js.at_number, Js.isInteger, Js.toInteger. cbn.
  rewrite Z.mod_1_r, Z.div_1_r. cbn. do 2 f_equal. lia.
Qed.

(** ** The reference ledger *)

Lemma includes_true (u : string) (l : list string) :
  includes u l = true <-> In u l.
Proof.
  unfold includes. rewrite existsb_exists. split.
  - intros (x & Hin & Heq). apply String.eqb_eq in Heq. by subst.
  - intros Hin. exists u. split; [done|]. apply String.eqb_refl.
Qed.

Lemma includes_false (u : string) (l : list string) :
  includes u l = false <-> ~ In u l.
Proof.
  rewrite <- includes_true. destruct (includes u l); split; try done.
Qed.

Lemma includes_app (u : string) (l l' : list string) :
  includes u (l ++ l') = includes u l || includes u l'.
Proof. unfold includes. apply existsb_app. Qed.


Lemma indexOf_from_fresh (i : Z) (u : string) (l : list string) :
  includes u l = false ->
  indexOf_from i u (l ++ [u]) = i + Z.of_nat (length l).
Proof.
  revert i. induction l as [|x l IH]; intros i Hout; simpl in *.
  - rewrite String.eqb_refl. lia.
  - rewrite String.eqb_sym. destruct (String.eqb u x); [discriminate|].
    rewrite IH by done. lia.
Qed.

Lemma indexOf_from_bounds (i : Z) (u : string) (l : list string) :
  includes u l = true ->
  i <= indexOf_from i u l < i + Z.of_nat (length l).
Proof.
  revert i. induction l as [|x l IH]; intros i Hin; [discriminate|].
  simpl in *. rewrite String.eqb_sym.
  destruct (String.eqb u x); [lia|]. specialize (IH (i + 1) Hin). lia.
Qed.

Lemma citeOrGetIndex_first (used : list string) (u : string) :
  includes u used = false ->
  citeOrGetIndex used u = (used ++ [u], Z.of_nat (length used) + 1).
Proof.
  intros Hout. unfold citeOrGetIndex, indexOf. rewrite Hout.
  rewrite indexOf_from_fresh by done. f_equal.
Qed.

Lemma citeOrGetIndex_again (used : list string) (u : string) :
  includes u used = true ->
  citeOrGetIndex used u = (used, indexOf u used + 1).
Proof. intros Hin. unfold citeOrGetIndex. by rewrite Hin. Qed.

Lemma citeOrGetIndex_includes (used : list string) (u : string) :
  includes u (fst (citeOrGetIndex used u)) = true.
Proof.
  unfold citeOrGetIndex. simpl. destruct (includes u used) eqn:E; [done|].
  rewrite includes_app. simpl. rewrite String.eqb_refl. by rewrite orb_true_r.
Qed.


Lemma citeOrGetIndex_prefix (used : list string) (u : string) :
  used `prefix_of` fst (citeOrGetIndex used u).
Proof.
  unfold citeOrGetIndex. simpl. destruct (includes u used); [done|].
  by apply prefix_app_r.
Qed.

Lemma citeOrGetIndex_NoDup (used : list string) (u : string) :
  NoDup used -> NoDup (fst (citeOrGetIndex used u)).
Proof.
  intros Hnd. unfold citeOrGetIndex. simpl.
  destruct (includes u used) eqn:E; [done|].
  apply NoDup_app. split; [done|]. split; [|apply NoDup_singleton].
  intros x Hx Hu. apply list_elem_of_singleton in Hu. subst x.
  apply includes_false in E. apply E. by apply list_elem_of_In.
Qed.

Lemma grows_refl (used : list string) : grows used used.
Proof. by split. Qed.

Lemma grows_trans (a b c : list string) : grows a b -> grows b c -> grows a c.
Proof.
  intros [Hab Nab] [Hbc Nbc]. split; [by etrans|]. intros H. by apply Nbc, Nab.
Qed.

(** The callback of the reference map, by the place of the number. *)
Lemma resolveReference_guard (T : list Item) (used : list string) (x : Q) :
  resolveReference T used x
  = if withinList (length T) x then
      match Js.at_number T (x - 1)%Q with
      | Some c =>
          Ok (fst (citeOrGetIndex used (url c)),
              Some (renderMarker (snd (citeOrGetIndex used (url c))) (url c)))
      | None => Throw (TypeError "truncatedContents[contentIndex].url")
      end
    else Ok (used, None).
Proof.
  unfold resolveReference. rewrite guard_withinList.
  destruct (withinList (length T) x); [|done].
  destruct (Js.at_number T (x - 1)%Q) as [c|]; [|done].
  by destruct (citeOrGetIndex used (url c)).
Qed.

(** What a reference that resolved has done. *)
Lemma resolveReference_Ok (T : list Item) (used used' : list string) (x : Q)
    (m : option string) :
  resolveReference T used x = Ok (used', m) ->
  (withinList (length T) x = false /\ used' = used /\ m = None)
  \/ exists c,
       withinList (length T) x = true
       /\ Js.at_number T (x - 1)%Q = Some c
       /\ used' = fst (citeOrGetIndex used (url c))
       /\ m = Some (renderMarker (snd (citeOrGetIndex used (url c))) (url c)).
Proof.
  rewrite resolveReference_guard. destruct (withinList (length T) x).
  - destruct (Js.at_number T (x - 1)%Q) as [c|]; [|discriminate].
    intros [= <- <-]. right. by exists c.
  - intros [= <- <-]. by left.
Qed.

Lemma at_number_In {A} (l : list A) (x : Q) (a : A) :
  Js.at_number l x = Some a -> In a l.
Proof.
  unfold Js.at_number. destruct (Js.isInteger x); [|discriminate].
  intros H. apply list_elem_of_In. by eapply list_elem_of_lookup_2.
Qed.

Lemma resolveReference_grows (T : list Item) (used used' : list string) (x : Q)
    (m : option string) :
  resolveReference T used x = Ok (used', m) -> grows used used'.
Proof.
  intros H. apply resolveReference_Ok in H as [(_ & -> & _)|(c & _ & _ & -> & _)].
  - apply grows_refl.
  - split; [apply citeOrGetIndex_prefix|apply citeOrGetIndex_NoDup].
Qed.

Lemma resolveReferences_grows (T : list Item) (refNums : list Q)
    (used used' : list string) (ms : list (option string)) :
  resolveReferences T used refNums = Ok (used', ms) -> grows used used'.
Proof.
  revert used used' ms. induction refNums as [|n rest IH]; intros used used' ms H;
    simpl in H.
  - injection H as <- <-. apply grows_refl.
  - ok_step H r1 E1. destruct r1 as [used1 m]. ok_step H r2 E2.
    destruct r2 as [used2 ms2]. injection H as <- <-.
    eapply grows_trans; [by eapply resolveReference_grows|by eapply IH].
Qed.

Lemma processParagraph_grows (T : list Item) (used used' : list string)
    (para : Paragraph) (t : string) :
  processParagraph T used para = Ok (used', t) -> grows used used'.
Proof.
  unfold processParagraph. intros H. ok_step H r E. destruct r as [used1 ms].
  injection H as <- <-. by eapply resolveReferences_grows.
Qed.

Lemma processParagraphs_grows (T : list Item) (paras : list Paragraph)
    (used used' : list string) (ts : list string) :
  processParagraphs T used paras = Ok (used', ts) -> grows used used'.
Proof.
  revert used used' ts. induction paras as [|p rest IH]; intros used used' ts H;
    simpl in H.
  - injection H as <- <-. apply grows_refl.
  - ok_step H r1 E1. destruct r1 as [used1 t]. ok_step H r2 E2.
    destruct r2 as [used2 ts2]. injection H as <- <-.
    eapply grows_trans; [by eapply processParagraph_grows|by eapply IH].
Qed.


Section LedgerFacts.

Variable encode : string -> Result (list nat).
Variable generateObject : nat -> string -> Result ChapterContentObject.

(** The steps of a chapter-body call that returned. *)
Lemma generateChapterContent_inv (R R' : Research) (call : nat)
    (subject : string) (chapter : Chapter) (chapters : list Chapter)
    (contents : list Item) (previous : string) (body : ChapterBody) :
  generateChapterContent encode generateObject R call subject chapter chapters
    contents previous = Ok (R', body) ->
  let base := basePrompt (locale (config R)) subject chapter chapters previous in
  exists W T object used texts,
    modelContextWindow R = Ok W
    /\ truncateContentsToFit encode base contents W = Ok T
    /\ generateObject call (base +:+ Js.nl +:+ Js.nl +:+ contentsText T) = Ok object
    /\ processParagraphs T (usedReferences R) (paragraphs object) = Ok (used, texts)
    /\ R' = mkResearch (config R) (cache R) (references R) used
    /\ body = mkBody (summary object) (Js.join (Js.nl +:+ Js.nl) texts)
                (base +:+ Js.nl +:+ Js.nl +:+ contentsText T).
Proof.
  intros H base. unfold generateChapterContent in H. fold base in H.
  ok_step H W EW. ok_step H T ET. ok_step H object Eo. ok_step H r Ep.
  destruct r as [used texts]. injection H as <- <-.
  by exists W, T, object, used, texts.
Qed.

Lemma generateChapterContent_grows (R R' : Research) (call : nat)
    (subject : string) (chapter : Chapter) (chapters : list Chapter)
    (contents : list Item) (previous : string) (body : ChapterBody) :
  generateChapterContent encode generateObject R call subject chapter chapters
    contents previous = Ok (R', body) ->
  grows (usedReferences R) (usedReferences R')
  /\ config R' = config R /\ cache R' = cache R /\ references R' = references R.
Proof.
  intros H.
  apply generateChapterContent_inv in H as (W & T & object & used & texts & _ & _ & _ & Hp & -> & _).
  split; [|done]. by eapply processParagraphs_grows.
Qed.

Lemma chapterLoop_grows (subject : string) (chapters : list Chapter)
    (contents : list Item) (todo : list Chapter) (st st' : LoopState) :
  chapterLoop encode generateObject subject chapters contents todo st = Ok st' ->
  grows (usedReferences (research st)) (usedReferences (research st'))
  /\ references (research st') = references (research st).
Proof.
  revert st. induction todo as [|chapter rest IH]; intros st H; simpl in H.
  - inversion H; subst. split; [apply grows_refl|done].
  - destruct (generateChapterContent _ _ _ _ _ _ _ _ _) as [[R body]|e] eqn:E;
      [|discriminate].
    simpl in H. apply IH in H. simpl in H.
    apply generateChapterContent_grows in E as (Hg & _ & _ & Hrefs).
    destruct H as [Hg' Hrefs']. split; [by eapply grows_trans|congruence].
Qed.


End LedgerFacts.


(** ** Reference numbers of a chapter-body answer *)

Lemma citeOrGetIndex_positive (used : list string) (u : string) :
  1 <= snd (citeOrGetIndex used u)
       <= Z.of_nat (length (fst (citeOrGetIndex used u))).
Proof.
  pose proof (citeOrGetIndex_includes used u) as Hin.
  unfold citeOrGetIndex, indexOf in *. cbn [fst snd] in *.
  pose proof (indexOf_from_bounds 0 u _ Hin). lia.
Qed.

(** The marker is the index, as a decimal numeral in brackets and
    parentheses, on the URL in parentheses. *)
Lemma renderMarker_text (i : Z) (u : string) :
  0 <= i -> markerText (Z.to_N i) u (renderMarker i u).
Proof. intros Hi. exists (Js.of_Z i). split; [by apply of_Z_decimal|done]. Qed.

Lemma resolveReference_out_of_range (T : list Item) (used : list string) (z : Z) :
  inRange (length T) z = false ->
  resolveReference T used (inject_Z z) = Ok (used, None).
Proof. intros H. by rewrite resolveReference_guard, withinList_whole, H. Qed.

Lemma resolveReference_in_range (T : list Item) (used : list string) (z : Z) :
  inRange (length T) z = true ->
  exists c,
    T !! Z.to_nat (z - 1) = Some c
    /\ resolveReference T used (inject_Z z)
       = Ok (fst (citeOrGetIndex used (url c)),
             Some (renderMarker (snd (citeOrGetIndex used (url c))) (url c))).
Proof.
  intros H. rewrite resolveReference_guard, withinList_whole, H, at_number_whole.
  unfold inRange in H. apply andb_true_iff in H as [H1 H2].
  apply Z.leb_le in H1, H2.
  destruct (lookup_lt_is_Some_2 T (Z.to_nat (z - 1))) as [c Hc]; [lia|].
  exists c. by rewrite Hc.
Qed.

(** A number that is let through without being an index reads nothing
    from the array, and the call throws. *)
Lemma resolveReference_fraction (T : list Item) (used : list string) (x : Q) :
  withinList (length T) x = true ->
  ~ wholeNumber x ->
  resolveReference T used x = Throw (TypeError "truncatedContents[contentIndex].url").
Proof.
  intros Hin Hfrac. rewrite resolveReference_guard, Hin.
  unfold Js.at_number. destruct (Js.isInteger (x - 1)%Q) eqn:E; [|done].
  destruct Hfrac. by apply wholeNumber_pred, isInteger_wholeNumber.
Qed.

Lemma filterBoolean_Some (markers : list string) :
  filterBoolean (map Some markers) = markers.
Proof. unfold filterBoolean. induction markers; simpl; [done|]. by f_equal. Qed.

(** The numbers that the guard holds back can be struck out beforehand:
    ledger and markers come out the same, and every number that is left
    has its marker. *)
Lemma resolveReferences_within_only (T : list Item) (refNums : list Q)
    (used used' : list string) (ms : list (option string)) :
  resolveReferences T used refNums = Ok (used', ms) ->
  resolveReferences T used (List.filter (withinList (length T)) refNums)
  = Ok (used', map Some (filterBoolean ms)).
Proof.
  revert used used' ms. induction refNums as [|n rest IH]; intros used used' ms H;
    simpl in H.
  - by injection H as <- <-.
  - ok_step H r1 E1. destruct r1 as [used1 m]. ok_step H r2 E2.
    destruct r2 as [used2 ms2]. injection H as <- <-. simpl.
    apply IH in E2.
    destruct (resolveReference_Ok _ _ _ _ _ E1) as [(Hout & -> & ->)|(c & Hin & _ & _ & ->)].
    + by rewrite Hout.
    + rewrite Hin. simpl. rewrite E1. simpl. by rewrite E2.
Qed.

(** C7, where the code departs from it. A reference number is any
    number. A whole number outside 1..[length T] yields no marker and
    leaves the ledger as it is, and one inside resolves to its document,
    whose URL goes through the ledger and comes back as a marker. A
    number that is not whole and lies between 1 and [length T + 1] is
    let through by the guard, reads [undefined] from the list, and the
    chapter-body call throws: so does the reference 2.5 with two
    documents, which is above the length of the list, and the reference
    1.5. *)
Theorem fractional_reference_throws :
  resolveReference [docA; docB] [] 2.5%Q
  = Throw (TypeError "truncatedContents[contentIndex].url")
  /\ resolveReference [docA; docB] [] 1.5%Q
     = Throw (TypeError "truncatedContents[contentIndex].url")
  /\ generateChapterContent unitTokens fractionalModel (newResearch sampleConfig) 0
       "solar panel recycling" (mkChapter 1 "Collection")
       [mkChapter 1 "Collection"] [docA; docB] ""
     = Throw (TypeError "truncatedContents[contentIndex].url")
  /\ processParagraph [docA; docB] []
       (mkParagraph "Body." [0%Q; 3%Q; 2%Q; (-1)%Q; 7%Q; 3.5%Q; 0.5%Q])
     = Ok (["http://b.example/panel"], "Body. [(1)](http://b.example/panel)")
  /\ (forall (T : list Item) (used : list string) (x : Q),
        withinList (length T) x = true ->
        ~ wholeNumber x ->
        resolveReference T used x
        = Throw (TypeError "truncatedContents[contentIndex].url"))
  /\ (forall (T : list Item) (used : list string) (x : Q),
        withinList (length T) x = false ->
        resolveReference T used x = Ok (used, None))
  /\ (forall (T : list Item) (used : list string) (z : Z),
        inRange (length T) z = false ->
        resolveReference T used (inject_Z z) = Ok (used, None))
  /\ (forall (T : list Item) (used : list string) (z : Z),
        inRange (length T) z = true ->
        exists c marker,
          T !! Z.to_nat (z - 1) = Some c
          /\ resolveReference T used (inject_Z z)
             = Ok (fst (citeOrGetIndex used (url c)), Some marker)
          /\ markerText (Z.to_N (snd (citeOrGetIndex used (url c)))) (url c)
               marker).
Proof.
  split; [vm_compute; reflexivity|]. split; [vm_compute; reflexivity|].
  split; [vm_compute; reflexivity|]. split; [vm_compute; reflexivity|].
  split; [exact resolveReference_fraction|].
  split; [intros T used x H; by rewrite resolveReference_guard, H|].
  split; [exact resolveReference_out_of_range|].
  intros T used z H. destruct (resolveReference_in_range T used z H) as (c & Hc & Hr).
  exists c, (renderMarker (snd (citeOrGetIndex used (url c))) (url c)).
  split; [done|]. split; [done|]. apply renderMarker_text.
  pose proof (citeOrGetIndex_positive used (url c)). lia.
Qed.

Lemma fractional_reference_throws_witness :
  resolveReference [docA; docB; docC] [url docA] 3.5%Q
  = Throw (TypeError "truncatedContents[contentIndex].url").
Proof.
  apply (proj1 (proj2 (proj2 (proj2 (proj2 fractional_reference_throws))))).
  - reflexivity.
  - intros [z Hz]. unfold Qeq in Hz. simpl in Hz. lia.
Defined.

(** ** The chapter loop *)

Lemma prefix_append (s a : string) : String.prefix s (s +:+ a) = true.
Proof.
  induction s as [|x s IH]; [by destruct a|].
  rewrite append_cons. simpl. destruct (ascii_dec x x); [done|congruence].
Qed.

Lemma containsb_prefix (s t : string) :
  String.prefix s t = true -> containsb s t = true.
Proof. intros H. destruct t; cbn [containsb]; by rewrite H. Qed.

Lemma occursIn_containsb (s t : string) : occursIn s t -> containsb s t = true.
Proof.
  intros (before & after & ->). induction before as [|x before IH].
  - change ("" +:+ s +:+ after) with (s +:+ after).
    apply containsb_prefix, prefix_append.
  - rewrite append_cons. cbn [containsb]. rewrite IH. apply orb_true_r.
Qed.

Lemma occursIn_here (s after : string) : occursIn s (s +:+ after).
Proof. by exists "", after. Qed.

Lemma occursIn_append_r (s before t : string) :
  occursIn s t -> occursIn s (before +:+ t).
Proof.
  intros (b & a & ->). exists (before +:+ b), a. by rewrite append_assoc.
Qed.

Lemma occursIn_append_l (s t after : string) :
  occursIn s t -> occursIn s (t +:+ after).
Proof.
  intros (b & a & ->). exists b, (a +:+ after). by rewrite !append_assoc.
Qed.

Lemma occursIn_trans (a b c : string) : occursIn a b -> occursIn b c -> occursIn a c.
Proof.
  intros (b1 & a1 & ->) (b2 & a2 & ->). exists (b2 +:+ b1), (a1 +:+ a2).
  by rewrite !append_assoc.
Qed.

Lemma occursIn_concatTexts (c : ChapterContent) (cs : list ChapterContent) :
  In c cs -> occursIn (cc_content c) (concatTexts cs).
Proof.
  induction cs as [|x cs IH]; [done|]. intros [->|Hin]; cbn [concatTexts].
  - apply occursIn_here.
  - by apply occursIn_append_r, IH.
Qed.

Lemma concatTexts_app (xs ys : list ChapterContent) :
  concatTexts (xs ++ ys) = concatTexts xs +:+ concatTexts ys.
Proof.
  induction xs as [|x xs IH]; simpl; [done|]. by rewrite IH, append_assoc.
Qed.

Lemma modelContextWindow_config (R R' : Research) :
  config R' = config R -> modelContextWindow R' = modelContextWindow R.
Proof.
  intros H. unfold modelContextWindow, getProviderKey. by rewrite H.
Qed.

Section ChapterLoopFacts.

Variable encode : string -> Result (list nat).
Variable generateObject : nat -> string -> Result ChapterContentObject.

(** The previous text sits verbatim in the prompt of the call. *)
Lemma generateChapterContent_prompt (R R' : Research) (call : nat)
    (subject : string) (chapter : Chapter) (chapters : list Chapter)
    (contents : list Item) (previous : string) (body : ChapterBody) :
  generateChapterContent encode generateObject R call subject chapter chapters
    contents previous = Ok (R', body) ->
  occursIn previous (body_prompt body).
Proof.
  intros H.
  apply generateChapterContent_inv in H as (W & T & object & used & texts & _ & _ & _ & _ & _ & ->).
  cbn [body_prompt].
  apply occursIn_append_l. unfold basePrompt.
  repeat first [apply occursIn_here | apply occursIn_append_r].
Qed.

(** With an estimate for the template and for every document, the
    budgeter returns. *)
Lemma greedyWalk_returns (W : Z) (ds : list Item) (accepted : nat) (running : Z) :
  (forall i c, ds !! i = Some c ->
               accepts encode (contentBlock (accepted + i + 1) (text c))) ->
  exists sel, greedyWalk encode W accepted running ds = Ok sel.
Proof.
  revert accepted running.
  induction ds as [|d ds IH]; intros accepted running Hall; [by eexists|]. simpl.
  assert (forall i c, ds !! i = Some c ->
            accepts encode (contentBlock (S accepted + i + 1) (text c))) as Hrest.
  { intros i c Hi. replace (S accepted + i + 1)%nat with (accepted + S i + 1)%nat
      by lia. by apply Hall. }
  unfold estimateTokens. destruct (String.eqb _ ""); simpl.
  - destruct (running + 0 <=? W); [|by eexists].
    destruct (IH (S accepted) (running + 0) Hrest) as [sel ->]. by eexists.
  - destruct (Hall 0%nat d eq_refl) as [tokens Htokens].
    replace (accepted + 0 + 1)%nat with (S accepted) in Htokens by lia.
    rewrite Htokens. simpl.
    destruct (running + _ <=? W); [|by eexists].
    destruct (IH (S accepted) (running + Z.of_nat (length tokens)) Hrest)
      as [sel ->].
    by eexists.
Qed.

Lemma truncateContentsToFit_returns (t : string) (ds : list Item) (W : Z) :
  accepts encode t -> blocksAccepted encode ds ->
  exists T, truncateContentsToFit encode t ds W = Ok T.
Proof.
  intros [tokens Ht] Hall. rewrite truncateContentsToFit_budgeterSelect.
  unfold budgeterSelect, estimateTokens.
  destruct (String.eqb t ""); simpl.
  - destruct (W <=? 0); [by eexists|]. by apply greedyWalk_returns.
  - rewrite Ht. simpl.
    destruct (W <=? _); [by eexists|]. by apply greedyWalk_returns.
Qed.

(** A whole number that the guard lets through is an index of the
    list. *)
Lemma at_number_within {A} (T : list A) (x : Q) :
  withinList (length T) x = true -> wholeNumber x ->
  exists c, Js.at_number T (x - 1)%Q = Some c.
Proof.
  intros Hin [z Hz].
  assert (withinList (length T) (inject_Z z) = true) as Hinz.
  { unfold withinList in *. by rewrite <- Hz. }
  rewrite withinList_whole in Hinz. unfold inRange in Hinz.
  apply andb_true_iff in Hinz as [H1 H2]. apply Z.leb_le in H1, H2.
  assert (x - 1 == inject_Z (z - 1))%Q as Hpred.
  { unfold Z.sub. rewrite inject_Z_plus, Hz.
    change (inject_Z (- (1))) with (- (1))%Q. ring. }
  unfold Js.at_number.
  assert (Js.isInteger (x - 1)%Q = true) as ->
    by (apply isInteger_wholeNumber; by exists (z - 1)).
  assert (Js.toInteger (x - 1)%Q = z - 1) as ->.
  { unfold Js.toInteger. unfold Qeq in Hpred.
    change (Qnum (x - 1) * 1 = (z - 1) * QDen (x - 1)) in Hpred.
    rewrite Z.mul_1_r in Hpred. rewrite Hpred. apply Z.div_mul. lia. }
  apply lookup_lt_is_Some_2. lia.
Qed.

Lemma resolveReferences_returns (T : list Item) (refNums : list Q)
    (used : list string) :
  (forall x, In x refNums -> withinList (length T) x = true -> wholeNumber x) ->
  exists r, resolveReferences T used refNums = Ok r.
Proof.
  revert used. induction refNums as [|x rest IH]; intros used Hall; [by eexists|].
  simpl. rewrite resolveReference_guard.
  assert (forall y, In y rest -> withinList (length T) y = true -> wholeNumber y)
    as Hrest by (intros y Hy; apply Hall; by right).
  destruct (withinList (length T) x) eqn:Hin; simpl.
  - destruct (at_number_within T x Hin) as [c ->]; [apply Hall; [by left|done]|].
    simpl.
    match goal with |- context [resolveReferences T ?u rest] =>
      destruct (IH u Hrest) as [[used' ms] ->] end.
    by eexists.
  - destruct (IH used Hrest) as [[used' ms] ->]. by eexists.
Qed.

Lemma processParagraphs_returns (T : list Item) (paras : list Paragraph)
    (used : list string) :
  (forall para x, In para paras -> In x (p_references para) ->
                  withinList (length T) x = true -> wholeNumber x) ->
  exists r, processParagraphs T used paras = Ok r.
Proof.
  revert used. induction paras as [|p rest IH]; intros used Hall; [by eexists|].
  simpl. unfold processParagraph.
  destruct (resolveReferences_returns T (p_references p) used) as [[used1 ms] ->].
  { intros x Hx. apply (Hall p); [by left|done]. }
  simpl.
  destruct (IH used1) as [[used2 ts] ->]; [|by eexists].
  intros para x Hp Hx. apply (Hall para); [by right|done].
Qed.

Lemma generateChapterContent_returns (R : Research) (call : nat)
    (subject : string) (chapter : Chapter) (chapters : list Chapter)
    (contents : list Item) (previous : string) (W : Z) :
  modelContextWindow R = Ok W ->
  accepts encode (basePrompt (locale (config R)) subject chapter chapters previous) ->
  blocksAccepted encode contents ->
  (forall n p, exists object,
     generateObject n p = Ok object /\ wholeReferences object) ->
  exists R' body,
    generateChapterContent encode generateObject R call subject chapter chapters
      contents previous = Ok (R', body).
Proof.
  intros HW Hbase Hblocks Hllm. unfold generateChapterContent. rewrite HW. simpl.
  match goal with |- context [truncateContentsToFit encode ?t ?ds ?w] =>
    destruct (truncateContentsToFit_returns t ds w Hbase Hblocks) as [T ->] end.
  simpl.
  match goal with |- context [generateObject ?n ?p] =>
    destruct (Hllm n p) as (object & -> & Hwhole) end.
  simpl.
  destruct (processParagraphs_returns T (paragraphs object) (usedReferences R))
    as [[used texts] ->]; [intros para x Hp Hx _; by apply (Hwhole para)|].
  by eexists _, _.
Qed.

(** What the loop adds to its state while it works through [todo]. *)
Lemma chapterLoop_trace (subject : string) (chapters : list Chapter)
    (contents : list Item) (todo : list Chapter) (st st' : LoopState) :
  chapterLoop encode generateObject subject chapters contents todo st = Ok st' ->
  exists newCalls newContents,
    calls st' = calls st ++ newCalls
    /\ chapterContents st' = chapterContents st ++ newContents
    /\ map fst newCalls = map number todo
    /\ map cc_number newContents = map number todo
    /\ previousText st' = previousText st +:+ concatTexts newContents
    /\ forall k n prompt,
         newCalls !! k = Some (n, prompt) ->
         occursIn (previousText st +:+ concatTexts (take k newContents)) prompt.
Proof.
  revert st. induction todo as [|chapter rest IH]; intros st H; simpl in H.
  - inversion H; subst. exists [], []. rewrite !app_nil_r, append_empty_r.
    repeat split; try done.
  - destruct (generateChapterContent _ _ _ _ _ _ _ _ _) as [[R body]|e] eqn:E;
      [|discriminate].
    simpl in H. apply IH in H as (cs & ccs & Hc & Hcc & Hn & Hnn & Hp & Hocc).
    simpl in *. apply generateChapterContent_prompt in E.
    exists ((number chapter, body_prompt body) :: cs),
           (mkChapterContent (number chapter) (title chapter)
              (body_text body) (body_summary body) :: ccs).
    rewrite Hc, Hcc, Hp, <- !app_assoc. simpl.
    repeat split; try done; try (by f_equal).
    + by rewrite append_assoc.
    + intros [|k] n prompt Hk; simpl in *.
      * inversion Hk; subst. by rewrite append_empty_r.
      * rewrite <- append_assoc. by apply (Hocc k n).
Qed.

Lemma chapterLoop_returns (subject : string) (chapters : list Chapter)
    (contents : list Item) (todo : list Chapter) (st : LoopState) (W : Z) :
  modelContextWindow (research st) = Ok W ->
  blocksAccepted encode contents ->
  (forall n p, exists object,
     generateObject n p = Ok object /\ wholeReferences object) ->
  (forall before chapter after st1,
     todo = before ++ chapter :: after ->
     chapterLoop encode generateObject subject chapters contents before st = Ok st1 ->
     accepts encode
       (basePrompt (locale (config (research st))) subject chapter chapters
          (previousText st1))) ->
  exists st',
    chapterLoop encode generateObject subject chapters contents todo st = Ok st'.
Proof.
  intros HW Hblocks Hllm. revert st HW.
  induction todo as [|chapter rest IH]; intros st HW Hbase.
  - by exists st.
  - simpl.
    destruct (generateChapterContent_returns (research st) (length (calls st))
                subject chapter chapters contents (previousText st) W HW
                (Hbase [] chapter rest st eq_refl eq_refl) Hblocks Hllm)
      as (R' & body & E).
    rewrite E. simpl.
    pose proof E as Hg. apply generateChapterContent_grows in Hg as (_ & Hcfg & _).
    apply IH.
    + simpl. by rewrite (modelContextWindow_config _ _ Hcfg).
    + intros before next after st1 Hsplit Hrun. cbn [research]. rewrite Hcfg.
      apply (Hbase (chapter :: before) next after st1); [by rewrite Hsplit|].
      simpl. by rewrite E.
Qed.

(** C3, as the code has it. The chapter bodies are generated in the
    order in which the outline lists the chapters, whatever their
    numbers (the loop does not sort); the prompt of each call contains
    the full text of all chapters generated before it; for an outline
    whose numbers ascend, the bodies are generated in ascending order;
    and the loop returns whenever the tokenizer has an estimate for
    every document of the corpus and for the instructions of every call
    of the run, and the model answers every call with whole reference
    numbers. *)
Theorem chapters_generated_in_outline_order (R : Research) (subject : string)
    (chapters : list Chapter) (contents : list Item) :
  (forall st,
     generateChapterContents encode generateObject R subject chapters contents
     = Ok st ->
     map fst (calls st) = map number chapters
     /\ map cc_number (chapterContents st) = map number chapters
     /\ (forall k n prompt,
           calls st !! k = Some (n, prompt) ->
           occursIn (concatTexts (take k (chapterContents st))) prompt
           /\ forall j c,
                (j < k)%nat ->
                chapterContents st !! j = Some c ->
                occursIn (cc_content c) prompt)
     /\ (StronglySorted Z.lt (map number chapters) ->
         StronglySorted Z.lt (map fst (calls st))))
  /\ (forall W,
        modelContextWindow R = Ok W ->
        blocksAccepted encode contents ->
        (forall n p, exists object,
           generateObject n p = Ok object /\ wholeReferences object) ->
        (forall before chapter after st,
           chapters = before ++ chapter :: after ->
           chapterLoop encode generateObject subject chapters contents before
             (mkLoop R "" [] []) = Ok st ->
           accepts encode
             (basePrompt (locale (config R)) subject chapter chapters
                (previousText st))) ->
        exists st,
          generateChapterContents encode generateObject R subject chapters contents
          = Ok st).
Proof.
  split.
  - intros st H. unfold generateChapterContents in H.
    apply chapterLoop_trace in H as (cs & ccs & Hc & Hcc & Hn & Hnn & _ & Hocc).
    simpl in *. subst. split; [done|]. split; [done|]. split; [|by rewrite Hn].
    intros k n prompt Hk. specialize (Hocc k n prompt Hk). split; [done|].
    intros j c Hj Hc. eapply occursIn_trans; [|exact Hocc].
    apply occursIn_concatTexts, list_elem_of_In.
    apply (list_elem_of_lookup_2 _ j). by rewrite lookup_take_lt.
  - intros W HW Hblocks Hllm Hbase. by apply (chapterLoop_returns _ _ _ _ _ W).
Qed.

End ChapterLoopFacts.

Lemma unitTokens_accepts (s : string) : accepts unitTokens s.
Proof. by eexists. Qed.

Lemma whole_1 : wholeNumber 1.
Proof. by exists 1. Qed.

Lemma whole_2 : wholeNumber 2.
Proof. by exists 2. Qed.

Lemma sampleModel_whole (n : nat) (p : string) :
  exists object, sampleModel n p = Ok object /\ wholeReferences object.
Proof.
  eexists. split; [reflexivity|]. intros para x Hp Hx. cbn in Hp.
  destruct (n =? 0)%nat; cbn in Hp.
  - destruct Hp as [<-|[]]. destruct Hx as [<-|[]]. apply whole_1.
  - destruct Hp as [<-|[]]. destruct Hx as [<-|[<-|[]]]; [apply whole_1|apply whole_2].
Qed.

Lemma chapters_generated_in_outline_order_witness :
  exists st,
    generateChapterContents unitTokens sampleModel (newResearch sampleConfig)
      "solar panel recycling"
      [mkChapter 1 "Collection"; mkChapter 2 "Processing"] [docA; docB] = Ok st
    /\ map fst (calls st) = [1; 2].
Proof.
  destruct (proj2 (chapters_generated_in_outline_order unitTokens sampleModel
                     (newResearch sampleConfig) "solar panel recycling"
                     [mkChapter 1 "Collection"; mkChapter 2 "Processing"]
                     [docA; docB]) 64000 eq_refl
              (fun i c _ => unitTokens_accepts _) sampleModel_whole
              (fun before chapter after st _ _ => unitTokens_accepts _))
    as [st Hst].
  exists st. split; [exact Hst|].
  exact (proj1 (proj1 (chapters_generated_in_outline_order unitTokens sampleModel
                         (newResearch sampleConfig) "solar panel recycling"
                         [mkChapter 1 "Collection"; mkChapter 2 "Processing"]
                         [docA; docB]) st Hst)).
Defined.

(** The outline numbered 2, 1, 3 is generated in that order, and the
    prompt of chapter 2, the first call, does not hold the text of
    chapter 1, which is generated after it. *)
Lemma unsorted_outline_generated_unsorted :
  exists st,
    generateChapterContents unitTokens sampleModel (newResearch sampleConfig)
      "solar panel recycling" unsortedOutline [docA; docB] = Ok st
    /\ map fst (calls st) = [2; 1; 3]
    /\ map fst (calls st) <> [1; 2; 3]
    /\ exists prompt2 chapter1,
         calls st !! 0%nat = Some (2, prompt2)
         /\ chapterContents st !! 1%nat = Some chapter1
         /\ cc_number chapter1 = 1
         /\ cc_content chapter1
            = "Later body. [(1)](http://a.example/solar)[(2)](http://b.example/panel)"
         /\ ~ occursIn (cc_content chapter1) prompt2.
Proof.
  destruct (generateChapterContents unitTokens sampleModel (newResearch sampleConfig)
              "solar panel recycling" unsortedOutline [docA; docB])
    as [st|e] eqn:E; [|vm_compute in E; discriminate E].
  exists st. split; [done|].
  vm_compute in E. inversion E; subst; clear E. simpl.
  split; [done|]. split; [discriminate|].
  eexists _, _. split; [reflexivity|]. split; [reflexivity|].
  split; [reflexivity|]. split; [reflexivity|].
  intros H. apply occursIn_containsb in H. vm_compute in H. discriminate H.
Qed.


(** ** Paths *)

Lemma allUnits_append (p : ascii -> bool) (a b : string) :
  allUnits p (a +:+ b) = allUnits p a && allUnits p b.
Proof.
  induction a as [|x a IH]; [done|]. rewrite append_cons. simpl.
  by rewrite IH, andb_assoc.
Qed.

Lemma split_noSlash (s : string) :
  allUnits notSlash s = true -> Js.split "/" s = [s].
Proof.
  induction s as [|c s IH]; [done|]. simpl. intros H.
  apply andb_true_iff in H as [Hc Hs]. unfold notSlash in Hc.
  apply negb_true_iff in Hc. rewrite Hc. by rewrite IH.
Qed.

Lemma split_slash (a b : string) :
  allUnits notSlash a = true ->
  Js.split "/" (a +:+ "/" +:+ b) = a :: Js.split "/" b.
Proof.
  induction a as [|c a IH]; [done|]. rewrite append_cons. simpl. intros H.
  apply andb_true_iff in H as [Hc Hs]. unfold notSlash in Hc.
  apply negb_true_iff in Hc. rewrite Hc. by rewrite IH.
Qed.

Lemma endsWithSlash_append (a b : string) :
  b <> "" -> endsWithSlash (a +:+ b) = endsWithSlash b.
Proof.
  intros Hb. induction a as [|c a IH]; [done|]. rewrite append_cons. simpl.
  destruct (String.eqb_spec (a +:+ b) "") as [E|_]; [|done].
  destruct a; [done|discriminate].
Qed.

Lemma endsWithSlash_noSlash (s : string) :
  allUnits notSlash s = true -> endsWithSlash s = false.
Proof.
  induction s as [|c s IH]; [done|]. simpl. intros H.
  apply andb_true_iff in H as [Hc Hs]. unfold notSlash in Hc.
  apply negb_true_iff in Hc. destruct (String.eqb s ""); [done|by apply IH].
Qed.

(** Joining two simple names puts a slash between them. *)
Lemma path_join_simple (dir name : string) :
  simpleName dir = true -> simpleName name = true ->
  path_join dir name = dir +:+ "/" +:+ name.
Proof.
  unfold simpleName. intros Hd Hn.
  repeat (apply andb_true_iff in Hd as [Hd ?]).
  repeat (apply andb_true_iff in Hn as [Hn ?]).
  repeat match goal with H : negb _ = true |- _ => apply negb_true_iff in H end.
  unfold path_join. rewrite H1, H4. unfold path_normalize.
  assert (String.eqb (dir +:+ "/" +:+ name) "" = false) as ->.
  { destruct dir; [done|]. by rewrite append_cons. }
  assert (startsWithSlash (dir +:+ "/" +:+ name) = false) as ->.
  { destruct dir as [|c dir]; [done|]. rewrite append_cons. simpl in *.
    apply andb_true_iff in Hd as [Hc _]. by apply negb_true_iff in Hc. }
  assert (endsWithSlash (dir +:+ "/" +:+ name) = false) as ->.
  { rewrite endsWithSlash_append by (by destruct name).
    destruct name as [|c name]; [done|].
    change ("/" +:+ String c name) with (String "/" (String c name)).
    cbn [endsWithSlash]. cbn [String.eqb].
    by apply (endsWithSlash_noSlash (String c name)). }
  rewrite split_slash, split_noSlash by done. cbn [negb normalizeSegments].
  unfold isDot, isDotDot in *. rewrite H1, H0, H. cbn [orb].
  rewrite H4, H3, H2. cbn.
  assert (String.eqb (dir +:+ "/" +:+ name) "" = false) as ->; [|done].
  destruct dir; [done|]. by rewrite append_cons.
Qed.

Lemma parentDirectory_simple (dir name : string) :
  allUnits notSlash dir = true -> allUnits notSlash name = true ->
  parentDirectory (dir +:+ "/" +:+ name) = dir.
Proof.
  intros Hd Hn. unfold parentDirectory.
  by rewrite split_slash, split_noSlash by done.
Qed.

(** *** The path of a cache record *)

Lemma hex_digit_noSlash (d : Z) : 0 <= d < 16 -> notSlash (MD5.hex_digit d) = true.
Proof.
  intros H.
  assert (d = 0 \/ d = 1 \/ d = 2 \/ d = 3 \/ d = 4 \/ d = 5 \/ d = 6 \/ d = 7
          \/ d = 8 \/ d = 9 \/ d = 10 \/ d = 11 \/ d = 12 \/ d = 13 \/ d = 14
          \/ d = 15) as Hd by lia.
  repeat (destruct Hd as [->|Hd]; [reflexivity|]). by subst.
Qed.

Lemma le_bytes_range (n : nat) (x : Z) :
  Forall (fun b => 0 <= b < 256) (MD5.le_bytes n x).
Proof.
  revert x. induction n as [|n IH]; intros x; simpl; [constructor|].
  constructor; [apply Z.mod_pos_bound; lia|apply IH].
Qed.

Lemma hex_noSlash (bytes : list Z) :
  Forall (fun b => 0 <= b < 256) bytes -> allUnits notSlash (MD5.hex bytes) = true.
Proof.
  induction 1 as [|b bytes Hb _ IH]; [done|]. cbn [MD5.hex allUnits].
  rewrite !hex_digit_noSlash, IH; [done| |].
  - apply Z.mod_pos_bound. lia.
  - split; [apply Z.div_pos; lia|apply Z.div_lt_upper_bound; lia].
Qed.

Lemma cacheKey_noSlash (u : string) : allUnits notSlash (cacheKey u) = true.
Proof.
  unfold cacheKey, MD5.digest_hex. apply hex_noSlash.
  repeat (apply Forall_app; split); apply le_bytes_range.
Qed.

Lemma cachePath_text (u : string) :
  cachePath u = "cache/url_" +:+ cacheKey u +:+ ".json".
Proof.
  unfold cachePath. rewrite path_join_simple; [done|done|].
  unfold simpleName.
  rewrite !allUnits_append, cacheKey_noSlash. done.
Qed.

(** Writing a cache record needs nothing but a disk that takes writes:
    the directory [cache] is there. *)
Lemma canWrite_cachePath (d : Disk) (u : string) :
  canWrite d (cachePath u) = writable d.
Proof.
  unfold canWrite. rewrite cachePath_text.
  change ("cache/url_" +:+ cacheKey u +:+ ".json")
    with ("cache" +:+ "/" +:+ ("url_" +:+ cacheKey u +:+ ".json")).
  rewrite parentDirectory_simple; [by rewrite andb_true_r|done|].
  by rewrite !allUnits_append, cacheKey_noSlash.
Qed.

(** ** The content cache *)

Lemma pathExists_true (d : Disk) (p : string) :
  pathExists d p = true <-> is_Some (files d !! p).
Proof. unfold pathExists. apply bool_decide_eq_true. Qed.

Lemma pathExists_false (d : Disk) (p : string) :
  pathExists d p = false <-> files d !! p = None.
Proof.
  unfold pathExists. rewrite bool_decide_eq_false. symmetry. apply eq_None_not_Some.
Qed.

Lemma cachePath_normalized (u v : string) :
  normalized u = normalized v -> cachePath u = cachePath v.
Proof. unfold cachePath, cacheKey, normalized. by intros ->. Qed.

Lemma lookupLoop_hit (d : Disk) (u : string) (rest : list string) (R : Research)
    (uncached : list string) (item : Item) :
  files d !! cachePath u = Some (JsonFile item) ->
  lookupLoop d (u :: rest) R uncached
  = lookupLoop d rest (remember R u item) uncached.
Proof.
  intros H. simpl.
  assert (pathExists d (cachePath u) = true) as ->
    by (apply pathExists_true; by rewrite H).
  unfold readJSON. by rewrite H.
Qed.

Lemma lookupLoop_miss (d : Disk) (u : string) (rest : list string) (R : Research)
    (uncached : list string) :
  files d !! cachePath u = None ->
  lookupLoop d (u :: rest) R uncached = lookupLoop d rest R (uncached ++ [u]).
Proof.
  intros H. simpl.
  by assert (pathExists d (cachePath u) = false) as -> by by apply pathExists_false.
Qed.

Lemma lookupLoop_damaged (d : Disk) (u : string) (rest : list string) (R : Research)
    (uncached : list string) :
  files d !! cachePath u = Some Unreadable ->
  lookupLoop d (u :: rest) R uncached = Throw (CacheIOError (cachePath u)).
Proof.
  intros H. simpl.
  assert (pathExists d (cachePath u) = true) as ->
    by (apply pathExists_true; by rewrite H).
  unfold readJSON. by rewrite H.
Qed.

(** With every record present, the first loop collects no miss. *)
Lemma lookupLoop_all_present (d : Disk) (urls : list string) (R R' : Research)
    (uncached uncached' : list string) :
  (forall u, In u urls -> pathExists d (cachePath u) = true) ->
  lookupLoop d urls R uncached = Ok (R', uncached') ->
  uncached' = uncached.
Proof.
  revert R. induction urls as [|u rest IH]; intros R Hall H; simpl in H.
  - by inversion H.
  - rewrite (Hall u) in H by by left.
    destruct (readJSON d (cachePath u)) as [cached|e]; [|discriminate].
    simpl in H. eapply IH; [|done]. intros v Hv. apply Hall. by right.
Qed.

Lemma writeJSON_spec (d d' : Disk) (p : string) (item : Item) :
  writeJSON d p item = Ok d' ->
  files d' = <[p := JsonFile item]> (files d) /\ writable d' = true.
Proof.
  unfold writeJSON. destruct (canWrite d p); [|discriminate].
  intros H. by inversion H.
Qed.

Lemma writeJSON_cachePath (d : Disk) (u : string) (item : Item) :
  writeJSON d (cachePath u) item
  = if writable d
    then Ok (mkDisk (<[cachePath u := JsonFile item]> (files d)) (directories d) true)
    else Throw (CacheIOError (cachePath u)).
Proof. unfold writeJSON. by rewrite canWrite_cachePath. Qed.

(** *** The order of own properties *)

Lemma ownProperties_named {V} (o : JsObject V) :
  Forall (fun e => Js.isArrayIndex (fst e) = false) o -> ownProperties o = o.
Proof.
  intros H.
  assert (indexedProperties o = [] /\ namedProperties o = o) as [Hi Hn].
  { induction H as [|e o He _ [IHi IHn]]; [done|].
    cbn [indexedProperties namedProperties List.filter].
    rewrite He. cbn [negb]. fold (namedProperties o). rewrite IHn.
    unfold Js.isArrayIndex in He.
    by destruct (Js.arrayIndex (fst e)). }
  unfold ownProperties. by rewrite Hi, Hn.
Qed.

Lemma Object_values_one {V} (key : string) (v : V) :
  key <> "__proto__" -> Object_values (obj_set key v []) = [v].
Proof.
  intros Hk. unfold obj_set. apply String.eqb_neq in Hk. rewrite Hk.
  unfold Object_values, ownProperties, namedProperties, Js.isArrayIndex.
  cbn. by destruct (Js.arrayIndex key).
Qed.

Lemma ordinaryKey_spec (key : string) :
  ordinaryKey key = true <-> Js.isArrayIndex key = false /\ key <> "__proto__".
Proof.
  unfold ordinaryKey. rewrite andb_true_iff, !negb_true_iff, String.eqb_neq. tauto.
Qed.

Section CacheFacts.

Variable crawler : list string -> Result (list Item).

(** C6. The cache key is the MD5 digest of the lower-cased, trimmed
    URL, so URLs with one normalized form share one record path;
    a record written for an item is what a lookup of its URL reads (on
    the disk, and from one run of [crawlUrls] to the next, where the
    URL is not the key [__proto__], which a plain object does not
    keep); a second write under the same normalized URL replaces that
    one record; and a batch served from the cache leaves the disk as it
    was. *)
Theorem cache_round_trip :
  (forall u, cacheKey u = MD5.digest_hex (Js.trim (Js.toLowerCase u)))
  /\ (forall u v, normalized u = normalized v ->
                  cacheKey u = cacheKey v /\ cachePath u = cachePath v)
  /\ (forall (d d' : Disk) (item : Item),
        writeJSON d (cachePath (url item)) item = Ok d' ->
        pathExists d' (cachePath (url item)) = true
        /\ readJSON d' (cachePath (url item)) = Ok item)
  /\ (forall (d : Disk) (cfg : Config) (u : string) (item : Item),
        u <> "__proto__" ->
        files d !! cachePath u = None ->
        writable d = true ->
        crawler [u] = Ok [item] ->
        url item = u ->
        exists d' R',
          crawlUrls crawler d (newResearch cfg) [u] = Ok (d', R', [item])
          /\ forall anyCrawler,
               crawlUrls anyCrawler d' (newResearch cfg) [u]
               = Ok (d', remember (newResearch cfg) u item, [item]))
  /\ (forall (d d2 : Disk) (R R2 : Research) (item1 item2 : Item),
        normalized (url item1) = normalized (url item2) ->
        storeLoop d [item1; item2] R = Ok (d2, R2) ->
        files d2 = <[cachePath (url item1) := JsonFile item2]> (files d)
        /\ readJSON d2 (cachePath (url item1)) = Ok item2)
  /\ (forall (d d' : Disk) (R R' : Research) (urls : list string)
             (corpus : list Item),
        (forall u, In u urls -> pathExists d (cachePath u) = true) ->
        crawlUrls crawler d R urls = Ok (d', R', corpus) ->
        d' = d).
Proof.
  split; [done|].
  split.
  { intros u v H. split; [|by apply cachePath_normalized].
    unfold cacheKey. unfold normalized in H. by rewrite H. }
  split.
  { intros d d' item H. apply writeJSON_spec in H as [Hf _].
    split.
    - apply pathExists_true. rewrite Hf, lookup_insert_eq. by eexists.
    - unfold readJSON. by rewrite Hf, lookup_insert_eq. }
  split.
  { intros d cfg u item Hproto Hnone Hw Hcrawl Hurl.
    exists (mkDisk (<[cachePath u := JsonFile item]> (files d)) (directories d) true),
           (remember (newResearch cfg) u item).
    pose proof (Object_values_one u item Hproto) as Hvalues.
    split.
    - unfold crawlUrls. rewrite lookupLoop_miss by done. simpl.
      rewrite Hcrawl. simpl. rewrite Hurl, writeJSON_cachePath, Hw. simpl.
      by rewrite Hvalues.
    - intros anyCrawler. unfold crawlUrls.
      rewrite (lookupLoop_hit _ _ _ _ _ item) by (simpl; apply lookup_insert_eq).
      simpl. by rewrite Hvalues. }
  split.
  { intros d d2 R R2 item1 item2 Hnorm H. simpl in H.
    destruct (writeJSON d _ item1) as [d1|e] eqn:E1; [|discriminate]. simpl in H.
    destruct (writeJSON d1 _ item2) as [d1'|e] eqn:E2; [|discriminate]. simpl in H.
    inversion H; subst; clear H.
    apply writeJSON_spec in E1 as [E1 _], E2 as [E2 _].
    rewrite <- (cachePath_normalized _ _ Hnorm) in E2.
    rewrite E1, insert_insert_eq in E2. split; [done|].
    unfold readJSON. by rewrite E2, lookup_insert_eq. }
  intros d d' R R' urls corpus Hall H. unfold crawlUrls in H.
  destruct (lookupLoop d urls R []) as [[R1 uncached]|e] eqn:E; [|discriminate].
  apply lookupLoop_all_present in E; [|done]. subst uncached.
  simpl in H. by inversion H.
Qed.

End CacheFacts.

Lemma cache_round_trip_witness :
  (cacheKey "  HTTP://A.example/Solar " = cacheKey "http://a.example/solar"
   /\ cachePath "  HTTP://A.example/Solar " = cachePath "http://a.example/solar")
  /\ exists d' R',
       crawlUrls echoCrawler (mkDisk ∅ [] true) (newResearch sampleConfig)
         ["http://b.example/panel"]
       = Ok (d', R',
             [mkItem "http://b.example/panel" "text of http://b.example/panel"
                (Some "Title of http://b.example/panel")])
       /\ forall anyCrawler,
            crawlUrls anyCrawler d' (newResearch sampleConfig)
              ["http://b.example/panel"]
            = Ok (d',
                  remember (newResearch sampleConfig) "http://b.example/panel"
                    (mkItem "http://b.example/panel"
                       "text of http://b.example/panel"
                       (Some "Title of http://b.example/panel")),
                  [mkItem "http://b.example/panel" "text of http://b.example/panel"
                     (Some "Title of http://b.example/panel")]).
Proof.
  split.
  - apply (proj1 (proj2 (cache_round_trip echoCrawler))). vm_compute. reflexivity.
  - apply (proj1 (proj2 (proj2 (proj2 (cache_round_trip echoCrawler))))).
    + discriminate.
    + reflexivity.
    + reflexivity.
    + reflexivity.
    + reflexivity.
Defined.

(** ** Cache failures during the crawl *)

Lemma lookupLoop_throws_at (d : Disk) (before : list string) (u : string)
    (after : list string) (R : Research) (uncached : list string) :
  (forall v, In v before -> recordUsable d v) ->
  files d !! cachePath u = Some Unreadable ->
  lookupLoop d (before ++ u :: after) R uncached
  = Throw (CacheIOError (cachePath u)).
Proof.
  revert R uncached. induction before as [|v before IH]; intros R uncached Hok Hbad.
  - by apply lookupLoop_damaged.
  - assert (recordUsable d v) as Hv by (apply Hok; by left).
    assert (forall w, In w before -> recordUsable d w) as Hrest
      by (intros w Hw; apply Hok; by right).
    unfold recordUsable in Hv. change ((v :: before) ++ u :: after)
      with (v :: (before ++ u :: after)).
    destruct (files d !! cachePath v) as [[item| |c]|] eqn:E; try done.
    + rewrite (lookupLoop_hit _ _ _ _ _ item) by done. by apply IH.
    + rewrite lookupLoop_miss by done. by apply IH.
Qed.

Section CrawlFailures.

Variable encode : string -> Result (list nat).
Variable crawler : list string -> Result (list Item).
Variable generateChapters : list Item -> Result (list Chapter).
Variable generateObject : nat -> string -> Result ChapterContentObject.
Variable generateSummary : list ChapterContent -> Result (string * string).
Variable styledRendering : string -> string -> string -> string.

(** C5, as the code has it. Only an absent record counts as a cache
    miss. A record that is there but cannot be read makes [crawlUrls]
    throw at that URL, and a refused write makes it throw at the first
    crawled item: [crawlUrls] has no handler, so the error leaves it,
    and the run ends with that error in the [catch] of [main]. *)
Theorem cache_io_errors_propagate :
  (forall (d : Disk) (R : Research) (u : string) (rest uncached : list string),
     files d !! cachePath u = None ->
     lookupLoop d (u :: rest) R uncached = lookupLoop d rest R (uncached ++ [u]))
  /\ (forall (d : Disk) (R : Research) (before : list string) (u : string)
             (after : list string),
        (forall v, In v before -> recordUsable d v) ->
        files d !! cachePath u = Some Unreadable ->
        crawlUrls crawler d R (before ++ u :: after)
        = Throw (CacheIOError (cachePath u)))
  /\ (forall (d : Disk) (R R1 : Research) (urls uncached : list string)
             (item : Item) (items : list Item),
        writable d = false ->
        lookupLoop d urls R [] = Ok (R1, uncached) ->
        uncached <> [] ->
        crawler uncached = Ok (item :: items) ->
        crawlUrls crawler d R urls = Throw (CacheIOError (cachePath (url item))))
  /\ (forall (d : Disk) (cfg : Config) (subject : string) (urls : list string)
             (now : string) (e : Error),
        crawlUrls crawler d (newResearch cfg) urls = Throw e ->
        researchRun encode crawler generateChapters generateObject generateSummary
          styledRendering d cfg subject urls now = Throw e).
Proof.
  split; [intros; by apply lookupLoop_miss|].
  split.
  { intros d R before u after Hok Hbad. unfold crawlUrls.
    by rewrite lookupLoop_throws_at. }
  split.
  { intros d R R1 urls uncached item items Hw Hl Hne Hc. unfold crawlUrls.
    rewrite Hl. simpl. destruct uncached as [|x xs]; [done|]. simpl.
    rewrite Hc. simpl. by rewrite writeJSON_cachePath, Hw. }
  intros d cfg subject urls now e H. unfold researchRun. by rewrite H.
Qed.

End CrawlFailures.

Lemma cache_io_errors_propagate_witness :
  crawlUrls echoCrawler diskWithDamagedA (newResearch sampleConfig)
    ([] ++ url docA :: [url docB])
  = Throw (CacheIOError (cachePath (url docA)))
  /\ crawlUrls echoCrawler readOnlyDisk (newResearch sampleConfig) [url docB]
     = Throw (CacheIOError (cachePath (url docB))).
Proof.
  split.
  - apply (proj1 (proj2 (cache_io_errors_propagate unitTokens echoCrawler
                           sampleOutline sampleModel sampleSummary plainRendering))).
    + intros v [].
    + vm_compute. reflexivity.
  - apply (proj1 (proj2 (proj2 (cache_io_errors_propagate unitTokens echoCrawler
                                  sampleOutline sampleModel sampleSummary
                                  plainRendering)))
             readOnlyDisk (newResearch sampleConfig) (newResearch sampleConfig)
             [url docB] [url docB]
             (mkItem (url docB) ("text of " +:+ url docB)
                (Some ("Title of " +:+ url docB)))
             []).
    + reflexivity.
    + vm_compute. reflexivity.
    + discriminate.
    + reflexivity.
Defined.

(** A damaged record of a URL of the batch, or a disk that refuses the
    write of a crawled item, ends [crawlUrls] and the run with the
    I/O error. *)
Lemma damaged_record_aborts_the_run :
  crawlUrls echoCrawler diskWithDamagedA (newResearch sampleConfig)
    [url docA; url docB]
  = Throw (CacheIOError "cache/url_c8d2e55a45d561e3c367168e7474804a.json")
  /\ succeeded
       (researchRun unitTokens echoCrawler sampleOutline sampleModel sampleSummary
          plainRendering diskWithDamagedA sampleConfig "solar panel recycling"
          [url docA; url docB] "2025-03-01T10:00:00.000Z") = false
  /\ succeeded
       (crawlUrls echoCrawler readOnlyDisk (newResearch sampleConfig) [url docB])
     = false.
Proof. vm_compute. repeat split. Qed.


(** ** URLs that differ in case or surrounding white space *)

Lemma resolveReference_lookup (T : list Item) (used : list string) (refNum : Z)
    (c : Item) :
  inRange (length T) refNum = true ->
  T !! Z.to_nat (refNum - 1) = Some c ->
  resolveReference T used (inject_Z refNum)
  = Ok (fst (citeOrGetIndex used (url c)),
        Some (renderMarker (snd (citeOrGetIndex used (url c))) (url c))).
Proof.
  intros Hin Hc.
  destruct (resolveReference_in_range T used refNum Hin) as (c' & Hc' & ->).
  congruence.
Qed.

Lemma citeOrGetIndex_empty (u : string) : citeOrGetIndex [] u = ([u], 1).
Proof. by rewrite citeOrGetIndex_first. Qed.

Lemma citeOrGetIndex_same (u : string) : citeOrGetIndex [u] u = ([u], 1).
Proof.
  rewrite citeOrGetIndex_again.
  - unfold indexOf. cbn [indexOf_from]. by rewrite String.eqb_refl.
  - unfold includes. cbn [existsb]. by rewrite String.eqb_refl.
Qed.

Lemma citeOrGetIndex_other (u v : string) :
  u <> v -> citeOrGetIndex [u] v = ([u; v], 2).
Proof.
  intros Hne. rewrite citeOrGetIndex_first; [done|].
  unfold includes. cbn [existsb].
  assert (String.eqb v u = false) as -> by (apply String.eqb_neq; congruence).
  done.
Qed.

Lemma resolveReferences_same_document (item : Item) :
  resolveReferences [item; item] [] [1%Q; 2%Q]
  = Ok ([url item],
        [Some (renderMarker 1 (url item)); Some (renderMarker 1 (url item))]).
Proof.
  cbn [resolveReferences].
  rewrite (resolveReference_lookup _ _ 1 item) by done.
  rewrite citeOrGetIndex_empty. cbn.
  rewrite (resolveReference_lookup _ _ 2 item) by done.
  by rewrite citeOrGetIndex_same.
Qed.

Lemma resolveReferences_two_documents (i1 i2 : Item) :
  url i1 <> url i2 ->
  resolveReferences [i1; i2] [] [1%Q; 2%Q]
  = Ok ([url i1; url i2],
        [Some (renderMarker 1 (url i1)); Some (renderMarker 2 (url i2))]).
Proof.
  intros Hne. cbn [resolveReferences].
  rewrite (resolveReference_lookup _ _ 1 i1) by done.
  rewrite citeOrGetIndex_empty. cbn.
  rewrite (resolveReference_lookup _ _ 2 i2) by done.
  by rewrite citeOrGetIndex_other.
Qed.

(** Two keys, created one after the other. *)
Lemma obj_set_two {V} (k1 k2 : string) (v1 v2 : V) :
  k1 <> k2 -> k1 <> "__proto__" -> k2 <> "__proto__" ->
  obj_set k2 v2 (obj_set k1 v1 []) = [(k1, v1); (k2, v2)].
Proof.
  intros Hne H1 H2. unfold obj_set.
  apply String.eqb_neq in Hne, H1, H2. rewrite H1, H2. cbn. by rewrite Hne.
Qed.

Lemma Object_values_same {V} (k1 k2 : string) (v : V) :
  Object_values [(k1, v); (k2, v)] = [v; v].
Proof.
  unfold Object_values, ownProperties, namedProperties, Js.isArrayIndex. cbn.
  destruct (Js.arrayIndex k1) as [n|], (Js.arrayIndex k2) as [m|]; cbn; try done.
  by destruct (n <=? m)%N.
Qed.

Lemma Object_values_two {V} (k1 k2 : string) (v1 v2 : V) :
  Js.isArrayIndex k2 = false -> Object_values [(k1, v1); (k2, v2)] = [v1; v2].
Proof.
  unfold Object_values, ownProperties, namedProperties, Js.isArrayIndex. cbn.
  destruct (Js.arrayIndex k2); [discriminate|]. intros _.
  by destruct (Js.arrayIndex k1).
Qed.

(** C10, as the code has it. Two distinct URL strings with one
    normalized form share one cache record. The corpus is keyed by the
    raw string, so a batch with both has two corpus entries (for
    strings that a plain object keeps as keys, which leaves out
    [__proto__], and lists in the order of creation, which leaves out
    an array index behind another key); the ledger is keyed by the
    [url] field of the cited document. When both are cache hits, both
    entries are the stored record, and citing them gives one ledger
    entry and one index; when both are crawled and each item carries
    the URL it was asked for, the one record keeps the later item and
    citing them gives two indices. *)
Theorem case_variant_urls (u1 u2 : string) :
  u1 <> u2 ->
  normalized u1 = normalized u2 ->
  cachePath u1 = cachePath u2
  /\ (forall (crawler : list string -> Result (list Item)) (d : Disk)
             (cfg : Config) (item : Item),
        u1 <> "__proto__" ->
        u2 <> "__proto__" ->
        files d !! cachePath u1 = Some (JsonFile item) ->
        exists R,
          crawlUrls crawler d (newResearch cfg) [u1; u2] = Ok (d, R, [item; item])
          /\ cache R = [(u1, item); (u2, item)]
          /\ resolveReferences [item; item] [] [1%Q; 2%Q]
             = Ok ([url item],
                   [Some (renderMarker 1 (url item));
                    Some (renderMarker 1 (url item))]))
  /\ (forall (crawler : list string -> Result (list Item)) (d : Disk)
             (cfg : Config) (i1 i2 : Item),
        u1 <> "__proto__" ->
        ordinaryKey u2 = true ->
        files d !! cachePath u1 = None ->
        writable d = true ->
        crawler [u1; u2] = Ok [i1; i2] ->
        url i1 = u1 ->
        url i2 = u2 ->
        exists d' R,
          crawlUrls crawler d (newResearch cfg) [u1; u2] = Ok (d', R, [i1; i2])
          /\ cache R = [(u1, i1); (u2, i2)]
          /\ files d' = <[cachePath u1 := JsonFile i2]> (files d)
          /\ resolveReferences [i1; i2] [] [1%Q; 2%Q]
             = Ok ([u1; u2], [Some (renderMarker 1 u1); Some (renderMarker 2 u2)])).
Proof.
  intros Hne Hnorm.
  pose proof (cachePath_normalized _ _ Hnorm) as Hpath.
  assert (String.eqb u1 u2 = false) as E by by apply String.eqb_neq.
  split; [done|]. split.
  - intros crawler d cfg item Hp1 Hp2 Hrec.
    exists (remember (remember (newResearch cfg) u1 item) u2 item).
    assert (cache (remember (remember (newResearch cfg) u1 item) u2 item)
            = [(u1, item); (u2, item)]) as Hcache
      by (by apply obj_set_two).
    split; [|split].
    + unfold crawlUrls.
      rewrite (lookupLoop_hit _ _ _ _ _ item) by done.
      rewrite (lookupLoop_hit _ _ _ _ _ item) by by rewrite <- Hpath.
      cbn [lookupLoop mbind Result_bind length Nat.ltb Nat.leb].
      by rewrite Hcache, Object_values_same.
    + done.
    + apply resolveReferences_same_document.
  - intros crawler d cfg i1 i2 Hp1 Hord Hnone Hw Hcrawl H1 H2.
    apply ordinaryKey_spec in Hord as [Hidx Hp2].
    exists (mkDisk (<[cachePath u1 := JsonFile i2]> (files d)) (directories d) true),
           (remember (remember (newResearch cfg) u1 i1) u2 i2).
    assert (cache (remember (remember (newResearch cfg) u1 i1) u2 i2)
            = [(u1, i1); (u2, i2)]) as Hcache
      by (by apply obj_set_two).
    split; [|split; [|split]].
    + unfold crawlUrls.
      rewrite lookupLoop_miss by done.
      rewrite lookupLoop_miss by by rewrite <- Hpath.
      cbn [lookupLoop mbind Result_bind length Nat.ltb Nat.leb app].
      rewrite Hcrawl. cbn [mbind Result_bind storeLoop].
      rewrite H1, H2, writeJSON_cachePath, Hw. cbn [mbind Result_bind].
      rewrite writeJSON_cachePath. cbn [writable files directories mbind Result_bind].
      rewrite <- Hpath, insert_insert_eq.
      by rewrite Hcache, Object_values_two.
    + done.
    + done.
    + rewrite <- H1, <- H2. apply resolveReferences_two_documents. congruence.
Qed.

Lemma case_variant_urls_witness :
  cachePath "http://a.example/solar" = cachePath "HTTP://A.EXAMPLE/SOLAR "
  /\ (exists R,
        crawlUrls downCrawler diskWithA (newResearch sampleConfig)
          ["http://a.example/solar"; "HTTP://A.EXAMPLE/SOLAR "]
        = Ok (diskWithA, R, [docA; docA])
        /\ cache R
           = [("http://a.example/solar", docA); ("HTTP://A.EXAMPLE/SOLAR ", docA)]
        /\ resolveReferences [docA; docA] [] [1%Q; 2%Q]
           = Ok ([url docA],
                 [Some (renderMarker 1 (url docA));
                  Some (renderMarker 1 (url docA))]))
  /\ (exists d' R,
        crawlUrls echoCrawler (mkDisk ∅ [] true) (newResearch sampleConfig)
          ["http://a.example/solar"; "HTTP://A.EXAMPLE/SOLAR "]
        = Ok (d', R,
              [mkItem "http://a.example/solar" "text of http://a.example/solar"
                 (Some "Title of http://a.example/solar");
               mkItem "HTTP://A.EXAMPLE/SOLAR " "text of HTTP://A.EXAMPLE/SOLAR "
                 (Some "Title of HTTP://A.EXAMPLE/SOLAR ")])
        /\ cache R
           = [("http://a.example/solar",
               mkItem "http://a.example/solar" "text of http://a.example/solar"
                 (Some "Title of http://a.example/solar"));
              ("HTTP://A.EXAMPLE/SOLAR ",
               mkItem "HTTP://A.EXAMPLE/SOLAR " "text of HTTP://A.EXAMPLE/SOLAR "
                 (Some "Title of HTTP://A.EXAMPLE/SOLAR "))]
        /\ files d'
           = <[cachePath "http://a.example/solar"
               := JsonFile
                    (mkItem "HTTP://A.EXAMPLE/SOLAR " "text of HTTP://A.EXAMPLE/SOLAR "
                       (Some "Title of HTTP://A.EXAMPLE/SOLAR "))]> ∅
        /\ resolveReferences
             [mkItem "http://a.example/solar" "text of http://a.example/solar"
                (Some "Title of http://a.example/solar");
              mkItem "HTTP://A.EXAMPLE/SOLAR " "text of HTTP://A.EXAMPLE/SOLAR "
                (Some "Title of HTTP://A.EXAMPLE/SOLAR ")] [] [1%Q; 2%Q]
           = Ok (["http://a.example/solar"; "HTTP://A.EXAMPLE/SOLAR "],
                 [Some (renderMarker 1 "http://a.example/solar");
                  Some (renderMarker 2 "HTTP://A.EXAMPLE/SOLAR ")])).
Proof.
  assert ("http://a.example/solar" <> "HTTP://A.EXAMPLE/SOLAR ") as Hne
    by discriminate.
  assert (normalized "http://a.example/solar" = normalized "HTTP://A.EXAMPLE/SOLAR ")
    as Hnorm by (vm_compute; reflexivity).
  split; [|split].
  - exact (proj1 (case_variant_urls _ _ Hne Hnorm)).
  - apply (proj1 (proj2 (case_variant_urls _ _ Hne Hnorm))).
    + discriminate.
    + discriminate.
    + vm_compute. reflexivity.
  - apply (proj2 (proj2 (case_variant_urls _ _ Hne Hnorm))); try reflexivity.
    discriminate.
Defined.

(** Both spellings of the cached URL are served from the one record:
    two corpus entries with the same [url], and one citation index for
    both. *)
Lemma cached_case_variants_share_one_index :
  "http://a.example/solar" <> "HTTP://A.EXAMPLE/SOLAR "
  /\ normalized "http://a.example/solar" = normalized "HTTP://A.EXAMPLE/SOLAR "
  /\ exists R corpus,
       crawlUrls downCrawler diskWithA (newResearch sampleConfig)
         ["http://a.example/solar"; "HTTP://A.EXAMPLE/SOLAR "]
       = Ok (diskWithA, R, corpus)
       /\ map fst (cache R) = ["http://a.example/solar"; "HTTP://A.EXAMPLE/SOLAR "]
       /\ length corpus = 2%nat
       /\ processParagraph corpus [] (mkParagraph "Both." [1%Q; 2%Q])
          = Ok (["http://a.example/solar"],
                "Both. [(1)](http://a.example/solar)[(1)](http://a.example/solar)").
Proof.
  split; [discriminate|]. split; [vm_compute; reflexivity|].
  eexists _, _. split; [vm_compute; reflexivity|].
  vm_compute. repeat split.
Qed.


(** ** The bibliography *)

Lemma join_snoc (sep : string) (parts : list string) (x last : string) :
  Js.join sep ((x :: parts) ++ [last]) = Js.join sep (x :: parts) +:+ sep +:+ last.
Proof.
  revert x. induction parts as [|y parts IH]; intros x; [done|].
  change (Js.join sep ((x :: y :: parts) ++ [last]))
    with (x +:+ sep +:+ Js.join sep ((y :: parts) ++ [last])).
  rewrite IH.
  change (Js.join sep (x :: y :: parts)) with (x +:+ sep +:+ Js.join sep (y :: parts)).
  by rewrite !append_assoc.
Qed.

Lemma mapi_from_urls {A} (f : string -> nat -> nat * string * A) (start : nat)
    (used : list string) :
  (forall u i, fst (f u i) = ((i + 1)%nat, u)) ->
  map (fun e => snd (fst e)) (Js.mapi_from start f used) = used
  /\ map (fun e => fst (fst e)) (Js.mapi_from start f used)
     = seq (S start) (length used).
Proof.
  intros Hf. revert start. induction used as [|u used IH]; intros start; [done|].
  simpl. destruct (IH (S start)) as [-> ->]. rewrite !Hf. simpl.
  by rewrite Nat.add_1_r.
Qed.

Lemma mapi_from_In {A B} (f : A -> nat -> B) (start : nat) (xs : list A) (y : B) :
  In y (Js.mapi_from start f xs) ->
  exists k x, xs !! k = Some x /\ y = f x (start + k)%nat.
Proof.
  revert start. induction xs as [|x xs IH]; intros start; [done|].
  simpl. intros [<-|Hin].
  - exists 0%nat, x. by rewrite Nat.add_0_r.
  - destruct (IH _ Hin) as (k & x' & Hk & ->). exists (S k), x'.
    split; [done|]. f_equal. lia.
Qed.

(** In a ledger without repetitions, [indexOf] is the position. *)
Lemma indexOf_from_position (used : list string) (k : nat) (u : string) (i : Z) :
  NoDup used -> used !! k = Some u -> indexOf_from i u used = i + Z.of_nat k.
Proof.
  revert k i. induction used as [|x used IH]; intros k i Hnd Hk; [done|].
  apply NoDup_cons in Hnd as [Hx Hnd]. destruct k as [|k]; simpl in *.
  - inversion Hk; subst. rewrite String.eqb_refl. lia.
  - assert (String.eqb x u = false) as ->.
    { apply String.eqb_neq. intros ->. apply Hx. by eapply list_elem_of_lookup_2. }
    rewrite (IH k) by done. lia.
Qed.

(** With an entry for every cited URL, the lines of the bibliography
    are those of the final ordering. *)
Lemma referenceLines_finalOrdering (refs : gmap string Reference) (used : list string)
    (start : nat) :
  (forall u, In u used -> is_Some (refs !! u)) ->
  exists lines,
    referenceLines refs start used = Ok lines
    /\ Forall2 bibliographyLine
         (Js.mapi_from start
            (fun u i => ((i + 1)%nat, u, default "" (ref_title <$> refs !! u)))
            used)
         lines.
Proof.
  revert start. induction used as [|u used IH]; intros start Hall.
  - exists []. split; [done|constructor].
  - destruct (Hall u) as [ref Href]; [by left|].
    destruct (IH (S start)) as (lines & Hlines & Hforall);
      [intros v Hv; apply Hall; by right|].
    cbn [referenceLines Js.mapi_from]. unfold referenceLine. rewrite Href.
    cbn [mbind Result_bind]. rewrite Hlines. cbn [mbind Result_bind].
    eexists. split; [done|]. constructor; [|done].
    exists ("[(" +:+ Js.of_nat (start + 1) +:+ ")](" +:+ u +:+ ")").
    cbn [fst snd fmap option_fmap option_map default]. split.
    + exists (Js.of_nat (start + 1)). split; [apply of_nat_decimal|done].
    + by rewrite !append_assoc.
Qed.

(** The bibliography is rendered only when every cited URL has its
    entry in [references]. *)
Lemma referenceLines_defined (refs : gmap string Reference) (used : list string)
    (start : nat) (lines : list string) :
  referenceLines refs start used = Ok lines ->
  forall u, In u used -> is_Some (refs !! u).
Proof.
  revert start lines. induction used as [|v used IH]; intros start lines H u Hu;
    [done|].
  cbn [referenceLines] in H. unfold referenceLine in H.
  destruct (refs !! v) as [ref|] eqn:Ev; [|discriminate]. cbn in H.
  destruct (referenceLines refs (S start) used) as [rest|e] eqn:E; [|discriminate].
  destruct Hu as [<-|Hu]; [by rewrite Ev|]. by eapply IH.
Qed.

Lemma orderedReferences_bibliography (R : Research) (text : string) :
  orderedReferences R = Ok text -> bibliographyOf R text.
Proof.
  unfold orderedReferences. intros H. ok_step H lines E. injection H as <-.
  destruct (referenceLines_finalOrdering (references R) (usedReferences R) 0)
    as (lines' & E' & Hforall); [by eapply referenceLines_defined|].
  rewrite E in E'. injection E' as <-. by exists lines.
Qed.

Lemma processParagraph_single (T : list Item) (used : list string) (t : string)
    (refNum : Z) (c : Item) :
  inRange (length T) refNum = true ->
  T !! Z.to_nat (refNum - 1) = Some c ->
  processParagraph T used (mkParagraph t [inject_Z refNum])
  = Ok (fst (citeOrGetIndex used (url c)),
        t +:+ " " +:+ renderMarker (snd (citeOrGetIndex used (url c))) (url c)).
Proof.
  intros Hin Hc. unfold processParagraph. cbn [p_references p_text resolveReferences].
  rewrite (resolveReference_lookup _ _ _ c) by done. done.
Qed.

Section AssemblyFacts.

Variable styledRendering : string -> string -> string -> string.

(** The steps of an assembly that returned. *)
Lemma generateDocument_inv (d d' : Disk) (R R' : Research)
    (now subject abstract : string) (chapters : list ChapterContent)
    (conclusions : string) (doc : Document) :
  generateDocument styledRendering d R now subject abstract chapters conclusions
  = Ok (d', R', doc) ->
  let mdPath := path_join "reports" (slug subject +:+ ".md") in
  let htmlPath := path_join "reports" (slug subject +:+ ".html") in
  exists bibliography,
    let text :=
      documentContent now subject abstract chapters conclusions bibliography in
    orderedReferences R = Ok bibliography
    /\ R' = R
    /\ doc = mkDocument text mdPath htmlPath
    /\ canWrite d mdPath = true
    /\ canWrite d htmlPath = true
    /\ d' = mkDisk
              (<[htmlPath := TextFile (styledRendering (locale (config R)) subject text)]>
                 (<[mdPath := TextFile text]> (files d)))
              (directories d) true.
Proof.
  intros H mdPath htmlPath. unfold generateDocument in H.
  ok_step H bib Eb. ok_step H d1 E1. ok_step H d2 E2. injection H as <- <- <-.
  exists bib. intros text. unfold writeFile in E1, E2.
  destruct (canWrite d _) eqn:C1 in E1; [|discriminate]. injection E1 as <-.
  destruct (canWrite _ _) eqn:C2 in E2; [|discriminate]. injection E2 as <-.
  assert (writable d = true) as Hw.
  { unfold canWrite in C1. by apply andb_true_iff in C1 as [? _]. }
  split; [done|]. split; [done|]. split; [done|]. split; [done|].
  split; [|done].
  unfold canWrite, directoryExists in *. cbn [writable directories] in C2.
  by rewrite Hw.
Qed.

Lemma generateDocument_content (d d' : Disk) (R R' : Research) (now subject abstract : string)
    (chapters : list ChapterContent) (conclusions : string) (doc : Document) :
  generateDocument styledRendering d R now subject abstract chapters conclusions
  = Ok (d', R', doc) ->
  R' = R
  /\ writable d' = true
  /\ exists bibliography,
       orderedReferences R = Ok bibliography
       /\ doc = mkDocument
                  (documentContent now subject abstract chapters conclusions
                     bibliography)
                  (path_join "reports" (slug subject +:+ ".md"))
                  (path_join "reports" (slug subject +:+ ".html")).
Proof.
  intros H. apply generateDocument_inv in H as (bib & Hb & -> & -> & _ & _ & ->).
  split; [done|]. split; [done|]. by exists bib.
Qed.

(** The bibliography closes the canonical text. *)
Lemma documentContent_ends (now subject abstract : string)
    (chapters : list ChapterContent) (conclusions bibliography : string) :
  exists front,
    documentContent now subject abstract chapters conclusions bibliography
    = front +:+ Js.nl +:+ bibliography.
Proof.
  eexists. unfold documentContent.
  match goal with
  | |- Js.join _ (?P ++ ?M ++ [?a; ?b; ?c; ?x]) = _ =>
      change (P ++ M ++ [a; b; c; x]) with (P ++ M ++ ([a; b; c] ++ [x]))
  end.
  rewrite !app_assoc. cbn [app].
  match goal with
  | |- Js.join _ (?a :: ?b :: ?c :: ?d :: ?e :: (?X ++ [?x])) = _ =>
      change (a :: b :: c :: d :: e :: (X ++ [x]))
        with ((a :: b :: c :: d :: e :: X) ++ [x])
  end.
  rewrite join_snoc. reflexivity.
Qed.

(** C4. The bibliography of the assembled document is one line per
    cited URL, in the order of the ledger, that is of first use across
    the run, each line made of the marker with the index 1..n that the
    citation markers carry and of the title stored for the URL at the
    crawl, and it closes the canonical text of every document that is
    assembled. When chapter 1 cites its document 1 and chapter 2 its
    documents 1 and 2, the text of chapter 1 ends in [[(1)](url1)], that
    of chapter 2 in [[(1)](url1)[(2)](url2)], the ledger ends as those
    two URLs in that order, the final ordering is (1, first URL),
    (2, second URL), and the bibliography has the lines of 1 and 2; so
    it is in the run of the end-to-end scenario. *)
Theorem bibliography_in_first_use_order :
  (forall R : Research,
     (forall u, In u (usedReferences R) -> is_Some (references R !! u)) ->
     exists text, orderedReferences R = Ok text /\ bibliographyOf R text)
  /\ (forall R : Research,
        map (fun e => snd (fst e)) (finalOrdering R) = usedReferences R
        /\ map (fun e => fst (fst e)) (finalOrdering R)
           = seq 1 (length (usedReferences R))
        /\ (forall i u t ref,
              In (i, u, t) (finalOrdering R) ->
              references R !! u = Some ref -> t = ref_title ref)
        /\ (NoDup (usedReferences R) ->
            forall i u t,
              In (i, u, t) (finalOrdering R) ->
              Z.of_nat i = indexOf u (usedReferences R) + 1))
  /\ (forall (d d' : Disk) (R R' : Research) (now subject abstract : string)
             (chapters : list ChapterContent) (conclusions : string)
             (doc : Document),
        generateDocument styledRendering d R now subject abstract chapters
          conclusions = Ok (d', R', doc) ->
        exists front text,
          content doc = front +:+ Js.nl +:+ text /\ bibliographyOf R text)
  /\ (forall (T1 T2 : list Item) (d1 d2 : Item) (t1 t2 : string)
             (r1 r2 : Reference) (R : Research),
        T1 !! 0%nat = Some d1 ->
        T2 !! 0%nat = Some d1 ->
        T2 !! 1%nat = Some d2 ->
        url d1 <> url d2 ->
        processParagraphs T1 [] [mkParagraph t1 [1%Q]]
        = Ok ([url d1], [t1 +:+ " [(1)](" +:+ url d1 +:+ ")"])
        /\ processParagraphs T2 [url d1] [mkParagraph t2 [1%Q; 2%Q]]
           = Ok ([url d1; url d2],
                 [t2 +:+ " [(1)](" +:+ url d1 +:+ ")[(2)](" +:+ url d2 +:+ ")"])
        /\ (usedReferences R = [url d1; url d2] ->
            references R !! url d1 = Some r1 ->
            references R !! url d2 = Some r2 ->
            finalOrdering R
            = [(1%nat, url d1, ref_title r1); (2%nat, url d2, ref_title r2)]
            /\ orderedReferences R
               = Ok ("- [(1)](" +:+ url d1 +:+ ") " +:+ ref_title r1 +:+ Js.nl
                     +:+ "- [(2)](" +:+ url d2 +:+ ") " +:+ ref_title r2)))
  /\ (usedReferences scenarioResearch
      = ["http://a.example/solar"; "http://b.example/panel"]
      /\ finalOrdering scenarioResearch
         = [(1%nat, "http://a.example/solar", "Solar A");
            (2%nat, "http://b.example/panel", "Title of http://b.example/panel")]
      /\ orderedReferences scenarioResearch
         = Ok ("- [(1)](http://a.example/solar) Solar A" +:+ Js.nl
               +:+ "- [(2)](http://b.example/panel) Title of http://b.example/panel")
      /\ containsb
           "Later body. [(1)](http://a.example/solar)[(2)](http://b.example/panel)"
           scenarioDocument = true).
Proof.
  split.
  { intros R Hall. unfold orderedReferences.
    destruct (referenceLines_finalOrdering (references R) (usedReferences R) 0 Hall)
      as (lines & -> & Hforall).
    eexists. split; [done|]. by exists lines. }
  split.
  { intros R. unfold finalOrdering, Js.mapi.
    destruct (mapi_from_urls
                (fun u i => ((i + 1)%nat, u,
                             default "" (ref_title <$> references R !! u)))
                0 (usedReferences R)) as [Hu Hi]; [done|].
    split; [done|]. split; [done|]. split.
    - intros i u t ref Hin Href.
      apply mapi_from_In in Hin as (k & x & Hk & Heq).
      inversion Heq; subst. by rewrite Href.
    - intros Hnd i u t Hin.
      apply mapi_from_In in Hin as (k & x & Hk & Heq).
      inversion Heq; subst. unfold indexOf.
      rewrite (indexOf_from_position _ k) by done. lia. }
  split.
  { intros d d' R R' now subject abstract chapters conclusions doc H.
    apply generateDocument_content in H as (_ & _ & bib & Hbib & ->).
    destruct (documentContent_ends now subject abstract chapters conclusions bib)
      as [front Hfront].
    exists front, bib. split; [done|]. by apply orderedReferences_bibliography. }
  split; [|vm_compute; repeat split].
  intros T1 T2 d1 d2 t1 t2 r1 r2 R H1 H2 H3 Hne.
  assert (inRange (length T1) 1 = true) as In1.
  { apply lookup_lt_Some in H1. unfold inRange. apply andb_true_iff.
    split; [done|]. apply Z.leb_le. lia. }
  assert (inRange (length T2) 1 = true /\ inRange (length T2) 2 = true) as [In2 In3].
  { apply lookup_lt_Some in H3. unfold inRange.
    split; apply andb_true_iff; (split; [done|]); apply Z.leb_le; lia. }
  split; [|split].
  - cbn [processParagraphs].
    rewrite (processParagraph_single _ _ _ 1 d1) by done.
    rewrite citeOrGetIndex_empty. cbn [mbind Result_bind fst snd].
    unfold renderMarker. do 3 f_equal.
  - cbn [processParagraphs]. unfold processParagraph.
    cbn [p_references p_text resolveReferences].
    rewrite (resolveReference_lookup _ _ 1 d1) by done.
    rewrite citeOrGetIndex_same. cbn [mbind Result_bind fst snd].
    rewrite (resolveReference_lookup _ _ 2 d2) by done.
    rewrite citeOrGetIndex_other by done. cbn [mbind Result_bind fst snd].
    unfold renderMarker. cbn. do 4 f_equal. by rewrite !append_assoc.
  - intros Hused Hr1 Hr2. split.
    + unfold finalOrdering. rewrite Hused. cbn. by rewrite Hr1, Hr2.
    + unfold orderedReferences. rewrite Hused. cbn [referenceLines].
      unfold referenceLine. rewrite Hr1, Hr2. cbn [mbind Result_bind Js.join].
      f_equal. by rewrite !append_assoc.
Qed.

End AssemblyFacts.

Lemma bibliography_in_first_use_order_witness :
  (exists text,
     orderedReferences scenarioResearch = Ok text
     /\ bibliographyOf scenarioResearch text)
  /\ processParagraphs [docA; docB] [] [mkParagraph "First body." [1%Q]]
     = Ok ([url docA], ["First body." +:+ " [(1)](" +:+ url docA +:+ ")"]).
Proof.
  split.
  - apply (proj1 (bibliography_in_first_use_order plainRendering)).
    intros u Hu. vm_compute in Hu.
    destruct Hu as [<-|[<-|[]]]; vm_compute; eexists; reflexivity.
  - apply (proj1 (proj2 (proj2 (proj2 (bibliography_in_first_use_order plainRendering))))
             [docA; docB] [docA; docB] docA docB "First body." "Later body."
             (mkReference "Solar A" (url docA)) (mkReference "B" (url docB))
             scenarioResearch); try reflexivity.
    discriminate.
Defined.

(** ** Assembling twice *)

Section Reassembly.

Variable styledRendering : string -> string -> string -> string.

(** C8, as the code has it. The canonical text carries the date of the
    assembly. Assembling leaves the [Research] object as it was, and
    assembling again from the same state on the same calendar day (the
    clock readings agree up to the [T]) succeeds with the same text and
    the same paths. *)
Theorem assembly_repeatable_within_a_day (d d1 : Disk) (R R1 : Research)
    (now1 now2 subject abstract : string) (chapters : list ChapterContent)
    (conclusions : string) (doc1 : Document) :
  generateDocument styledRendering d R now1 subject abstract chapters conclusions
  = Ok (d1, R1, doc1) ->
  beforeT now1 = beforeT now2 ->
  R1 = R
  /\ exists d2,
       generateDocument styledRendering d1 R1 now2 subject abstract chapters
         conclusions = Ok (d2, R, doc1).
Proof.
  intros H Hday.
  apply generateDocument_inv in H as (bib & Hbib & -> & -> & Hmd & Hhtml & Hdirs).
  split; [done|]. unfold generateDocument, writeFile.
  rewrite Hbib. cbn [mbind Result_bind].
  assert (documentContent now2 subject abstract chapters conclusions bib
          = documentContent now1 subject abstract chapters conclusions bib) as ->
    by (unfold documentContent; by rewrite Hday).
  assert (forall d0 p, directories d0 = directories d -> writable d0 = true ->
                       canWrite d p = true -> canWrite d0 p = true) as Hcan.
  { intros d0 p Hd Hw Hp. unfold canWrite, directoryExists in *.
    rewrite Hd, Hw. by apply andb_true_iff in Hp as [_ ->]. }
  subst d1. rewrite Hcan by done. cbn [mbind Result_bind].
  rewrite Hcan by done. by eexists.
Qed.

End Reassembly.

Lemma assembly_repeatable_within_a_day_witness :
  finishedResearch = finishedResearch
  /\ exists d2,
       generateDocument plainRendering
         (mkDisk
            (<[path_join "reports" (slug "solar panel recycling" +:+ ".html")
               := TextFile
                    (documentContent "2025-03-01T08:00:00.000Z"
                       "solar panel recycling" "Abstract." finishedChapters
                       "Conclusions."
                       "- [(1)](http://a.example/solar) Solar A")]>
               (<[path_join "reports" (slug "solar panel recycling" +:+ ".md")
                  := TextFile
                       (documentContent "2025-03-01T08:00:00.000Z"
                          "solar panel recycling" "Abstract." finishedChapters
                          "Conclusions."
                          "- [(1)](http://a.example/solar) Solar A")]>
                  (files diskWithA)))
            [] true)
         finishedResearch "2025-03-01T21:30:00.000Z" "solar panel recycling"
         "Abstract." finishedChapters "Conclusions."
       = Ok (d2, finishedResearch,
             mkDocument
               (documentContent "2025-03-01T08:00:00.000Z" "solar panel recycling"
                  "Abstract." finishedChapters "Conclusions."
                  "- [(1)](http://a.example/solar) Solar A")
               (path_join "reports" (slug "solar panel recycling" +:+ ".md"))
               (path_join "reports" (slug "solar panel recycling" +:+ ".html"))).
Proof.
  apply (assembly_repeatable_within_a_day plainRendering diskWithA _
           finishedResearch finishedResearch
           "2025-03-01T08:00:00.000Z" "2025-03-01T21:30:00.000Z").
  - reflexivity.
  - reflexivity.
Defined.

(** The same finished state assembled just before and just after
    midnight (UTC) gives two different canonical texts. *)
Lemma assembly_on_another_day_differs :
  exists d1 doc1 d2 doc2,
    generateDocument plainRendering diskWithA finishedResearch
      "2025-03-01T23:59:59.000Z" "solar panel recycling" "Abstract."
      finishedChapters "Conclusions." = Ok (d1, finishedResearch, doc1)
    /\ generateDocument plainRendering d1 finishedResearch
         "2025-03-02T00:00:01.000Z" "solar panel recycling" "Abstract."
         finishedChapters "Conclusions." = Ok (d2, finishedResearch, doc2)
    /\ content doc1 <> content doc2.
Proof.
  eexists _, _, _, _. split; [vm_compute; reflexivity|].
  split; [vm_compute; reflexivity|].
  intros H. apply String.eqb_eq in H. vm_compute in H. discriminate H.
Qed.

(** ** The file name of the report *)

Lemma lower_unit_underscore (c : ascii) :
  isUnderscore (Js.lower_unit c) = isUnderscore c.
Proof. destruct c as [[] [] [] [] [] [] [] []]; reflexivity. Qed.

Lemma underscore_no_space (c : ascii) :
  isUnderscore c = true -> Js.is_space c = false.
Proof. intros H. apply Ascii.eqb_eq in H. by subst. Qed.

Lemma toLowerCase_hasUnderscore (s : string) :
  hasUnderscore (Js.toLowerCase s) = hasUnderscore s.
Proof.
  induction s as [|c s IH]; [done|]. simpl. by rewrite lower_unit_underscore, IH.
Qed.

(** Without underscores in the text, the separators that replace the
    runs of white space never touch one another. *)
Lemma replaceSpaceRuns_single (s : string) (inRun : bool) :
  hasUnderscore s = false ->
  singleSeparators (replaceSpaceRuns inRun s) = true
  /\ (inRun = true -> startsWithSeparator (replaceSpaceRuns inRun s) = false).
Proof.
  revert inRun. induction s as [|c s IH]; intros inRun Hno; [done|].
  simpl in Hno. apply orb_false_iff in Hno as [Hc Hs]. simpl.
  destruct (Js.is_space c).
  - destruct (IH true Hs) as [Hsingle Hstart]. destruct inRun; [done|].
    simpl. rewrite Hstart by done. by rewrite Hsingle.
  - destruct (IH false Hs) as [Hsingle _]. simpl. rewrite Hc, Hsingle. done.
Qed.

Lemma dropLeadingUnderscore_single (s : string) :
  singleSeparators s = true ->
  singleSeparators (dropLeadingUnderscore s) = true
  /\ startsWithSeparator (dropLeadingUnderscore s) = false.
Proof.
  destruct s as [|c s]; [done|]. simpl. intros H.
  apply andb_true_iff in H as [H1 H2]. destruct (isUnderscore c) eqn:E.
  - simpl in H1. apply negb_true_iff in H1. done.
  - simpl. rewrite E, H2. done.
Qed.

Lemma dropTrailingUnderscore_start (s : string) :
  startsWithSeparator s = false ->
  startsWithSeparator (dropTrailingUnderscore s) = false.
Proof.
  destruct s as [|c s]; [done|]. simpl. intros E. rewrite E. simpl. by rewrite E.
Qed.

Lemma dropTrailingUnderscore_empty (s : string) :
  dropTrailingUnderscore s = "" -> s = "" \/ s = "_".
Proof.
  destruct s as [|c s]; [by left|]. simpl.
  destruct (isUnderscore c) eqn:Ec, (String.eqb s "") eqn:Es; try discriminate.
  intros _. right. apply Ascii.eqb_eq in Ec. apply String.eqb_eq in Es. by subst.
Qed.

Lemma dropTrailingUnderscore_end (s : string) :
  singleSeparators s = true ->
  endsWithSeparator (dropTrailingUnderscore s) = false.
Proof.
  induction s as [|c s IH]; [done|]. simpl. intros H.
  apply andb_true_iff in H as [H1 H2].
  destruct (isUnderscore c && String.eqb s "") eqn:E; [done|]. simpl.
  destruct (String.eqb (dropTrailingUnderscore s) "") eqn:Ed; [|by apply IH].
  apply String.eqb_eq, dropTrailingUnderscore_empty in Ed as [->| ->].
  - simpl in E. by rewrite andb_true_r in E.
  - simpl in H1. apply negb_true_iff in H1. by rewrite andb_true_r in H1.
Qed.

(** What the claim says of the name holds for every subject that holds
    no underscore of its own. *)
Lemma slug_without_edge_separator (subject : string) :
  hasUnderscore subject = false ->
  startsWithSeparator (slug subject) = false
  /\ endsWithSeparator (slug subject) = false.
Proof.
  intros Hno. unfold slug, stripEdges.
  rewrite <- toLowerCase_hasUnderscore in Hno.
  destruct (replaceSpaceRuns_single _ false Hno) as [Hsingle _].
  destruct (dropLeadingUnderscore_single _ Hsingle) as [Hsingle' Hstart].
  split.
  - by apply dropTrailingUnderscore_start.
  - by apply dropTrailingUnderscore_end.
Qed.

(** C9, where the code departs from it. The name is the lower-cased
    subject with each run of white space turned into one underscore,
    less one underscore at either end; underscores written in the
    subject next to an end are left over as leading or trailing
    separators. *)
Theorem slug_leaves_edge_underscores :
  slug "  Solar   Panel Recycling " = "solar_panel_recycling"
  /\ slug "__Solar panels" = "_solar_panels"
  /\ slug "Solar panels__" = "solar_panels_"
  /\ slug " _ solar" = "__solar".
Proof. vm_compute. repeat split. Qed.

(** * Further properties of the code *)

(** ** The budgeter under a change of window or input *)

Section BudgeterFacts.

Variable encode : string -> Result (list nat).

Local Abbreviation tokens := (estimateTokens encode).

Lemma greedyWalk_window (W W' : Z) (ds sel' : list Item) (accepted : nat)
    (running : Z) :
  W <= W' ->
  greedyWalk encode W' accepted running ds = Ok sel' ->
  exists sel,
    greedyWalk encode W accepted running ds = Ok sel /\ sel `prefix_of` sel'.
Proof.
  intros Hle. revert sel' accepted running.
  induction ds as [|d ds IH]; intros sel' accepted running H; simpl in *.
  - injection H as <-. by exists [].
  - ok_step H n En. rewrite En. simpl.
    destruct (Z.leb_spec (running + n) W) as [Hfit|Hover].
    + destruct (Z.leb_spec (running + n) W'); [|lia].
      ok_step H s Es. injection H as <-.
      destruct (IH _ _ _ Es) as (sel & -> & Hpre). simpl.
      exists (d :: sel). split; [done|]. by apply prefix_cons.
    + exists []. split; [done|apply prefix_nil].
Qed.

(** X1. A larger window never drops a document: when the call for a
    window [W'] returns, the call for any window [W] below it returns
    too, and what it selects is a prefix of what is selected for
    [W']. *)
Theorem truncateContentsToFit_window_monotone (t : string) (ds sel' : list Item)
    (W W' : Z) :
  W <= W' ->
  truncateContentsToFit encode t ds W' = Ok sel' ->
  exists sel,
    truncateContentsToFit encode t ds W = Ok sel /\ sel `prefix_of` sel'.
Proof.
  intros Hle. rewrite !truncateContentsToFit_budgeterSelect. unfold budgeterSelect.
  intros H. ok_step H n En. rewrite En. simpl.
  destruct (Z.leb_spec W n); [exists []; split; [done|apply prefix_nil]|].
  destruct (Z.leb_spec W' n); [lia|]. by apply (greedyWalk_window W W').
Qed.

(** X2. Budgeting is idempotent: a selection put through the budgeter
    again, with the same template and window, comes back whole. *)
Theorem truncateContentsToFit_idempotent (t : string) (ds : list Item) (W : Z) :
  (sel ← truncateContentsToFit encode t ds W; truncateContentsToFit encode t sel W)
  = truncateContentsToFit encode t ds W.
Proof.
  destruct (truncateContentsToFit encode t ds W) as [sel|e] eqn:E; [|done].
  simpl. rewrite truncateContentsToFit_budgeterSelect in *.
  unfold budgeterSelect in *. ok_step E n En. rewrite En. simpl.
  destruct (Z.leb_spec W n).
  - by injection E as <-.
  - destruct (greedyWalk_prefix encode W ds sel 0 n E)
      as (rest & total & _ & Hsum & Hfit & _); [lia|].
    rewrite <- (app_nil_r sel) at 1.
    by apply (greedyWalk_unique encode W sel [] 0 n total).
Qed.

(** X3. When the template leaves room, the whole list is returned
    exactly when the tokenizer has an estimate for the template and all
    documents, wrapped, and their sum fits the window. *)
Theorem truncateContentsToFit_all_iff (t : string) (ds : list Item) (W n : Z) :
  tokens t = Ok n ->
  n < W ->
  truncateContentsToFit encode t ds W = Ok ds
  <-> exists total, cumulativeTokens encode t ds = Ok total /\ total <= W.
Proof.
  intros Hn Hroom. rewrite truncateContentsToFit_budgeterSelect.
  unfold budgeterSelect, cumulativeTokens. rewrite Hn. simpl.
  destruct (Z.leb_spec W n); [lia|]. split.
  - intros Hall.
    destruct (greedyWalk_prefix encode W ds ds 0 n Hall)
      as (rest & total & _ & Hsum & Hfit & _); [lia|].
    exists (n + total). by rewrite Hsum.
  - intros (total & Hsum & Hfit). ok_step Hsum m Em. injection Hsum as <-.
    rewrite <- (app_nil_r ds) at 1.
    by apply (greedyWalk_unique encode W ds [] 0 n m).
Qed.

End BudgeterFacts.

Lemma truncateContentsToFit_window_monotone_witness :
  exists sel,
    truncateContentsToFit unitTokens "hello" [docA; docB; docC] 40 = Ok sel
    /\ sel `prefix_of` [docA; docB].
Proof.
  apply (truncateContentsToFit_window_monotone unitTokens "hello"
           [docA; docB; docC] [docA; docB] 40 60).
  - lia.
  - reflexivity.
Defined.

Lemma truncateContentsToFit_all_iff_witness :
  truncateContentsToFit unitTokens "hello" [docA; docB] 60 = Ok [docA; docB]
  <-> exists total,
        cumulativeTokens unitTokens "hello" [docA; docB] = Ok total /\ total <= 60.
Proof.
  apply (truncateContentsToFit_all_iff unitTokens "hello" [docA; docB] 60 5).
  - reflexivity.
  - lia.
Defined.

(** ** What the ledger hands out *)

Lemma indexOf_from_lookup (u : string) (l : list string) (i : Z) :
  includes u l = true ->
  l !! Z.to_nat (indexOf_from i u l - i) = Some u.
Proof.
  revert i. induction l as [|x l IH]; intros i Hin; [discriminate|].
  simpl in *. rewrite String.eqb_sym. destruct (String.eqb u x) eqn:E.
  - apply String.eqb_eq in E. subst. by rewrite Z.sub_diag.
  - pose proof (indexOf_from_bounds (i + 1) u l Hin) as Hb.
    specialize (IH (i + 1) Hin).
    replace (Z.to_nat (indexOf_from (i + 1) u l - i))
      with (S (Z.to_nat (indexOf_from (i + 1) u l - (i + 1)))) by lia.
    done.
Qed.

(** X4. The index that the ledger returns for a URL points at that URL:
    it lies between 1 and the length of the ledger, and the ledger holds
    the URL at that position. *)
Theorem citeOrGetIndex_points_at_url (used : list string) (u : string) :
  1 <= snd (citeOrGetIndex used u)
       <= Z.of_nat (length (fst (citeOrGetIndex used u)))
  /\ fst (citeOrGetIndex used u) !! Z.to_nat (snd (citeOrGetIndex used u) - 1)
     = Some u.
Proof.
  pose proof (citeOrGetIndex_includes used u) as Hin.
  unfold citeOrGetIndex, indexOf in *. cbn [fst snd] in *.
  pose proof (indexOf_from_bounds 0 u _ Hin).
  pose proof (indexOf_from_lookup u _ 0 Hin) as Hl.
  split; [lia|].
  match goal with |- _ !! Z.to_nat ?a = _ =>
    replace a with (indexOf_from 0 u
      (if includes u used then used else used ++ [u]) - 0) by lia end.
  done.
Qed.

(** ** Where the ledger's URLs come from *)

Lemma citedFrom_refl (docs : list Item) (used : list string) :
  citedFrom docs used used.
Proof. intros u Hu. by left. Qed.

Lemma citedFrom_trans (docs : list Item) (a b c : list string) :
  citedFrom docs a b -> citedFrom docs b c -> citedFrom docs a c.
Proof.
  intros Hab Hbc u Hu. destruct (Hbc u Hu) as [Hb|Hd]; [by apply Hab|by right].
Qed.

Lemma citedFrom_docs (docs docs' : list Item) (a b : list string) :
  (forall c, In c docs -> In c docs') -> citedFrom docs a b -> citedFrom docs' a b.
Proof.
  intros Hsub Hab u Hu. destruct (Hab u Hu) as [Ha|(c & Hc & Hurl)]; [by left|].
  right. exists c. split; [by apply Hsub|done].
Qed.

Lemma resolveReference_citedFrom (T : list Item) (used used' : list string)
    (x : Q) (m : option string) :
  resolveReference T used x = Ok (used', m) -> citedFrom T used used'.
Proof.
  intros H. apply resolveReference_Ok in H as [(_ & -> & _)|(c & _ & Hc & -> & _)].
  - apply citedFrom_refl.
  - unfold citeOrGetIndex. cbn [fst].
    destruct (includes (url c) used); [apply citedFrom_refl|].
    intros u Hu. apply in_app_or in Hu as [Hu|[<-|[]]]; [by left|].
    right. exists c. split; [|done]. by eapply at_number_In.
Qed.

Lemma resolveReferences_citedFrom (T : list Item) (refNums : list Q)
    (used used' : list string) (ms : list (option string)) :
  resolveReferences T used refNums = Ok (used', ms) -> citedFrom T used used'.
Proof.
  revert used used' ms. induction refNums as [|n rest IH]; intros used used' ms H;
    simpl in H.
  - injection H as <- <-. apply citedFrom_refl.
  - ok_step H r1 E1. destruct r1 as [used1 m]. ok_step H r2 E2.
    destruct r2 as [used2 ms2]. injection H as <- <-.
    eapply citedFrom_trans; [by eapply resolveReference_citedFrom|by eapply IH].
Qed.

Lemma processParagraphs_citedFrom (T : list Item) (paras : list Paragraph)
    (used used' : list string) (ts : list string) :
  processParagraphs T used paras = Ok (used', ts) -> citedFrom T used used'.
Proof.
  revert used used' ts. induction paras as [|p rest IH]; intros used used' ts H;
    simpl in H.
  - injection H as <- <-. apply citedFrom_refl.
  - ok_step H r1 E1. destruct r1 as [used1 t]. ok_step H r2 E2.
    destruct r2 as [used2 ts2]. injection H as <- <-.
    unfold processParagraph in E1. ok_step E1 r E. destruct r as [used0 ms].
    injection E1 as <- <-.
    eapply citedFrom_trans; [by eapply resolveReferences_citedFrom|by eapply IH].
Qed.

Section LedgerSources.

Variable encode : string -> Result (list nat).
Variable generateObject : nat -> string -> Result ChapterContentObject.

Lemma truncateContentsToFit_prefix (t : string) (ds sel : list Item) (W : Z) :
  truncateContentsToFit encode t ds W = Ok sel -> sel `prefix_of` ds.
Proof.
  rewrite truncateContentsToFit_budgeterSelect. unfold budgeterSelect.
  intros H. ok_step H n En.
  destruct (Z.leb_spec W n); [injection H as <-; apply prefix_nil|].
  destruct (greedyWalk_prefix encode W ds sel 0 n H) as (rest & _ & Hds & _); [lia|].
  by exists rest.
Qed.

Lemma generateChapterContent_citedFrom (R R' : Research) (call : nat)
    (subject : string) (chapter : Chapter) (chapters : list Chapter)
    (contents : list Item) (previous : string) (body : ChapterBody) :
  generateChapterContent encode generateObject R call subject chapter chapters
    contents previous = Ok (R', body) ->
  citedFrom contents (usedReferences R) (usedReferences R').
Proof.
  intros H.
  apply generateChapterContent_inv in H
    as (W & T & object & used & texts & _ & HT & _ & Hp & -> & _).
  apply truncateContentsToFit_prefix in HT as [rest ->].
  apply processParagraphs_citedFrom in Hp. cbn [usedReferences].
  eapply citedFrom_docs; [|exact Hp].
  intros c Hin. apply in_or_app. by left.
Qed.

Lemma chapterLoop_citedFrom (subject : string) (chapters : list Chapter)
    (contents : list Item) (todo : list Chapter) (st st' : LoopState) :
  chapterLoop encode generateObject subject chapters contents todo st = Ok st' ->
  citedFrom contents (usedReferences (research st)) (usedReferences (research st')).
Proof.
  revert st. induction todo as [|chapter rest IH]; intros st H; simpl in H.
  - inversion H; subst. apply citedFrom_refl.
  - destruct (generateChapterContent _ _ _ _ _ _ _ _ _) as [[R body]|e] eqn:E;
      [|discriminate].
    simpl in H. apply IH in H. simpl in H.
    apply generateChapterContent_citedFrom in E. by eapply citedFrom_trans.
Qed.

(** X5. The chapter stage cites nothing but the corpus it was given:
    started with an empty ledger, the chapter loop ends with a ledger
    free of repetitions in which every URL is the [url] of a document of
    [contents]. *)
Theorem ledger_cites_only_the_corpus (R : Research) (subject : string)
    (chapters : list Chapter) (contents : list Item) (st : LoopState) :
  usedReferences R = [] ->
  generateChapterContents encode generateObject R subject chapters contents
  = Ok st ->
  NoDup (usedReferences (research st))
  /\ forall u, In u (usedReferences (research st)) ->
               exists c, In c contents /\ url c = u.
Proof.
  intros Hempty H. unfold generateChapterContents in H.
  pose proof (chapterLoop_grows _ _ _ _ _ _ _ _ H) as [[_ Hnd] _].
  pose proof (chapterLoop_citedFrom _ _ _ _ _ _ H) as Hc.
  cbn [research] in *. rewrite Hempty in *. split.
  - apply Hnd, NoDup_nil_2.
  - intros u Hu. by destruct (Hc u Hu) as [[]|?].
Qed.

End LedgerSources.

Lemma ledger_cites_only_the_corpus_witness :
  match generateChapterContents unitTokens sampleModel (newResearch sampleConfig)
          "solar panel recycling"
          [mkChapter 1 "Collection"; mkChapter 2 "Processing"] [docA; docB] with
  | Ok st =>
      NoDup (usedReferences (research st))
      /\ forall u, In u (usedReferences (research st)) ->
                   exists c, In c [docA; docB] /\ url c = u
  | Throw _ => False
  end.
Proof.
  destruct (generateChapterContents unitTokens sampleModel (newResearch sampleConfig)
              "solar panel recycling"
              [mkChapter 1 "Collection"; mkChapter 2 "Processing"] [docA; docB])
    as [st|e] eqn:E.
  - exact (ledger_cites_only_the_corpus unitTokens sampleModel
             (newResearch sampleConfig) _ _ _ st eq_refl E).
  - vm_compute in E. discriminate E.
Defined.

(** ** The paragraphs of a chapter *)

Lemma processParagraph_text (T : list Item) (used used' : list string)
    (para : Paragraph) (t : string) :
  processParagraph T used para = Ok (used', t) ->
  (exists suffix, t = p_text para +:+ suffix)
  /\ (List.filter (withinList (length T)) (p_references para) = [] ->
      used' = used /\ t = p_text para).
Proof.
  unfold processParagraph. intros H. ok_step H r E. destruct r as [used1 ms].
  injection H as <- <-. split; [by eexists|].
  intros Hnone. apply resolveReferences_within_only in E. rewrite Hnone in E.
  cbn in E. injection E as <- E. destruct (filterBoolean ms); [|discriminate].
  cbn [length Nat.ltb Nat.leb]. by rewrite append_empty_r.
Qed.

(** A reference that resolved to a marker is a whole number. *)
Lemma resolveReference_whole (T : list Item) (used used' : list string) (x : Q)
    (m : option string) :
  resolveReference T used x = Ok (used', m) ->
  withinList (length T) x = true -> wholeNumber x.
Proof.
  intros H Hin. apply resolveReference_Ok in H as [(Hout & _)|(c & _ & Hc & _)];
    [congruence|].
  unfold Js.at_number in Hc. destruct (Js.isInteger (x - 1)%Q) eqn:E; [|discriminate].
  by apply wholeNumber_pred, isInteger_wholeNumber.
Qed.

Lemma resolveReferences_whole (T : list Item) (refNums : list Q)
    (used used' : list string) (ms : list (option string)) :
  resolveReferences T used refNums = Ok (used', ms) ->
  forall x, In x refNums -> withinList (length T) x = true -> wholeNumber x.
Proof.
  revert used used' ms. induction refNums as [|n rest IH]; intros used used' ms H x Hx;
    [done|].
  simpl in H. ok_step H r1 E1. destruct r1 as [used1 m]. ok_step H r2 E2.
  destruct r2 as [used2 ms2].
  destruct Hx as [<-|Hx]; [by eapply resolveReference_whole|by eapply IH].
Qed.

(** The one exception that the processing of an answer throws. *)
Lemma resolveReferences_error (T : list Item) (refNums : list Q)
    (used : list string) (e : Error) :
  resolveReferences T used refNums = Throw e ->
  e = TypeError "truncatedContents[contentIndex].url".
Proof.
  revert used. induction refNums as [|n rest IH]; intros used H; [discriminate|].
  simpl in H. destruct (resolveReference T used n) as [[used1 m]|e1] eqn:E1.
  - simpl in H. destruct (resolveReferences T used1 rest) as [[used2 ms]|e2] eqn:E2;
      [discriminate|].
    injection H as <-. by eapply IH.
  - injection H as <-. rewrite resolveReference_guard in E1.
    destruct (withinList (length T) n); [|discriminate].
    destruct (Js.at_number T (n - 1)%Q); [discriminate|]. by injection E1 as <-.
Qed.

Lemma processParagraphs_error (T : list Item) (paras : list Paragraph)
    (used : list string) (e : Error) :
  processParagraphs T used paras = Throw e ->
  e = TypeError "truncatedContents[contentIndex].url".
Proof.
  revert used. induction paras as [|p rest IH]; intros used H; [discriminate|].
  simpl in H. destruct (processParagraph T used p) as [[used1 t]|e1] eqn:E1.
  - simpl in H. destruct (processParagraphs T used1 rest) as [[used2 ts]|e2] eqn:E2;
      [discriminate|].
    injection H as <-. by eapply IH.
  - injection H as <-. unfold processParagraph in E1.
    destruct (resolveReferences T used (p_references p)) as [[u ms]|e2] eqn:E2;
      [discriminate|].
    injection E1 as <-. by eapply resolveReferences_error.
Qed.

Lemma processParagraphs_whole (T : list Item) (paras : list Paragraph)
    (used used' : list string) (ts : list string) :
  processParagraphs T used paras = Ok (used', ts) ->
  forall para x, In para paras -> In x (p_references para) ->
                 withinList (length T) x = true -> wholeNumber x.
Proof.
  revert used used' ts. induction paras as [|p rest IH];
    intros used used' ts H para x Hp Hx; [done|].
  simpl in H. ok_step H r1 E1. destruct r1 as [used1 t]. ok_step H r2 E2.
  destruct r2 as [used2 ts2].
  destruct Hp as [<-|Hp]; [|by eapply IH].
  unfold processParagraph in E1. ok_step E1 r E. destruct r as [used0 ms].
  by eapply resolveReferences_whole.
Qed.

(** X6. When the processing of an answer returns, the model's
    paragraphs are kept in number and order, and each is kept verbatim:
    the processed text of a paragraph starts with the paragraph's own
    text. It returns when every reference number that the guard lets
    through is a whole number, and throws the [TypeError] of
    [undefined.url] when one is not; when the guard lets no number
    through, it returns the texts as they are and the ledger as it
    was. *)
Theorem paragraphs_kept_verbatim (T : list Item) (paras : list Paragraph)
    (used : list string) :
  (forall used' texts,
     processParagraphs T used paras = Ok (used', texts) ->
     length texts = length paras
     /\ forall i para t,
          paras !! i = Some para -> texts !! i = Some t ->
          exists suffix, t = p_text para +:+ suffix)
  /\ ((forall para x, In para paras -> In x (p_references para) ->
                      withinList (length T) x = true -> wholeNumber x) ->
      exists used' texts, processParagraphs T used paras = Ok (used', texts))
  /\ ((exists para x, In para paras /\ In x (p_references para)
                      /\ withinList (length T) x = true /\ ~ wholeNumber x) ->
      processParagraphs T used paras
      = Throw (TypeError "truncatedContents[contentIndex].url"))
  /\ (Forall (fun para =>
                List.filter (withinList (length T)) (p_references para) = []) paras ->
      processParagraphs T used paras = Ok (used, map p_text paras)).
Proof.
  split; [|split; [|split]].
  - revert used. induction paras as [|p rest IH]; intros used used' texts H.
    + injection H as <- <-. split; [done|]. intros i para t Hi; by destruct i.
    + cbn [processParagraphs] in H. ok_step H r1 E1. destruct r1 as [used1 t1].
      ok_step H r2 E2. destruct r2 as [used2 ts]. injection H as <- <-.
      destruct (processParagraph_text _ _ _ _ _ E1) as [[suffix Hs] _].
      destruct (IH _ _ _ E2) as [Hlen Htexts]. split; [simpl; by rewrite Hlen|].
      intros [|i] para t Hp Ht; simpl in *.
      * inversion Hp; inversion Ht; subst. by exists suffix.
      * by eapply Htexts.
  - intros Hall. destruct (processParagraphs_returns T paras used Hall) as [[u ts] ->].
    by eexists _, _.
  - intros (para & x & Hp & Hx & Hin & Hfrac).
    destruct (processParagraphs T used paras) as [[u ts]|e] eqn:E.
    + destruct Hfrac. by eapply processParagraphs_whole.
    + f_equal. by eapply processParagraphs_error.
  - revert used. induction paras as [|p rest IH]; intros used Hnone; [done|].
    apply Forall_cons in Hnone as [H1 H2]. cbn [processParagraphs map].
    destruct (resolveReferences_returns T (p_references p) used) as [[u ms] E].
    { intros x Hx Hin.
      assert (In x (List.filter (withinList (length T)) (p_references p))) as Hf
        by (by apply filter_In).
      by rewrite H1 in Hf. }
    assert (processParagraph T used p
            = Ok (u, p_text p +:+ (if (0 <? length (filterBoolean ms))%nat
                                   then " " +:+ Js.join "" (filterBoolean ms)
                                   else ""))) as Ep
      by (unfold processParagraph; by rewrite E).
    destruct (processParagraph_text _ _ _ _ _ Ep) as [_ Hplain].
    destruct (Hplain H1) as [-> Ht]. rewrite Ep, Ht. cbn [mbind Result_bind].
    rewrite (IH used H2). done.
Qed.

Lemma paragraphs_kept_verbatim_witness :
  processParagraphs [docA; docB] [url docA]
    [mkParagraph "One." []; mkParagraph "Two." [0%Q; 3%Q; 3.5%Q]]
  = Ok ([url docA], ["One."; "Two."]).
Proof.
  apply (proj2 (proj2 (proj2 (paragraphs_kept_verbatim [docA; docB]
                         [mkParagraph "One." [];
                          mkParagraph "Two." [0%Q; 3%Q; 3.5%Q]]
                         [url docA])))).
  repeat constructor.
Defined.

(** ** The crawl stage and its cache *)

Lemma lookupLoop_misses (d : Disk) (urls : list string) (R R1 : Research)
    (uncached uncached1 : list string) :
  lookupLoop d urls R uncached = Ok (R1, uncached1) ->
  uncached1 = uncached ++ misses d urls.
Proof.
  revert R uncached. induction urls as [|u rest IH]; intros R uncached H; simpl in H.
  - inversion H. by rewrite app_nil_r.
  - unfold misses. simpl. destruct (pathExists d (cachePath u)); simpl.
    + destruct (readJSON d (cachePath u)) as [cached|e]; [|discriminate].
      simpl in H. by apply IH in H.
    + apply IH in H. by rewrite <- app_assoc in H.
Qed.

Lemma lookupLoop_frame (d : Disk) (urls : list string) (R R1 : Research)
    (uncached uncached1 : list string) :
  lookupLoop d urls R uncached = Ok (R1, uncached1) ->
  config R1 = config R /\ usedReferences R1 = usedReferences R.
Proof.
  revert R uncached. induction urls as [|u rest IH]; intros R uncached H; simpl in H.
  - by inversion H.
  - destruct (pathExists d (cachePath u)).
    + destruct (readJSON d (cachePath u)) as [cached|e]; [|discriminate].
      simpl in H. by apply IH in H.
    + by apply IH in H.
Qed.

Lemma storeLoop_frame (d d' : Disk) (items : list Item) (R R' : Research) :
  storeLoop d items R = Ok (d', R') ->
  config R' = config R /\ usedReferences R' = usedReferences R
  /\ writable d' = writable d /\ directories d' = directories d.
Proof.
  revert d R. induction items as [|item rest IH]; intros d R H; simpl in H.
  - by inversion H.
  - rewrite writeJSON_cachePath in H. destruct (writable d) eqn:Ew; [|discriminate].
    simpl in H. by apply IH in H as (Hc & Hu & Hw & Hd).
Qed.

Section CrawlFacts.

Variable crawler : list string -> Result (list Item).

(** X7. Only the missing subset is fetched: the crawl actor is called
    with the URLs of the batch that have no record, in batch order, and
    not at all when there is none, so the result of [crawlUrls] depends
    on the actor only through its answer to that one call. *)
Theorem crawlUrls_fetches_only_misses (other : list string -> Result (list Item))
    (d : Disk) (R : Research) (urls : list string) :
  misses d urls = [] \/ crawler (misses d urls) = other (misses d urls) ->
  crawlUrls crawler d R urls = crawlUrls other d R urls.
Proof.
  intros Hsame. unfold crawlUrls.
  destruct (lookupLoop d urls R []) as [[R1 uncached]|e] eqn:E; [|done].
  apply lookupLoop_misses in E. cbn in E. subst uncached. cbn.
  destruct Hsame as [-> | ->]; done.
Qed.

End CrawlFacts.

Lemma crawlUrls_fetches_only_misses_witness :
  crawlUrls echoCrawler diskWithA (newResearch sampleConfig)
    [url docA; "HTTP://A.EXAMPLE/SOLAR"]
  = crawlUrls downCrawler diskWithA (newResearch sampleConfig)
      [url docA; "HTTP://A.EXAMPLE/SOLAR"].
Proof.
  apply (crawlUrls_fetches_only_misses echoCrawler downCrawler).
  left. vm_compute. reflexivity.
Defined.

(** What the second loop leaves on the disk. *)
Lemma storeLoop_files (d d' : Disk) (items : list Item) (R R' : Research) :
  storeLoop d items R = Ok (d', R') ->
  forall p,
    files d' !! p = files d !! p
    \/ exists item,
         In item items /\ p = cachePath (url item)
         /\ files d' !! p = Some (JsonFile item).
Proof.
  revert d R. induction items as [|item rest IH]; intros d R H p; simpl in H.
  - inversion H. by left.
  - destruct (writeJSON d _ item) as [d1|e] eqn:E; [|discriminate]. simpl in H.
    apply writeJSON_spec in E as [E _].
    destruct (IH _ _ H p) as [Hsame|(it & Hin & Hp & Hf)].
    + rewrite Hsame, E. destruct (decide (cachePath (url item) = p)) as [<-|Hne].
      * right. exists item. rewrite lookup_insert_eq. split; [by left|done].
      * left. by rewrite lookup_insert_ne.
    + right. exists it. split; [by right|done].
Qed.

Section CrawlDisk.

Variable crawler : list string -> Result (list Item).

(** X8. The crawl stage never deletes a file and writes nothing but
    cache records: after [crawlUrls], a path holds what it held before,
    or it is the record path of an item the actor returned and holds
    that item. *)
Theorem crawlUrls_only_adds_records (d d' : Disk) (R R' : Research)
    (urls : list string) (corpus : list Item) :
  crawlUrls crawler d R urls = Ok (d', R', corpus) ->
  (forall p, is_Some (files d !! p) -> is_Some (files d' !! p))
  /\ forall p,
       files d' !! p = files d !! p
       \/ exists items item,
            crawler (misses d urls) = Ok items
            /\ In item items /\ p = cachePath (url item)
            /\ files d' !! p = Some (JsonFile item).
Proof.
  unfold crawlUrls. intros H.
  destruct (lookupLoop d urls R []) as [[R1 uncached]|e] eqn:E; [|discriminate].
  apply lookupLoop_misses in E. cbn in E. subst uncached.
  destruct (misses d urls) as [|m ms] eqn:Em; cbn in H.
  - inversion H; subst. split; [done|]. intros p. by left.
  - destruct (crawler (m :: ms)) as [items|e] eqn:Ec; [|discriminate].
    cbn in H. destruct (storeLoop d items R1) as [[d2 R2]|e] eqn:Es; [|discriminate].
    cbn in H. inversion H; subst; clear H.
    pose proof (storeLoop_files _ _ _ _ _ Es) as Hfiles. split.
    + intros p Hp. destruct (Hfiles p) as [->|(item & _ & _ & ->)]; [done|by eexists].
    + intros p. destruct (Hfiles p) as [Hs|(item & Hin & Hp & Hf)]; [by left|].
      right. by exists items, item.
Qed.

End CrawlDisk.

Lemma crawlUrls_only_adds_records_witness :
  match crawlUrls echoCrawler diskWithA (newResearch sampleConfig)
          [url docA; url docB] with
  | Ok (d', _, _) =>
      forall p, is_Some (files diskWithA !! p) -> is_Some (files d' !! p)
  | Throw _ => False
  end.
Proof.
  destruct (crawlUrls echoCrawler diskWithA (newResearch sampleConfig)
              [url docA; url docB]) as [[[d' R'] corpus]|e] eqn:E.
  - exact (proj1 (crawlUrls_only_adds_records echoCrawler _ _ _ _ _ _ E)).
  - vm_compute in E. discriminate E.
Defined.

(** ** The in-memory corpus *)

Lemma assign_keys {V} (key : string) (v : V) (o : JsObject V) :
  createdKeys (assign key v o)
  = if includes key (createdKeys o) then createdKeys o else createdKeys o ++ [key].
Proof.
  induction o as [|[k v'] o IH]; [done|]. cbn.
  rewrite String.eqb_sym. destruct (String.eqb key k) eqn:E; cbn; [done|].
  unfold createdKeys in *. rewrite IH. unfold includes.
  by destruct (existsb (String.eqb key) (map fst o)).
Qed.

Lemma obj_set_keys {V} (key : string) (v : V) (o : JsObject V) :
  createdKeys (obj_set key v o)
  = if String.eqb key "__proto__" || includes key (createdKeys o)
    then createdKeys o else createdKeys o ++ [key].
Proof.
  unfold obj_set. destruct (String.eqb key "__proto__"); [done|]. apply assign_keys.
Qed.

Lemma obj_set_In {V} (key : string) (v : V) (o : JsObject V) (k : string) (x : V) :
  In (k, x) (obj_set key v o) -> (k = key /\ x = v) \/ In (k, x) o.
Proof.
  unfold obj_set. destruct (String.eqb key "__proto__"); [by right|].
  induction o as [|[k' v'] o IH]; cbn.
  - intros [H|[]]. inversion H. by left.
  - destruct (String.eqb k' key) eqn:E; cbn.
    + apply String.eqb_eq in E. subst. intros [H|H]; [|by right; right].
      inversion H. by left.
    + intros [H|H]; [by right; left|]. destruct (IH H) as [?|?]; [by left|].
      by right; right.
Qed.

Lemma keys_grow_step (keys : list string) (key : string) (skip : bool) :
  grows keys (if skip || includes key keys then keys else keys ++ [key]).
Proof.
  destruct skip; [apply grows_refl|]. cbn [orb].
  destruct (includes key keys) eqn:E; [apply grows_refl|].
  split; [by apply prefix_app_r|].
  intros Hnd. apply NoDup_app. split; [done|]. split; [|apply NoDup_singleton].
  intros x Hx Hk. apply list_elem_of_singleton in Hk. subst.
  apply includes_false in E. apply E. by apply list_elem_of_In.
Qed.

Lemma remember_keeps (R : Research) (key : string) (item : Item) :
  grows (createdKeys (cache R)) (createdKeys (cache (remember R key item)))
  /\ usedReferences (remember R key item) = usedReferences R
  /\ config (remember R key item) = config R.
Proof.
  unfold remember. cbn [cache usedReferences config]. rewrite obj_set_keys.
  split; [|done]. apply keys_grow_step.
Qed.

Lemma lookupLoop_keys (d : Disk) (urls : list string) (R R1 : Research)
    (uncached uncached1 : list string) :
  lookupLoop d urls R uncached = Ok (R1, uncached1) ->
  grows (createdKeys (cache R)) (createdKeys (cache R1)).
Proof.
  revert R uncached. induction urls as [|u rest IH]; intros R uncached H; simpl in H.
  - inversion H. apply grows_refl.
  - destruct (pathExists d (cachePath u)); [|by apply IH in H].
    destruct (readJSON d (cachePath u)) as [cached|e]; [|discriminate].
    simpl in H. apply IH in H. eapply grows_trans; [|exact H].
    apply remember_keeps.
Qed.

Lemma storeLoop_keys (d d' : Disk) (items : list Item) (R R' : Research) :
  storeLoop d items R = Ok (d', R') ->
  grows (createdKeys (cache R)) (createdKeys (cache R')).
Proof.
  revert d R. induction items as [|item rest IH]; intros d R H; simpl in H.
  - inversion H. apply grows_refl.
  - destruct (writeJSON d _ item) as [d1|e]; [|discriminate]. simpl in H.
    apply IH in H. eapply grows_trans; [|exact H]. apply remember_keeps.
Qed.

(** [Object.keys] and [Object.values] list every own property once. *)
Lemma insertIndexed_perm {V} (n : N) (e : string * V)
    (sorted : list (N * (string * V))) :
  insertIndexed n e sorted ≡ₚ (n, e) :: sorted.
Proof.
  induction sorted as [|[m e'] rest IH]; [done|]. cbn.
  destruct (n <=? m)%N; [done|]. rewrite IH. apply Permutation_swap.
Qed.

Lemma indexedProperties_perm {V} (o : JsObject V) :
  map snd (indexedProperties o)
  ≡ₚ List.filter (fun e => Js.isArrayIndex (fst e)) o.
Proof.
  induction o as [|e o IH]; [done|]. cbn. unfold Js.isArrayIndex.
  destruct (Js.arrayIndex (fst e)) as [n|]; [|done].
  rewrite insertIndexed_perm. cbn. by rewrite IH.
Qed.

Lemma ownProperties_perm {V} (o : JsObject V) : ownProperties o ≡ₚ o.
Proof.
  unfold ownProperties. rewrite indexedProperties_perm. unfold namedProperties.
  induction o as [|e o IH]; [done|]. cbn.
  destruct (Js.isArrayIndex (fst e)); cbn.
  - by rewrite IH.
  - rewrite <- Permutation_middle. by rewrite IH.
Qed.

Lemma Object_keys_perm {V} (o : JsObject V) : Object_keys o ≡ₚ createdKeys o.
Proof. unfold Object_keys, createdKeys. by rewrite ownProperties_perm. Qed.

Lemma Object_values_In {V} (o : JsObject V) (v : V) :
  In v (Object_values o) -> exists k, In (k, v) o.
Proof.
  unfold Object_values. intros H. apply in_map_iff in H as ([k x] & <- & Hin).
  exists k. eapply Permutation_in; [apply ownProperties_perm|done].
Qed.

(** The keys that are no array index keep the order of their
    creation. *)
Lemma namedProperties_keys {V} (o : JsObject V) :
  map fst (namedProperties o) = List.filter namedKey (createdKeys o).
Proof.
  unfold namedProperties, createdKeys. induction o as [|e o IH]; [done|]. cbn.
  unfold namedKey at 1. destruct (Js.isArrayIndex (fst e)); cbn; by rewrite IH.
Qed.

Lemma filter_all (p : string -> bool) (l : list string) :
  Forall (fun k => p k = true) l -> List.filter p l = l.
Proof.
  induction 1 as [|k l Hk _ IH]; [done|]. cbn. by rewrite Hk, IH.
Qed.

Lemma Object_keys_named {V} (o : JsObject V) :
  Forall (fun k => Js.isArrayIndex k = false) (createdKeys o) ->
  Object_keys o = createdKeys o.
Proof.
  intros H. unfold Object_keys. rewrite ownProperties_named; [done|].
  unfold createdKeys in H. by apply Forall_map in H.
Qed.

Section CorpusFacts.

Variable crawler : list string -> Result (list Item).

(** What [crawlUrls] returns and what it leaves in the object. *)
Lemma crawlUrls_inv (d d' : Disk) (R R' : Research) (urls : list string)
    (corpus : list Item) :
  crawlUrls crawler d R urls = Ok (d', R', corpus) ->
  exists R1,
    lookupLoop d urls R [] = Ok (R1, misses d urls)
    /\ corpus = Object_values (cache R')
    /\ ((misses d urls = [] /\ d' = d /\ R' = R1)
        \/ exists items,
             misses d urls <> []
             /\ crawler (misses d urls) = Ok items
             /\ storeLoop d items R1 = Ok (d', R')).
Proof.
  unfold crawlUrls. intros H.
  destruct (lookupLoop d urls R []) as [[R1 uncached]|e] eqn:E; [|discriminate].
  pose proof (lookupLoop_misses _ _ _ _ _ _ E) as Hm. cbn in Hm. subst uncached.
  exists R1. split; [done|].
  destruct (misses d urls) as [|m ms] eqn:Em; cbn in H.
  - inversion H; subst. split; [done|]. by left.
  - destruct (crawler (m :: ms)) as [items|e] eqn:Ec; [|discriminate].
    cbn in H. destruct (storeLoop d items R1) as [[d2 R2]|e] eqn:Es; [|discriminate].
    cbn in H. inversion H; subst; clear H. split; [done|]. right. by exists items.
Qed.

Lemma crawlUrls_frame (d d' : Disk) (R R' : Research) (urls : list string)
    (corpus : list Item) :
  crawlUrls crawler d R urls = Ok (d', R', corpus) ->
  grows (createdKeys (cache R)) (createdKeys (cache R'))
  /\ usedReferences R' = usedReferences R
  /\ config R' = config R.
Proof.
  intros H. apply crawlUrls_inv in H as (R1 & Hl & _ & Hrest).
  pose proof (lookupLoop_keys _ _ _ _ _ _ Hl) as Hk1.
  pose proof (lookupLoop_frame _ _ _ _ _ _ Hl) as [Hc1 Hu1].
  destruct Hrest as [(_ & _ & ->)|(items & _ & _ & Hs)]; [done|].
  pose proof (storeLoop_keys _ _ _ _ _ Hs) as Hk2.
  pose proof (storeLoop_frame _ _ _ _ _ Hs) as (Hc2 & Hu2 & _).
  split; [by eapply grows_trans|]. split; congruence.
Qed.

(** X9. The crawl stage only adds to the corpus: the documents it
    returns are those of the object [cache], one per own key, in the
    order of [Object.values]: array-index keys first, then the other
    keys as they were created. The keys of earlier batches stay, none
    is repeated, and in the order of creation they stay in front; so do
    the keys that are no array index in the order of [Object.keys], and
    all keys when the object has no array-index key, while a key such
    as [7] moves in front of older ones. The ledger and the
    configuration are not touched. *)
Theorem crawlUrls_corpus_accumulates (d d' : Disk) (R R' : Research)
    (urls : list string) (corpus : list Item) :
  crawlUrls crawler d R urls = Ok (d', R', corpus) ->
  corpus = Object_values (cache R')
  /\ length corpus = length (Object_keys (cache R'))
  /\ Object_keys (cache R')
     = map fst (map snd (indexedProperties (cache R')))
       ++ List.filter namedKey (createdKeys (cache R'))
  /\ createdKeys (cache R) `prefix_of` createdKeys (cache R')
  /\ List.filter namedKey (Object_keys (cache R))
     `prefix_of` List.filter namedKey (Object_keys (cache R'))
  /\ (forall k, In k (Object_keys (cache R)) -> In k (Object_keys (cache R')))
  /\ (NoDup (Object_keys (cache R)) -> NoDup (Object_keys (cache R')))
  /\ (Forall (fun k => Js.isArrayIndex k = false) (Object_keys (cache R')) ->
      Object_keys (cache R) `prefix_of` Object_keys (cache R'))
  /\ Object_keys (obj_set "7" docB (obj_set "http://a.example/solar" docA []))
     = ["7"; "http://a.example/solar"]
  /\ usedReferences R' = usedReferences R
  /\ config R' = config R.
Proof.
  intros H. pose proof (crawlUrls_frame _ _ _ _ _ _ H) as ([Hpre Hnd] & Hu & Hc).
  apply crawlUrls_inv in H as (R1 & _ & -> & _).
  assert (forall o : JsObject Item,
            List.filter namedKey (Object_keys o)
            = List.filter namedKey (createdKeys o)) as Hnamed.
  { intros o. unfold Object_keys, ownProperties.
    rewrite map_app, List.filter_app, namedProperties_keys.
    assert (List.filter namedKey (map fst (map snd (indexedProperties o))) = [])
      as ->.
    { induction o as [|e o IH]; [done|]. cbn [indexedProperties].
      destruct (Js.arrayIndex (fst e)) as [n|] eqn:En; [|done].
      induction (indexedProperties o) as [|[m e'] rest IHr]; cbn.
      - unfold namedKey, Js.isArrayIndex. by rewrite En.
      - destruct (n <=? m)%N; cbn.
        + unfold namedKey at 1, Js.isArrayIndex at 1. rewrite En. cbn.
          exact IH.
        + cbn in IH. destruct (namedKey (fst e')); [discriminate|].
          apply IHr. exact IH. }
    cbn. clear. induction (createdKeys o) as [|k l IH]; [done|]. cbn.
    destruct (namedKey k) eqn:E; cbn; [rewrite E|]; by rewrite IH. }
  split; [done|]. split; [unfold Object_values, Object_keys; by rewrite !length_map|].
  split; [unfold Object_keys, ownProperties; by rewrite map_app, namedProperties_keys|].
  split; [done|]. split.
  { rewrite !Hnamed. destruct Hpre as [added ->]. rewrite List.filter_app.
    by apply prefix_app_r. }
  split.
  { intros k Hk. eapply Permutation_in; [symmetry; apply Object_keys_perm|].
    destruct Hpre as [added ->]. apply in_or_app. left.
    eapply Permutation_in; [apply Object_keys_perm|done]. }
  split.
  { intros Hn. rewrite Object_keys_perm. apply Hnd. by rewrite <- Object_keys_perm. }
  split; [|done].
  intros Hall. rewrite Object_keys_perm in Hall.
  rewrite (Object_keys_named (cache R')) by done.
  rewrite Object_keys_named; [done|].
  destruct Hpre as [added Hadded]. rewrite Hadded in Hall.
  by apply Forall_app in Hall as [? _].
Qed.

Lemma remember_covered (R : Research) (key : string) (item : Item) :
  url item = key -> corpusCovered R -> corpusCovered (remember R key item).
Proof.
  intros Hkey Hcov k x Hin. cbn in *. apply obj_set_In in Hin as [[-> ->]|Hin].
  - rewrite Hkey, lookup_insert_eq. by eexists.
  - apply lookup_insert_is_Some'. right. by eapply Hcov.
Qed.

Lemma lookupLoop_covered (d : Disk) (urls : list string) (R R1 : Research)
    (uncached uncached1 : list string) :
  (forall u, In u urls -> recordFaithful d u) ->
  corpusCovered R ->
  lookupLoop d urls R uncached = Ok (R1, uncached1) ->
  corpusCovered R1.
Proof.
  revert R uncached. induction urls as [|u rest IH]; intros R uncached Hf Hcov H;
    simpl in H.
  - by inversion H; subst.
  - assert (forall v, In v rest -> recordFaithful d v) as Hrest
      by (intros v Hv; apply Hf; by right).
    destruct (pathExists d (cachePath u)); [|by eapply IH].
    assert (recordFaithful d u) as Hu by (apply Hf; by left).
    unfold recordFaithful in Hu. unfold readJSON in H.
    destruct (files d !! cachePath u) as [[item| |c]|]; try done.
    simpl in H. eapply IH; [done| |exact H]. by apply remember_covered.
Qed.

Lemma storeLoop_covered (d d' : Disk) (items : list Item) (R R' : Research) :
  corpusCovered R -> storeLoop d items R = Ok (d', R') -> corpusCovered R'.
Proof.
  revert d R. induction items as [|item rest IH]; intros d R Hcov H; simpl in H.
  - by inversion H; subst.
  - destruct (writeJSON d _ item) as [d1|e]; [|discriminate]. simpl in H.
    eapply IH; [|exact H]. by apply remember_covered.
Qed.

Lemma crawlUrls_covered (d d' : Disk) (R R' : Research) (urls : list string)
    (corpus : list Item) :
  (forall u, In u urls -> recordFaithful d u) ->
  corpusCovered R ->
  crawlUrls crawler d R urls = Ok (d', R', corpus) ->
  corpusCovered R' /\ corpus = Object_values (cache R').
Proof.
  intros Hf Hcov H. apply crawlUrls_inv in H as (R1 & Hl & -> & Hrest).
  pose proof (lookupLoop_covered _ _ _ _ _ _ Hf Hcov Hl) as Hcov1.
  split; [|done].
  destruct Hrest as [(_ & _ & ->)|(items & _ & _ & Hs)]; [done|].
  by eapply storeLoop_covered.
Qed.

(** X10. When every record read for the batch carries the URL it is
    looked up by, every document of the corpus that [crawlUrls] returns
    has its title entry in [references] under its own [url]. *)
Theorem crawlUrls_references_cover_corpus (d d' : Disk) (R R' : Research)
    (urls : list string) (corpus : list Item) :
  (forall u, In u urls -> recordFaithful d u) ->
  corpusCovered R ->
  crawlUrls crawler d R urls = Ok (d', R', corpus) ->
  corpusCovered R'
  /\ forall c, In c corpus -> is_Some (references R' !! url c).
Proof.
  intros Hf Hcov H.
  destruct (crawlUrls_covered _ _ _ _ _ _ Hf Hcov H) as [Hcov' ->].
  split; [done|]. intros c Hc. apply Object_values_In in Hc as [k Hin].
  by eapply Hcov'.
Qed.

End CorpusFacts.

Lemma crawlUrls_corpus_accumulates_witness :
  match crawlUrls echoCrawler diskWithA
          (remember (newResearch sampleConfig) (url docC) docC)
          [url docA; url docB] with
  | Ok (_, R', corpus) =>
      corpus = Object_values (cache R')
      /\ length corpus = length (Object_keys (cache R'))
      /\ [url docC] `prefix_of` createdKeys (cache R')
  | Throw _ => False
  end.
Proof.
  destruct (crawlUrls echoCrawler diskWithA
              (remember (newResearch sampleConfig) (url docC) docC)
              [url docA; url docB]) as [[[d' R'] corpus]|e] eqn:E.
  - destruct (crawlUrls_corpus_accumulates echoCrawler _ _ _ _ _ _ E)
      as (H1 & H2 & _ & H4 & _).
    exact (conj H1 (conj H2 H4)).
  - vm_compute in E. discriminate E.
Defined.

Lemma crawlUrls_references_cover_corpus_witness :
  match crawlUrls echoCrawler diskWithA (newResearch sampleConfig)
          [url docA; url docB] with
  | Ok (_, R', corpus) =>
      forall c, In c corpus -> is_Some (references R' !! url c)
  | Throw _ => False
  end.
Proof.
  destruct (crawlUrls echoCrawler diskWithA (newResearch sampleConfig)
              [url docA; url docB]) as [[[d' R'] corpus]|e] eqn:E.
  - refine (proj2 (crawlUrls_references_cover_corpus echoCrawler diskWithA _
                     (newResearch sampleConfig) _ [url docA; url docB] _ _ _ E)).
    + intros u [<-|[<-|[]]]; vm_compute; done.
    + intros k item [].
  - vm_compute in E. discriminate E.
Defined.

(** ** From the crawl to the written report *)

Lemma referenceLines_missing (refs : gmap string Reference) (used : list string)
    (start : nat) (u : string) :
  In u used -> refs !! u = None ->
  referenceLines refs start used = Throw (TypeError "ref.title").
Proof.
  revert start. induction used as [|v used IH]; intros start Hin Hnone; [done|].
  cbn [referenceLines]. unfold referenceLine.
  destruct (refs !! v) as [ref|] eqn:Ev; [|done]. cbn.
  destruct Hin as [->|Hin]; [congruence|]. by rewrite IH.
Qed.

Lemma lookupLoop_returns (d : Disk) (urls : list string) (R : Research)
    (uncached : list string) :
  (forall u, In u urls -> recordFaithful d u) ->
  exists R1 uncached1, lookupLoop d urls R uncached = Ok (R1, uncached1).
Proof.
  revert R uncached. induction urls as [|u rest IH]; intros R uncached Hf.
  - by eexists _, _.
  - assert (forall v, In v rest -> recordFaithful d v) as Hrest
      by (intros v Hv; apply Hf; by right).
    assert (recordFaithful d u) as Hu by (apply Hf; by left).
    unfold recordFaithful in Hu.
    destruct (files d !! cachePath u) as [[item| |c]|] eqn:E; try done.
    + rewrite (lookupLoop_hit _ _ _ _ _ item) by done. by apply IH.
    + rewrite lookupLoop_miss by done. by apply IH.
Qed.

Lemma storeLoop_returns (d : Disk) (items : list Item) (R : Research) :
  writable d = true -> exists d' R', storeLoop d items R = Ok (d', R').
Proof.
  revert d R. induction items as [|item rest IH]; intros d R Hw.
  - by eexists _, _.
  - simpl. rewrite writeJSON_cachePath, Hw. simpl. by apply IH.
Qed.

(** The crawl leaves the directories as they are, and a disk that took
    writes still takes them. *)
Lemma crawlUrls_canWrite (crawler : list string -> Result (list Item))
    (d d' : Disk) (R R' : Research) (urls : list string) (corpus : list Item)
    (p : string) :
  crawlUrls crawler d R urls = Ok (d', R', corpus) ->
  canWrite d p = true -> canWrite d' p = true.
Proof.
  intros H Hp. apply crawlUrls_inv in H as (R1 & _ & _ & Hrest).
  destruct Hrest as [(_ & -> & _)|(items & _ & _ & Hs)]; [done|].
  apply storeLoop_frame in Hs as (_ & _ & Hw & Hd).
  unfold canWrite, directoryExists in *. by rewrite Hw, Hd.
Qed.

(** *** The paths of the two report files *)

Lemma length_append (a b : string) :
  String.length (a +:+ b) = (String.length a + String.length b)%nat.
Proof. induction a as [|c a IH]; [done|]. rewrite append_cons. simpl. by rewrite IH. Qed.

Lemma long_segment (s : string) :
  (3 <= String.length s)%nat ->
  String.eqb s "" = false /\ isDot s = false /\ isDotDot s = false.
Proof.
  intros H. unfold isDot, isDotDot. rewrite !String.eqb_neq.
  repeat split; intros ->; simpl in H; lia.
Qed.

(** Appending code units other than the slash extends the last
    segment. *)
Lemma split_last_append (a b : string) :
  allUnits notSlash b = true ->
  exists init l,
    Js.split "/" a = init ++ [l] /\ Js.split "/" (a +:+ b) = init ++ [l +:+ b].
Proof.
  intros Hb. induction a as [|c a (init & l & Ha & Hab)].
  - exists [], "". split; [done|]. by apply split_noSlash.
  - rewrite append_cons. cbn [Js.split]. rewrite Ha, Hab.
    destruct (Ascii.eqb c "/").
    + by exists ("" :: init), l.
    + destruct init as [|p init]; cbn.
      * by exists [], (String c l).
      * by exists (String c p :: init), l.
Qed.

(** A last segment that is a name stays the last segment. *)
Lemma normalizeSegments_last (allowAboveRoot : bool) (stack init : list string)
    (last : string) :
  String.eqb last "" = false -> isDot last = false -> isDotDot last = false ->
  exists front,
    normalizeSegments allowAboveRoot stack (init ++ [last]) = front ++ [last].
Proof.
  intros H1 H2 H3. revert stack. induction init as [|s init IH]; intros stack.
  - cbn. rewrite H1, H2, H3. cbn. by exists (rev stack).
  - cbn [app normalizeSegments].
    destruct (String.eqb s "" || isDot s); [apply IH|].
    destruct (isDotDot s); [|apply IH].
    destruct stack as [|top below]; [apply IH|].
    destruct (isDotDot top); apply IH.
Qed.

Lemma join_last (sep : string) (front : list string) (last : string) :
  exists text, Js.join sep (front ++ [last]) = text +:+ last.
Proof.
  destruct front as [|x front]; [by exists ""|].
  exists (Js.join sep (x :: front) +:+ sep). by rewrite join_snoc, !append_assoc.
Qed.

(** Whatever the name, the path of a report file ends in the file's
    extension. *)
Lemma path_join_extension (name ext : string) :
  allUnits notSlash ext = true -> (3 <= String.length ext)%nat ->
  exists front, path_join "reports" (name +:+ ext) = front +:+ ext.
Proof.
  intros Hext Hlen.
  assert (forall s, (3 <= String.length (s +:+ ext))%nat) as Hlong
    by (intros s; rewrite length_append; lia).
  unfold path_join. cbn [String.eqb].
  destruct (long_segment _ (Hlong name)) as (-> & _ & _).
  unfold path_normalize.
  assert (String.eqb ("reports" +:+ "/" +:+ name +:+ ext) "" = false) as ->
    by reflexivity.
  assert (startsWithSlash ("reports" +:+ "/" +:+ name +:+ ext) = false) as ->
    by reflexivity.
  assert ("reports" +:+ "/" +:+ name +:+ ext = ("reports/" +:+ name) +:+ ext) as ->
    by (by rewrite append_assoc).
  assert (endsWithSlash (("reports/" +:+ name) +:+ ext) = false) as ->.
  { rewrite endsWithSlash_append; [by apply endsWithSlash_noSlash|].
    intros ->. simpl in Hlen. lia. }
  destruct (split_last_append ("reports/" +:+ name) ext Hext)
    as (init & l & _ & ->).
  destruct (long_segment _ (Hlong l)) as (H1 & H2 & H3).
  destruct (normalizeSegments_last (negb false) [] init (l +:+ ext) H1 H2 H3)
    as [front ->].
  destruct (join_last "/" front (l +:+ ext)) as [text ->].
  assert (String.eqb (text +:+ l +:+ ext) "" = false) as ->.
  { rewrite <- append_assoc. by destruct (long_segment _ (Hlong (text +:+ l))). }
  exists (text +:+ l). by rewrite append_assoc.
Qed.

Lemma extensions_differ (front1 front2 : string) :
  front1 +:+ ".md" <> front2 +:+ ".html".
Proof.
  revert front2. induction front1 as [|c f1 IH]; intros [|c2 f2] H.
  - discriminate H.
  - apply (f_equal String.length) in H. rewrite !length_append in H.
    simpl in H. lia.
  - destruct f1 as [|x [|y f1]]; [discriminate H..|].
    apply (f_equal String.length) in H. rewrite !length_append in H.
    simpl in H. lia.
  - rewrite !append_cons in H. injection H as _ H. by apply IH in H.
Qed.

Lemma report_paths_differ (name : string) :
  path_join "reports" (name +:+ ".md") <> path_join "reports" (name +:+ ".html").
Proof.
  destruct (path_join_extension name ".md") as [f1 ->]; [done|simpl; lia|].
  destruct (path_join_extension name ".html") as [f2 ->]; [done|simpl; lia|].
  apply extensions_differ.
Qed.

(** A name without a slash gives a file of the directory [reports]. *)
Lemma report_path_simple (name ext : string) :
  allUnits notSlash name = true -> allUnits notSlash ext = true ->
  (3 <= String.length ext)%nat ->
  path_join "reports" (name +:+ ext) = "reports/" +:+ name +:+ ext
  /\ parentDirectory (path_join "reports" (name +:+ ext)) = "reports".
Proof.
  intros Hn He Hlen.
  assert (allUnits notSlash (name +:+ ext) = true) as Hunits
    by (by rewrite allUnits_append, Hn, He).
  assert (path_join "reports" (name +:+ ext) = "reports" +:+ "/" +:+ name +:+ ext)
    as ->.
  { apply path_join_simple; [done|]. unfold simpleName. rewrite Hunits.
    destruct (long_segment (name +:+ ext)) as (-> & -> & ->); [|done].
    rewrite length_append. lia. }
  split; [done|]. by apply parentDirectory_simple.
Qed.

Section RunFacts.

Variable encode : string -> Result (list nat).
Variable crawler : list string -> Result (list Item).
Variable generateChapters : list Item -> Result (list Chapter).
Variable generateObject : nat -> string -> Result ChapterContentObject.
Variable generateSummary : list ChapterContent -> Result (string * string).
Variable styledRendering : string -> string -> string -> string.

(** X11. A run completes when its stages do: when the records of the
    batch carry the URLs they are looked up by, the crawl, the outline,
    the chapter stage and the summary return, and the disk takes the two
    report files, the run returns the document, whose bibliography has a
    line for every cited URL: no citation is left without a title. And
    the crawl returns whenever those records can be read, the disk takes
    writes and the actor answers for the URLs that have no record. *)
Theorem researchRun_completes (d : Disk) (cfg : Config) (subject : string)
    (urls : list string) (now : string) :
  (forall d1 R1 contents chapters st abstract conclusions,
     (forall u, In u urls -> recordFaithful d u) ->
     crawlUrls crawler d (newResearch cfg) urls = Ok (d1, R1, contents) ->
     generateChapters contents = Ok chapters ->
     generateChapterContents encode generateObject R1 subject chapters contents
     = Ok st ->
     generateSummary (chapterContents st) = Ok (abstract, conclusions) ->
     canWrite d (path_join "reports" (slug subject +:+ ".md")) = true ->
     canWrite d (path_join "reports" (slug subject +:+ ".html")) = true ->
     exists d' doc bibliography,
       researchRun encode crawler generateChapters generateObject generateSummary
         styledRendering d cfg subject urls now = Ok (d', research st, doc)
       /\ bibliographyOf (research st) bibliography
       /\ content doc
          = documentContent now subject abstract (chapterContents st) conclusions
              bibliography)
  /\ ((forall u, In u urls -> recordFaithful d u) ->
      writable d = true ->
      (exists items, crawler (misses d urls) = Ok items) ->
      exists d1 R1 contents,
        crawlUrls crawler d (newResearch cfg) urls = Ok (d1, R1, contents)).
Proof.
  split.
  - intros d1 R1 contents chapters st abstract conclusions Hf Hc Hout Hst Hsum
      Hmd Hhtml.
    unfold researchRun. rewrite Hc. cbn [mbind Result_bind]. rewrite Hout.
    cbn [mbind Result_bind]. rewrite Hst. cbn [mbind Result_bind]. rewrite Hsum.
    cbn [mbind Result_bind].
    destruct (crawlUrls_frame _ _ _ _ _ _ _ Hc) as (_ & Hused & _).
    assert (corpusCovered (newResearch cfg)) as Hcov0 by (intros k item []).
    destruct (crawlUrls_covered _ _ _ _ _ _ _ Hf Hcov0 Hc) as [Hcov Hcorpus].
    pose proof (chapterLoop_grows _ _ _ _ _ _ _ _ Hst) as [_ Hrefs].
    pose proof (chapterLoop_citedFrom _ _ _ _ _ _ _ _ Hst) as Hcited.
    cbn [research] in Hrefs, Hcited. rewrite Hused in Hcited.
    destruct (referenceLines_finalOrdering (references (research st))
                (usedReferences (research st)) 0) as (lines & Hlines & Hforall).
    { intros u Hu. destruct (Hcited u Hu) as [[]|(c & Hin & <-)].
      rewrite Hrefs. rewrite Hcorpus in Hin.
      apply Object_values_In in Hin as [k Hin]. by eapply Hcov. }
    assert (orderedReferences (research st) = Ok (Js.join Js.nl lines)) as Hbib
      by (unfold orderedReferences; by rewrite Hlines).
    unfold generateDocument. rewrite Hbib. cbn [mbind Result_bind].
    unfold writeFile.
    rewrite (crawlUrls_canWrite _ _ _ _ _ _ _ _ Hc Hmd). cbn [mbind Result_bind].
    assert (canWrite d1 (path_join "reports" (slug subject +:+ ".html")) = true)
      as Hhtml1 by (by eapply crawlUrls_canWrite).
    match goal with |- context [canWrite ?disk ?p] =>
      assert (canWrite disk p = true) as ->
    end.
    { unfold canWrite, directoryExists in *. cbn [writable directories].
      by apply andb_true_iff in Hhtml1 as [_ ->]. }
    cbn [mbind Result_bind]. eexists _, _, _. split; [done|]. split; [|done].
    by apply orderedReferences_bibliography.
  - intros Hf Hw [items Hitems]. unfold crawlUrls.
    destruct (lookupLoop_returns d urls (newResearch cfg) [] Hf) as (R1 & unc & E).
    rewrite E. pose proof (lookupLoop_misses _ _ _ _ _ _ E) as Hm.
    cbn in Hm. subst unc. cbn [mbind Result_bind].
    destruct (0 <? length (misses d urls))%nat; [|by eexists _, _, _].
    rewrite Hitems. cbn [mbind Result_bind].
    destruct (storeLoop_returns d items R1 Hw) as (d2 & R2 & ->).
    by eexists _, _, _.
Qed.

(** X12. The bibliography throws on a cited URL without a title entry:
    when the ledger holds a URL that [references] does not, the call of
    [generateDocument] throws at [ref.title] before anything is
    written, whatever the disk. *)
Theorem generateDocument_missing_reference (d : Disk) (R : Research)
    (now subject abstract : string) (chapters : list ChapterContent)
    (conclusions u : string) :
  In u (usedReferences R) ->
  references R !! u = None ->
  generateDocument styledRendering d R now subject abstract chapters conclusions
  = Throw (TypeError "ref.title").
Proof.
  intros Hin Hnone. unfold generateDocument, orderedReferences.
  by rewrite (referenceLines_missing _ _ _ u).
Qed.

End RunFacts.

Lemma researchRun_completes_witness :
  exists d' R' doc,
    researchRun unitTokens echoCrawler sampleOutline sampleModel sampleSummary
      plainRendering diskWithA sampleConfig "solar panel recycling"
      [url docA; url docB] "2025-03-01T10:00:00.000Z"
    = Ok (d', R', doc).
Proof.
  edestruct (proj1 (researchRun_completes unitTokens echoCrawler sampleOutline
                      sampleModel sampleSummary plainRendering diskWithA
                      sampleConfig "solar panel recycling" [url docA; url docB]
                      "2025-03-01T10:00:00.000Z"))
    as (d' & doc & bibliography & H & _).
  - intros u [<-|[<-|[]]]; vm_compute; done.
  - vm_compute. reflexivity.
  - reflexivity.
  - vm_compute. reflexivity.
  - reflexivity.
  - reflexivity.
  - reflexivity.
  - eexists _, _, _. exact H.
Defined.

(** The record of [docA] read under another spelling of its URL: the
    document is cited under the stored [url], which has no title
    entry. *)
Lemma generateDocument_missing_reference_witness :
  generateDocument plainRendering diskWithA respelledResearch
    "2025-03-01T10:00:00.000Z" "solar panel recycling" "Abstract."
    finishedChapters "Conclusions."
  = Throw (TypeError "ref.title").
Proof.
  apply (generateDocument_missing_reference plainRendering diskWithA
           respelledResearch "2025-03-01T10:00:00.000Z" "solar panel recycling"
           "Abstract." finishedChapters "Conclusions." "http://a.example/solar").
  - vm_compute. left. reflexivity.
  - vm_compute. reflexivity.
Defined.

(** ** The two report files *)

Section ReportFacts.

Variable styledRendering : string -> string -> string -> string.

(** X13. A call of [generateDocument] that returns has written two
    files and touched no other: the markdown file, at the path that
    [path.join] makes of [reports] and the slug, holds exactly the
    canonical text it returns, the HTML file holds the styled rendering
    of that text, the two paths differ, and every other path holds what
    it held. For a slug without a slash the files are
    [reports/<slug>.md] and [reports/<slug>.html], and the call returns
    on a disk that takes writes once the bibliography is built. Where
    the disk does not take the markdown file (writes refused, or a slug
    with a slash that names a directory which is not there) the call
    throws at that file: for the subject [AC/DC power] at
    [reports/ac/dc_power.md]; and a slug that climbs, as for
    [../escape], leaves the directory [reports]. *)
Theorem generateDocument_writes_two_files (d : Disk) (R : Research)
    (now subject abstract : string) (chapters : list ChapterContent)
    (conclusions : string) :
  (forall d' R' doc,
     generateDocument styledRendering d R now subject abstract chapters
       conclusions = Ok (d', R', doc) ->
     markdown doc = path_join "reports" (slug subject +:+ ".md")
     /\ html doc = path_join "reports" (slug subject +:+ ".html")
     /\ markdown doc <> html doc
     /\ files d' !! markdown doc = Some (TextFile (content doc))
     /\ files d' !! html doc
        = Some (TextFile
                  (styledRendering (locale (config R)) subject (content doc)))
     /\ forall p, p <> markdown doc -> p <> html doc ->
                  files d' !! p = files d !! p)
  /\ (allUnits notSlash (slug subject) = true ->
      path_join "reports" (slug subject +:+ ".md")
      = "reports/" +:+ slug subject +:+ ".md"
      /\ path_join "reports" (slug subject +:+ ".html")
         = "reports/" +:+ slug subject +:+ ".html"
      /\ (writable d = true ->
          (forall u, In u (usedReferences R) -> is_Some (references R !! u)) ->
          exists d' doc,
            generateDocument styledRendering d R now subject abstract chapters
              conclusions = Ok (d', R, doc)))
  /\ (canWrite d (path_join "reports" (slug subject +:+ ".md")) = false ->
      (forall u, In u (usedReferences R) -> is_Some (references R !! u)) ->
      generateDocument styledRendering d R now subject abstract chapters
        conclusions
      = Throw (CacheIOError (path_join "reports" (slug subject +:+ ".md"))))
  /\ (slug "AC/DC power" = "ac/dc_power"
      /\ generateDocument styledRendering (mkDisk ∅ [] true) finishedResearch now
           "AC/DC power" abstract chapters conclusions
         = Throw (CacheIOError "reports/ac/dc_power.md")
      /\ path_join "reports" (slug "../escape" +:+ ".md") = "escape.md").
Proof.
  assert (forall Rx,
            (forall u, In u (usedReferences Rx) -> is_Some (references Rx !! u)) ->
            exists bib, orderedReferences Rx = Ok bib) as Hbuilt.
  { intros Rx Hall. unfold orderedReferences.
    destruct (referenceLines_finalOrdering (references Rx) (usedReferences Rx) 0
                Hall) as (lines & -> & _).
    by eexists. }
  split; [|split; [|split]].
  - intros d' R' doc H.
    apply generateDocument_inv in H as (bib & _ & -> & -> & _ & _ & ->).
    cbn [markdown html content files].
    pose proof (report_paths_differ (slug subject)) as Hne.
    split; [done|]. split; [done|]. split; [done|]. split; [|split].
    + rewrite lookup_insert_ne by congruence. by rewrite lookup_insert_eq.
    + by rewrite lookup_insert_eq.
    + intros p H1 H2. rewrite !lookup_insert_ne by congruence. done.
  - intros Hslug.
    destruct (report_path_simple (slug subject) ".md" Hslug) as [Hmd Hpmd];
      [done|simpl; lia|].
    destruct (report_path_simple (slug subject) ".html" Hslug) as [Hhtml Hphtml];
      [done|simpl; lia|].
    split; [done|]. split; [done|]. intros Hw Hall.
    destruct (Hbuilt R Hall) as [bib Hbib].
    assert (forall dx p, writable dx = true -> parentDirectory p = "reports" ->
                         canWrite dx p = true) as Hcan.
    { intros dx p Hdx Hp. unfold canWrite. by rewrite Hdx, Hp. }
    unfold generateDocument, writeFile. rewrite Hbib. cbn [mbind Result_bind].
    rewrite (Hcan d) by done. cbn [mbind Result_bind].
    rewrite Hcan by done. by eexists _, _.
  - intros Hno Hall. destruct (Hbuilt R Hall) as [bib Hbib].
    unfold generateDocument, writeFile. rewrite Hbib. cbn [mbind Result_bind].
    by rewrite Hno.
  - split; [reflexivity|]. split; [|reflexivity].
    unfold generateDocument, writeFile.
    assert (orderedReferences finishedResearch
            = Ok "- [(1)](http://a.example/solar) Solar A") as -> by reflexivity.
    cbn [mbind Result_bind].
    assert (path_join "reports" (slug "AC/DC power" +:+ ".md")
            = "reports/ac/dc_power.md") as -> by reflexivity.
    assert (canWrite (mkDisk ∅ [] true) "reports/ac/dc_power.md" = false) as ->
      by reflexivity.
    done.
Qed.

End ReportFacts.

Lemma generateDocument_writes_two_files_witness :
  exists d' doc,
    generateDocument plainRendering diskWithA finishedResearch
      "2025-03-01T10:00:00.000Z" "solar panel recycling" "Abstract."
      finishedChapters "Conclusions."
    = Ok (d', finishedResearch, doc).
Proof.
  refine (proj2 (proj2 (proj1 (proj2
            (generateDocument_writes_two_files plainRendering diskWithA
               finishedResearch "2025-03-01T10:00:00.000Z"
               "solar panel recycling" "Abstract." finishedChapters
               "Conclusions.")) _)) _ _).
  - reflexivity.
  - reflexivity.
  - intros u [<-|[]]. vm_compute. by eexists.
Defined.

(** ** What the canonical text holds *)

Lemma occursIn_self (s : string) : occursIn s s.
Proof. exists "", "". by rewrite append_empty_r. Qed.

Lemma occursIn_join (sep p : string) (parts : list string) :
  In p parts -> occursIn p (Js.join sep parts).
Proof.
  induction parts as [|x parts IH]; [done|]. intros Hin.
  destruct parts as [|y parts].
  - destruct Hin as [->|[]]. apply occursIn_self.
  - change (Js.join sep (x :: y :: parts))
      with (x +:+ sep +:+ Js.join sep (y :: parts)).
    destruct Hin as [->|Hin]; [apply occursIn_here|].
    by apply occursIn_append_r, occursIn_append_r, IH.
Qed.

Lemma occursIn_in_part (sep p part : string) (parts : list string) :
  In part parts -> occursIn p part -> occursIn p (Js.join sep parts).
Proof.
  intros Hin Hp. eapply occursIn_trans; [exact Hp|]. by apply occursIn_join.
Qed.

(** X14. Nothing of a finished run is lost in the canonical text: it
    holds the subject, the date of the clock reading, the abstract, the
    conclusions and the bibliography, and of every chapter the title,
    the summary and the whole body. *)
Theorem documentContent_holds_the_run (now subject abstract : string)
    (chapters : list ChapterContent) (conclusions bibliography : string)
    (c : ChapterContent) :
  In c chapters ->
  let doc :=
    documentContent now subject abstract chapters conclusions bibliography in
  occursIn subject doc /\ occursIn (beforeT now) doc /\ occursIn abstract doc
  /\ occursIn conclusions doc /\ occursIn bibliography doc
  /\ occursIn (cc_title c) doc /\ occursIn (cc_summary c) doc
  /\ occursIn (cc_content c) doc.
Proof.
  intros Hc doc. subst doc. unfold documentContent.
  assert (forall p, occursIn p (chapterSection c) ->
            occursIn p (Js.join Js.nl
              (["# " +:+ subject;
                Js.nl +:+ "*Generated on " +:+ beforeT now
                +:+ " by [apify-deep-research](https://github.com/mluggy/apify-deep-research) (not for commercial use)*"
                +:+ Js.nl; toc chapters; Js.nl; "*" +:+ abstract +:+ "*"]
               ++ map chapterSection chapters
               ++ [Js.nl +:+ "---" +:+ Js.nl; "*" +:+ conclusions +:+ "*";
                   Js.nl +:+ "---" +:+ Js.nl; bibliography]))) as Hsec.
  { intros p Hp. eapply occursIn_in_part; [|exact Hp].
    apply in_or_app. right. apply in_or_app. left. by apply in_map. }
  repeat split.
  - eapply occursIn_in_part; [by left|]. apply occursIn_append_r, occursIn_self.
  - eapply occursIn_in_part; [right; by left|].
    repeat first [apply occursIn_here | apply occursIn_append_r].
  - eapply occursIn_in_part; [do 4 right; by left|].
    apply occursIn_append_r, occursIn_here.
  - eapply occursIn_in_part.
    + apply in_or_app. right. apply in_or_app. right. right. by left.
    + apply occursIn_append_r, occursIn_here.
  - apply occursIn_join. apply in_or_app. right. apply in_or_app. right.
    do 3 right. by left.
  - apply Hsec. unfold chapterSection.
    repeat first [apply occursIn_here | apply occursIn_append_r].
  - apply Hsec. unfold chapterSection.
    repeat first [apply occursIn_here | apply occursIn_append_r].
  - apply Hsec. unfold chapterSection.
    repeat first [apply occursIn_here | apply occursIn_self | apply occursIn_append_r].
Qed.

Lemma documentContent_holds_the_run_witness :
  occursIn "First body. [(1)](http://a.example/solar)"
    (documentContent "2025-03-01T10:00:00.000Z" "solar panel recycling"
       "Abstract." finishedChapters "Conclusions."
       "- [(1)](http://a.example/solar) Solar A").
Proof.
  apply (documentContent_holds_the_run "2025-03-01T10:00:00.000Z"
           "solar panel recycling" "Abstract." finishedChapters "Conclusions."
           "- [(1)](http://a.example/solar) Solar A"
           (mkChapterContent 1 "Collection"
              "First body. [(1)](http://a.example/solar)" "Summary 1")).
  left. reflexivity.
Defined.

(** ** The shape of the file name *)

Lemma lower_unit_lowered (c : ascii) : isLowered (Js.lower_unit c) = true.
Proof. destruct c as [[] [] [] [] [] [] [] []]; reflexivity. Qed.

Lemma toLowerCase_lowered (s : string) : allUnits isLowered (Js.toLowerCase s) = true.
Proof.
  induction s as [|c s IH]; [done|]. simpl. by rewrite lower_unit_lowered, IH.
Qed.

Lemma replaceSpaceRuns_units (p : ascii -> bool) (s : string) (inRun : bool) :
  p "_"%char = true ->
  allUnits p s = true ->
  allUnits p (replaceSpaceRuns inRun s) = true.
Proof.
  intros Hu. revert inRun. induction s as [|c s IH]; intros inRun H; [done|].
  simpl in *. apply andb_true_iff in H as [Hc Hs].
  destruct (Js.is_space c), inRun; simpl; rewrite ?Hu, ?Hc; by apply IH.
Qed.

Lemma replaceSpaceRuns_no_space (s : string) (inRun : bool) :
  allUnits notSpace (replaceSpaceRuns inRun s) = true.
Proof.
  revert inRun. induction s as [|c s IH]; intros inRun; [done|]. simpl.
  destruct (Js.is_space c) eqn:E.
  - destruct inRun; [apply IH|]. simpl. apply IH.
  - simpl. unfold notSpace at 1. rewrite E. apply IH.
Qed.

Lemma dropLeadingUnderscore_units (p : ascii -> bool) (s : string) :
  allUnits p s = true -> allUnits p (dropLeadingUnderscore s) = true.
Proof.
  destruct s as [|c s]; [done|]. simpl. intros H.
  apply andb_true_iff in H as [Hc Hs]. destruct (isUnderscore c); [done|].
  simpl. by rewrite Hc.
Qed.

Lemma dropTrailingUnderscore_units (p : ascii -> bool) (s : string) :
  allUnits p s = true -> allUnits p (dropTrailingUnderscore s) = true.
Proof.
  induction s as [|c s IH]; [done|]. simpl. intros H.
  apply andb_true_iff in H as [Hc Hs].
  destruct (isUnderscore c && String.eqb s ""); [done|]. simpl.
  by rewrite Hc, IH.
Qed.

Lemma dropTrailingUnderscore_single (s : string) :
  singleSeparators s = true -> singleSeparators (dropTrailingUnderscore s) = true.
Proof.
  induction s as [|c s IH]; [done|]. simpl. intros H.
  apply andb_true_iff in H as [H1 H2].
  destruct (isUnderscore c && String.eqb s ""); [done|]. simpl.
  rewrite IH by done. rewrite andb_true_r.
  destruct (isUnderscore c); [|done]. simpl in *.
  apply negb_true_iff in H1. destruct s as [|x s]; [done|]. simpl in *.
  rewrite H1. simpl. by rewrite H1.
Qed.

(** X15. For a subject that holds no underscore of its own, every run
    of white space becomes exactly one separator: the name has no two
    separators in a row, no leading and no trailing separator. *)
Theorem slug_single_separators (subject : string) :
  hasUnderscore subject = false ->
  singleSeparators (slug subject) = true
  /\ startsWithSeparator (slug subject) = false
  /\ endsWithSeparator (slug subject) = false.
Proof.
  intros Hno. unfold slug, stripEdges.
  rewrite <- toLowerCase_hasUnderscore in Hno.
  destruct (replaceSpaceRuns_single _ false Hno) as [Hsingle _].
  destruct (dropLeadingUnderscore_single _ Hsingle) as [Hsingle' Hstart].
  split; [by apply dropTrailingUnderscore_single|]. split.
  - by apply dropTrailingUnderscore_start.
  - by apply dropTrailingUnderscore_end.
Qed.

Lemma slug_single_separators_witness :
  singleSeparators (slug "  Solar   Panel Recycling ") = true
  /\ startsWithSeparator (slug "  Solar   Panel Recycling ") = false
  /\ endsWithSeparator (slug "  Solar   Panel Recycling ") = false.
Proof.
  apply (slug_single_separators "  Solar   Panel Recycling "). reflexivity.
Defined.

(** X16. Whatever the subject, the name holds no white space and no
    letter that [toLowerCase] would change. *)
Theorem slug_lower_case_without_space (subject : string) :
  allUnits notSpace (slug subject) = true
  /\ allUnits isLowered (slug subject) = true.
Proof.
  unfold slug, stripEdges. split.
  - apply dropTrailingUnderscore_units, dropLeadingUnderscore_units,
      replaceSpaceRuns_no_space.
  - apply dropTrailingUnderscore_units, dropLeadingUnderscore_units,
      replaceSpaceRuns_units; [done|apply toLowerCase_lowered].
Qed.

(** ** The search stage *)

Lemma addAll_snoc (set l : list string) (x : string) :
  addAll set (l ++ [x])
  = if includes x (addAll set l) then addAll set l else addAll set l ++ [x].
Proof. revert set. induction l as [|y l IH]; intros set; [done|]. simpl. apply IH. Qed.

Lemma addAll_In (set l : list string) (x : string) :
  In x (addAll set l) <-> In x set \/ In x l.
Proof.
  revert set. induction l as [|y l IH]; intros set; simpl; [tauto|].
  rewrite IH. destruct (includes y set) eqn:E.
  - apply includes_true in E. split; [tauto|]. intros [?|[<-|?]]; tauto.
  - rewrite in_app_iff. simpl. tauto.
Qed.

Lemma addAll_NoDup (set l : list string) : NoDup set -> NoDup (addAll set l).
Proof.
  revert set. induction l as [|y l IH]; intros set Hnd; [done|]. simpl.
  apply IH. by apply (keys_grow_step set y false).
Qed.

Lemma addAll_NoDup_id (set l : list string) :
  NoDup (set ++ l) -> addAll set l = set ++ l.
Proof.
  revert set. induction l as [|y l IH]; intros set Hnd; simpl.
  - by rewrite app_nil_r.
  - assert (includes y set = false) as ->.
    { apply includes_false. intros Hin. apply NoDup_app in Hnd as (_ & Hdis & _).
      apply (Hdis y); [by apply list_elem_of_In|]. by left. }
    rewrite IH; rewrite <- app_assoc; done.
Qed.

Lemma uniqueOf_NoDup (l : list string) : NoDup (uniqueOf l).
Proof. apply addAll_NoDup, NoDup_nil_2. Qed.

Lemma uniqueOf_members (l : list string) (x : string) :
  In x (uniqueOf l) <-> In x l.
Proof. unfold uniqueOf. rewrite addAll_In. simpl. tauto. Qed.

(** X17. Spreading a [Set] of the result URLs keeps each URL once, at
    the place of its first occurrence: the list has no repetition and
    the same members, a further URL is appended unless it is there
    already, and a list without repetitions comes back as it is (so
    deduplicating twice changes nothing). *)
Theorem uniqueOf_first_seen_order (l : list string) :
  NoDup (uniqueOf l)
  /\ (forall x, In x (uniqueOf l) <-> In x l)
  /\ (forall x, uniqueOf (l ++ [x])
                = if includes x l then uniqueOf l else uniqueOf l ++ [x])
  /\ uniqueOf (uniqueOf l) = uniqueOf l.
Proof.
  pose proof (uniqueOf_NoDup l) as Hnd. pose proof (uniqueOf_members l) as Hin.
  split; [done|]. split; [done|]. unfold uniqueOf in *. split.
  - intros x. rewrite addAll_snoc.
    assert (includes x (addAll [] l) = includes x l) as ->; [|done].
    destruct (includes x l) eqn:E.
    + apply includes_true. apply Hin. by apply includes_true.
    + apply includes_false. rewrite Hin. by apply includes_false.
  - by apply (addAll_NoDup_id []).
Qed.

Section SearchFacts.

Variable searchActor : SearchInput -> Result (list (option (list string))).

(** X18. The search stage makes one call for all queries, joined by
    line breaks, with [depth] results per page and one page per query,
    and returns the URLs of all organic results of the answer, each
    once. *)
Theorem searchQueries_unique_urls (cfg : Config) (depth : Z)
    (queries urls : list string) :
  searchQueries searchActor cfg depth queries = Ok urls ->
  exists input items,
    searchActor input = Ok items
    /\ si_queries input = Js.join Js.nl queries
    /\ si_resultsPerPage input = depth
    /\ si_maxPagesPerQuery input = 1
    /\ NoDup urls
    /\ forall u, In u urls <-> exists rs, In (Some rs) items /\ In u rs.
Proof.
  unfold searchQueries. intros H.
  destruct (Js.split "-" (locale cfg)) as [|languageCode [|countryCode rest]];
    try discriminate.
  match type of H with context [searchActor ?i] => set (input := i) in * end.
  destruct (searchActor input) as [items|e] eqn:E; [|discriminate].
  cbn in H. inversion H; subst urls; clear H.
  exists input, items. repeat split; try done.
  - apply uniqueOf_NoDup.
  - intros Hu. apply (proj1 (uniqueOf_members _ _)) in Hu.
    apply in_flat_map in Hu as (d & Hd & Hu).
    destruct d as [rs|]; [|done]. by exists rs.
  - intros (rs & Hrs & Hu). apply (proj2 (uniqueOf_members _ _)).
    apply in_flat_map. by exists (Some rs).
Qed.

(** X19. A locale that [main] accepts never makes the search stage
    throw: it splits into a language of two lower-case letters and a
    country of two capitals, the actor is called with the language
    ([iw] for [he]) and the country in lower case. A locale without a
    dash throws at [countryCode.toLowerCase()], before any call. *)
Theorem searchQueries_locale (cfg : Config) (depth : Z) (queries : list string) :
  (localeValid (locale cfg) = true ->
   exists a b c d,
     locale cfg = String a (String b (String "-" (String c (String d ""))))
     /\ searchQueries searchActor cfg depth queries
        = (items ← searchActor
                     (mkSearchInput (Js.join Js.nl queries)
                        (if String.eqb (String a (String b "")) "he" then "iw"
                         else String a (String b ""))
                        (String (Js.lower_unit c) (String (Js.lower_unit d) ""))
                        depth 1);
           Ok (uniqueOf (flat_map (fun r => default [] r) items))))
  /\ (allUnits (fun x => negb (Ascii.eqb x "-")) (locale cfg) = true ->
      searchQueries searchActor cfg depth queries
      = Throw (TypeError "countryCode.toLowerCase")).
Proof.
  split.
  - unfold localeValid. intros H.
    destruct (locale cfg) as [|a [|b [|dash [|c [|d [|x rest]]]]]] eqn:E;
      try discriminate.
    repeat (apply andb_true_iff in H as [H ?]).
    assert (dash = "-"%char) as -> by by apply Ascii.eqb_eq.
    exists a, b, c, d. split; [done|].
    assert (Js.split "-" (String a (String b (String "-" (String c (String d "")))))
            = [String a (String b ""); String c (String d "")]) as Hsplit.
    { assert (Ascii.eqb a "-" = false) as Ea
        by (apply Ascii.eqb_neq; intros ->; discriminate).
      assert (Ascii.eqb b "-" = false) as Eb
        by (apply Ascii.eqb_neq; intros ->; discriminate).
      assert (Ascii.eqb c "-" = false) as Ec
        by (apply Ascii.eqb_neq; intros ->; discriminate).
      assert (Ascii.eqb d "-" = false) as Ed
        by (apply Ascii.eqb_neq; intros ->; discriminate).
      cbn. by rewrite Ea, Eb, Ec, Ed. }
    unfold searchQueries. rewrite E, Hsplit. done.
  - intros Hnodash. unfold searchQueries.
    assert (forall s, allUnits (fun x => negb (Ascii.eqb x "-")) s = true ->
                      Js.split "-" s = [s]) as Hone.
    { induction s as [|x s IH]; [done|]. simpl. intros H.
      apply andb_true_iff in H as [Hx Hs]. apply negb_true_iff in Hx.
      rewrite Hx, IH by done. done. }
    by rewrite Hone.
Qed.

End SearchFacts.

Lemma searchQueries_unique_urls_witness :
  match searchQueries sampleSearch sampleConfig 10 ["solar"; "panels"] with
  | Ok urls => NoDup urls /\ urls = [url docA; url docB; url docC]
  | Throw _ => False
  end.
Proof.
  destruct (searchQueries sampleSearch sampleConfig 10 ["solar"; "panels"])
    as [urls|e] eqn:E.
  - destruct (searchQueries_unique_urls sampleSearch sampleConfig 10
                ["solar"; "panels"] urls E) as (_ & _ & _ & _ & _ & _ & Hnd & _).
    split; [exact Hnd|]. vm_compute in E. by inversion E.
  - vm_compute in E. discriminate E.
Defined.

Lemma searchQueries_locale_witness :
  (exists a b c d,
     locale (mkConfig "he-IL" "deepseek-chat")
     = String a (String b (String "-" (String c (String d ""))))
     /\ searchQueries sampleSearch (mkConfig "he-IL" "deepseek-chat") 10 ["solar"]
        = (items ← sampleSearch
                     (mkSearchInput (Js.join Js.nl ["solar"])
                        (if String.eqb (String a (String b "")) "he" then "iw"
                         else String a (String b ""))
                        (String (Js.lower_unit c) (String (Js.lower_unit d) ""))
                        10 1);
           Ok (uniqueOf (flat_map (fun r => default [] r) items))))
  /\ searchQueries sampleSearch (mkConfig "he" "deepseek-chat") 10 ["solar"]
     = Throw (TypeError "countryCode.toLowerCase").
Proof.
  split.
  - apply (proj1 (searchQueries_locale sampleSearch
                    (mkConfig "he-IL" "deepseek-chat") 10 ["solar"])).
    reflexivity.
  - apply (proj2 (searchQueries_locale sampleSearch
                    (mkConfig "he" "deepseek-chat") 10 ["solar"])).
    reflexivity.
Defined.

(** ** Citation markers in the styled rendering *)

















(** ** What the prompts carry *)

Lemma mapi_from_lookup {A B} (f : A -> nat -> B) (start i : nat) (xs : list A) (x : A) :
  xs !! i = Some x -> In (f x (start + i)%nat) (Js.mapi_from start f xs).
Proof.
  revert start i. induction xs as [|y xs IH]; intros start i H; [done|].
  destruct i as [|i]; simpl in *.
  - inversion H; subst. left. by rewrite Nat.add_0_r.
  - right. replace (start + S i)%nat with (S start + i)%nat by lia. by apply IH.
Qed.

Lemma contentsText_block (contents : list Item) (i : nat) (c : Item) :
  contents !! i = Some c ->
  occursIn (contentBlock (i + 1) (text c)) (contentsText contents).
Proof.
  intros H. unfold contentsText, Js.mapi. apply occursIn_join.
  by apply (mapi_from_lookup (fun c i => contentBlock (i + 1) (text c)) 0 i).
Qed.

Lemma followupText_block (followups : list Followup) (i : nat) (f : Followup) :
  followups !! i = Some f ->
  occursIn (followupBlock f i) (followupText followups).
Proof.
  intros H. unfold followupText, Js.mapi. apply occursIn_join.
  by apply (mapi_from_lookup followupBlock 0 i).
Qed.

Lemma followupBlock_holds (f : Followup) (i : nat) :
  occursIn (question f) (followupBlock f i)
  /\ occursIn (answer f) (followupBlock f i).
Proof.
  unfold followupBlock.
  split; repeat first [apply occursIn_here | apply occursIn_append_r].
Qed.

Lemma summaryBlocks_same (start : nat) (chapters chapters' : list ChapterContent) :
  map (fun c => (cc_title c, cc_summary c)) chapters
  = map (fun c => (cc_title c, cc_summary c)) chapters' ->
  Js.mapi_from start summaryBlock chapters
  = Js.mapi_from start summaryBlock chapters'.
Proof.
  revert start chapters'. induction chapters as [|c rest IH];
    intros start [|c' rest'] H; try discriminate; [done|].
  simpl in H. inversion H as [[Ht Hs Hrest]]. simpl.
  rewrite (IH _ _ Hrest). unfold summaryBlock. by rewrite Ht, Hs.
Qed.

(** Finds the part of a concatenation in which [H] says the text occurs. *)
Ltac occurs_with H :=
  first [ exact H
        | apply occursIn_append_l; exact H
        | apply occursIn_append_r; occurs_with H ].

Section PromptFacts.

Variable queriesObject : string -> Result (list string).
Variable chaptersObject : string -> Result (list Chapter).
Variable summaryObject : string -> Result (string * string).

(** X22. The outline stage sends the whole corpus to the model: its
    prompt holds the block of every document, with the document's whole
    text and its position in the corpus, whatever the context window of
    the model, and the block of every follow-up. *)
Theorem generateChapters_sends_whole_corpus (cfg : Config) (breadth : Z)
    (subject : string) (followups : list Followup) (contents : list Item)
    (i : nat) (c : Item) :
  contents !! i = Some c ->
  exists prompt,
    generateChapters chaptersObject cfg breadth subject followups contents
    = chaptersObject prompt
    /\ occursIn (contentBlock (i + 1) (text c)) prompt
    /\ occursIn (text c) prompt
    /\ forall j f, followups !! j = Some f -> occursIn (followupBlock f j) prompt.
Proof.
  intros Hc. exists (chaptersPrompt cfg breadth subject followups contents).
  split; [done|].
  assert (occursIn (contentBlock (i + 1) (text c))
            (chaptersPrompt cfg breadth subject followups contents)) as Hblock.
  { pose proof (contentsText_block _ _ _ Hc) as Hin.
    unfold chaptersPrompt. occurs_with Hin. }
  split; [done|]. split.
  - eapply occursIn_trans; [|exact Hblock]. unfold contentBlock.
    repeat first [apply occursIn_here | apply occursIn_append_r].
  - intros j f Hf. pose proof (followupText_block _ _ _ Hf) as Hin.
    unfold chaptersPrompt. occurs_with Hin.
Qed.

(** X23. The query stage passes every follow-up on: its prompt holds,
    for each question asked, the numbered block with the question and
    the user's answer, verbatim. *)
Theorem generateSearchQueries_sends_followups (breadth : Z) (subject : string)
    (followups : list Followup) (i : nat) (f : Followup) :
  followups !! i = Some f ->
  exists prompt,
    generateSearchQueries queriesObject breadth subject followups
    = queriesObject prompt
    /\ occursIn (followupBlock f i) prompt
    /\ occursIn (question f) prompt
    /\ occursIn (answer f) prompt
    /\ occursIn subject prompt.
Proof.
  intros Hf. exists (searchQueriesPrompt breadth subject followups).
  split; [done|].
  assert (occursIn (followupBlock f i)
            (searchQueriesPrompt breadth subject followups)) as Hblock.
  { pose proof (followupText_block _ _ _ Hf) as Hin.
    unfold searchQueriesPrompt. occurs_with Hin. }
  destruct (followupBlock_holds f i) as [Hq Ha].
  split; [done|]. split; [by eapply occursIn_trans|].
  split; [by eapply occursIn_trans|]. unfold searchQueriesPrompt.
  repeat first [apply occursIn_here | apply occursIn_append_r].
Qed.

(** X24. The summary stage reads the chapters by title and summary
    only: its prompt holds, for each chapter, the block numbered by the
    chapter's position with the title and the summary, and two lists of
    chapters with the same titles and summaries, whatever their bodies
    and numbers, make the same call. *)
Theorem generateSummary_reads_titles_and_summaries (cfg : Config)
    (subject : string) (chapters chapters' : list ChapterContent) :
  map (fun c => (cc_title c, cc_summary c)) chapters
  = map (fun c => (cc_title c, cc_summary c)) chapters' ->
  generateSummary summaryObject cfg subject chapters'
  = generateSummary summaryObject cfg subject chapters
  /\ exists prompt,
       generateSummary summaryObject cfg subject chapters = summaryObject prompt
       /\ forall i c, chapters !! i = Some c ->
            occursIn (summaryBlock c i) prompt
            /\ occursIn (cc_title c) prompt
            /\ occursIn (cc_summary c) prompt.
Proof.
  intros Hsame. split.
  - unfold generateSummary, summaryPrompt, Js.mapi.
    by rewrite (summaryBlocks_same 0 chapters chapters' Hsame).
  - exists (summaryPrompt cfg subject chapters). split; [done|].
    intros i c Hc.
    assert (occursIn (summaryBlock c i) (summaryPrompt cfg subject chapters))
      as Hblock.
    { assert (occursIn (summaryBlock c i)
                (Js.join (Js.nl +:+ Js.nl) (Js.mapi summaryBlock chapters)))
        as Hin.
      { unfold Js.mapi. apply occursIn_join.
        by apply (mapi_from_lookup summaryBlock 0 i). }
      unfold summaryPrompt. occurs_with Hin. }
    split; [done|].
    split; (eapply occursIn_trans; [|exact Hblock]); unfold summaryBlock;
      repeat first [apply occursIn_here | apply occursIn_append_r].
Qed.

End PromptFacts.

Section ChapterPromptFacts.

Variable encode : string -> Result (list nat).
Variable generateObject : nat -> string -> Result ChapterContentObject.


End ChapterPromptFacts.

Lemma generateChapters_sends_whole_corpus_witness :
  exists prompt,
    generateChapters (echoPrompt [mkChapter 1 "Collection"]) sampleConfig 2
      "solar panel recycling" sampleFollowups [docA; docB]
    = echoPrompt [mkChapter 1 "Collection"] prompt
    /\ occursIn (contentBlock (1 + 1) (text docB)) prompt
    /\ occursIn (text docB) prompt
    /\ forall j f, sampleFollowups !! j = Some f -> occursIn (followupBlock f j) prompt.
Proof.
  apply (generateChapters_sends_whole_corpus (echoPrompt [mkChapter 1 "Collection"])
           sampleConfig 2 "solar panel recycling" sampleFollowups [docA; docB]
           1%nat docB).
  reflexivity.
Defined.

Lemma generateSearchQueries_sends_followups_witness :
  exists prompt,
    generateSearchQueries (echoPrompt ["solar panel recycling industrial"]) 2
      "solar panel recycling" sampleFollowups
    = echoPrompt ["solar panel recycling industrial"] prompt
    /\ occursIn
         (followupBlock
            (mkFollowup "Focus on residential or industrial?" "industrial") 0)
         prompt
    /\ occursIn "Focus on residential or industrial?" prompt
    /\ occursIn "industrial" prompt
    /\ occursIn "solar panel recycling" prompt.
Proof.
  apply (generateSearchQueries_sends_followups
           (echoPrompt ["solar panel recycling industrial"]) 2
           "solar panel recycling" sampleFollowups 0%nat
           (mkFollowup "Focus on residential or industrial?" "industrial")).
  reflexivity.
Defined.

Lemma generateSummary_reads_titles_and_summaries_witness :
  generateSummary (echoPrompt ("Abstract.", "Conclusions.")) sampleConfig
    "solar panel recycling"
    (map (fun c => mkChapterContent 0 (cc_title c) "" (cc_summary c))
       finishedChapters)
  = generateSummary (echoPrompt ("Abstract.", "Conclusions.")) sampleConfig
      "solar panel recycling" finishedChapters
  /\ exists prompt,
       generateSummary (echoPrompt ("Abstract.", "Conclusions.")) sampleConfig
         "solar panel recycling" finishedChapters
       = echoPrompt ("Abstract.", "Conclusions.") prompt
       /\ forall i c, finishedChapters !! i = Some c ->
            occursIn (summaryBlock c i) prompt
            /\ occursIn (cc_title c) prompt
            /\ occursIn (cc_summary c) prompt.
Proof.
  apply (generateSummary_reads_titles_and_summaries
           (echoPrompt ("Abstract.", "Conclusions.")) sampleConfig
           "solar panel recycling" finishedChapters
           (map (fun c => mkChapterContent 0 (cc_title c) "" (cc_summary c))
              finishedChapters)).
  reflexivity.
Defined.


(** ** A batch asked for again *)

Lemma lookupLoop_readable (d : Disk) (urls : list string) (R R1 : Research)
    (uncached uncached1 : list string) :
  lookupLoop d urls R uncached = Ok (R1, uncached1) ->
  forall u, In u urls ->
    files d !! cachePath u = None
    \/ exists item, files d !! cachePath u = Some (JsonFile item).
Proof.
  revert R uncached. induction urls as [|v rest IH]; intros R uncached H u Hu;
    [done|].
  simpl in H. destruct (pathExists d (cachePath v)) eqn:Ev.
  - unfold readJSON in H.
    destruct (files d !! cachePath v) as [[item| |c]|] eqn:Ef; try discriminate.
    simpl in H. destruct Hu as [<-|Hu]; [right; by exists item|by eapply IH].
  - apply pathExists_false in Ev.
    destruct Hu as [<-|Hu]; [by left|by eapply IH].
Qed.

Lemma lookupLoop_all_records (d : Disk) (urls : list string) (R : Research)
    (uncached : list string) :
  (forall u, In u urls -> exists item, files d !! cachePath u = Some (JsonFile item)) ->
  exists R1, lookupLoop d urls R uncached = Ok (R1, uncached).
Proof.
  revert R. induction urls as [|u rest IH]; intros R Hall; [by eexists|].
  destruct (Hall u) as [item Hitem]; [by left|].
  rewrite (lookupLoop_hit _ _ _ _ _ item) by done.
  apply IH. intros v Hv. apply Hall. by right.
Qed.

(** Every item of the second loop leaves a record at its path. *)
Lemma storeLoop_stored (d d' : Disk) (items : list Item) (R R' : Research) :
  storeLoop d items R = Ok (d', R') ->
  forall item, In item items ->
    exists last, files d' !! cachePath (url item) = Some (JsonFile last).
Proof.
  revert d R. induction items as [|x rest IH]; intros d R H item Hin; [done|].
  simpl in H. destruct (writeJSON d _ x) as [d1|e] eqn:E; [|discriminate].
  simpl in H. apply writeJSON_spec in E as [E _].
  destruct Hin as [->|Hin]; [|by eapply IH].
  destruct (storeLoop_files _ _ _ _ _ H (cachePath (url item)))
    as [Hsame|(it & _ & _ & Hf)]; [|by exists it].
  exists item. by rewrite Hsame, E, lookup_insert_eq.
Qed.

Section WarmCache.

Variable crawler : list string -> Result (list Item).

(** X26. A batch asked for again is served from the cache: after a
    [crawlUrls] that returned, and in which the actor answered every
    missing URL with an item whose [url] has the same record path, a
    later [crawlUrls] for the same batch finds no miss, returns without
    calling any actor, and leaves the disk as it is. *)
Theorem crawlUrls_second_run_from_cache (d d' : Disk) (R R' : Research)
    (urls : list string) (corpus : list Item) :
  crawlUrls crawler d R urls = Ok (d', R', corpus) ->
  (forall items, crawler (misses d urls) = Ok items ->
     forall u, In u (misses d urls) ->
       exists item, In item items /\ cachePath (url item) = cachePath u) ->
  misses d' urls = []
  /\ forall (other : list string -> Result (list Item)) (R2 : Research),
       exists R3 corpus3, crawlUrls other d' R2 urls = Ok (d', R3, corpus3).
Proof.
  intros H Hanswer.
  assert (forall u, In u urls ->
            exists item, files d' !! cachePath u = Some (JsonFile item)) as Hall.
  { apply crawlUrls_inv in H as (R1 & Hl & _ & Hrest).
    pose proof (lookupLoop_readable _ _ _ _ _ _ Hl) as Hread.
    destruct Hrest as [(Hnone & -> & _)|(items & _ & Hc & Hs)].
    - intros u Hu. destruct (Hread u Hu) as [Hmiss|?]; [|done].
      assert (In u (misses d urls)) as Hin.
      { unfold misses. apply filter_In. split; [done|].
        apply negb_true_iff. by apply pathExists_false. }
      by rewrite Hnone in Hin.
    - intros u Hu. destruct (Hread u Hu) as [Hmiss|[item Hitem]].
      + assert (In u (misses d urls)) as Hin.
        { unfold misses. apply filter_In. split; [done|].
          apply negb_true_iff. by apply pathExists_false. }
        destruct (Hanswer items Hc u Hin) as (item & Hitem & <-).
        by eapply storeLoop_stored.
      + destruct (storeLoop_files _ _ _ _ _ Hs (cachePath u))
          as [Hsame|(it & _ & _ & Hf)]; [|by exists it].
        exists item. by rewrite Hsame. }
  assert (misses d' urls = []) as Hnone.
  { unfold misses. clear H Hanswer. induction urls as [|u rest IH]; [done|].
    simpl. destruct (Hall u) as [item Hitem]; [by left|].
    assert (pathExists d' (cachePath u) = true) as ->
      by (apply pathExists_true; by rewrite Hitem).
    simpl. apply IH. intros v Hv. apply Hall. by right. }
  split; [done|]. intros other R2. unfold crawlUrls.
  destruct (lookupLoop_all_records d' urls R2 [] Hall) as [R3 ->].
  cbn. by eexists _, _.
Qed.

End WarmCache.

Lemma crawlUrls_second_run_from_cache_witness :
  match crawlUrls echoCrawler diskWithA (newResearch sampleConfig)
          [url docA; url docB] with
  | Ok (d', _, _) =>
      misses d' [url docA; url docB] = []
      /\ forall (other : list string -> Result (list Item)) (R2 : Research),
           exists R3 corpus3,
             crawlUrls other d' R2 [url docA; url docB] = Ok (d', R3, corpus3)
  | Throw _ => False
  end.
Proof.
  destruct (crawlUrls echoCrawler diskWithA (newResearch sampleConfig)
              [url docA; url docB]) as [[[d' R'] corpus]|e] eqn:E.
  - apply (crawlUrls_second_run_from_cache echoCrawler diskWithA d'
             (newResearch sampleConfig) R' [url docA; url docB] corpus E).
    intros items Hitems u Hu. vm_compute in Hitems. inversion Hitems; subst.
    vm_compute in Hu. destruct Hu as [<-|[]].
    eexists. split; [by left|reflexivity].
  - vm_compute in E. discriminate E.
Defined.

(** ** Markers and the bibliography *)

Lemma finalOrdering_entry (R : Research) (k : nat) (u : string) :
  usedReferences R !! k = Some u ->
  In ((k + 1)%nat, u, default "" (ref_title <$> references R !! u))
     (finalOrdering R).
Proof.
  intros H. unfold finalOrdering, Js.mapi.
  by apply (mapi_from_lookup
              (fun u i => ((i + 1)%nat, u,
                           default "" (ref_title <$> references R !! u))) 0 k).
Qed.

Lemma citeOrGetIndex_position (used : list string) (u : string) :
  exists k,
    snd (citeOrGetIndex used u) = Z.of_nat (k + 1)
    /\ fst (citeOrGetIndex used u) !! k = Some u.
Proof.
  pose proof (citeOrGetIndex_includes used u) as Hin.
  unfold citeOrGetIndex, indexOf in *. cbn [fst snd] in *.
  pose proof (indexOf_from_bounds 0 u _ Hin) as Hb.
  pose proof (indexOf_from_lookup u _ 0 Hin) as Hl.
  rewrite Z.sub_0_r in Hl.
  eexists. split; [|exact Hl]. lia.
Qed.

Lemma of_Z_of_nat (n : nat) : Js.of_Z (Z.of_nat n) = Js.of_nat n.
Proof. by destruct n. Qed.

(** The line of the bibliography at a position of the ledger. *)
Lemma referenceLines_lookup (refs : gmap string Reference) (used : list string)
    (start : nat) (lines : list string) (k : nat) (u : string) (ref : Reference) :
  referenceLines refs start used = Ok lines ->
  used !! k = Some u -> refs !! u = Some ref ->
  lines !! k
  = Some ("- [(" +:+ Js.of_nat (start + k + 1) +:+ ")](" +:+ u +:+ ") "
          +:+ ref_title ref).
Proof.
  revert start lines k. induction used as [|v used IH]; intros start lines k H Hk Hu;
    [done|].
  cbn [referenceLines] in H. ok_step H line El. ok_step H rest Er.
  injection H as <-. destruct k as [|k]; simpl in Hk.
  - injection Hk as ->. unfold referenceLine in El. rewrite Hu in El.
    injection El as <-. by rewrite Nat.add_0_r.
  - simpl. rewrite (IH _ _ _ Er Hk Hu). do 5 f_equal. lia.
Qed.

(** X27. A marker never points past the bibliography or at another
    source: when a reference number resolves to a marker, the marker is
    the text [[(i)](u)] of an index [i], as a decimal numeral, and the
    URL [u] of the document at that number, such that, however the
    ledger of the run grows afterwards, the final ordering lists that
    URL under that index, and the bibliography, once rendered, has the
    line made of a dash, that very marker and the title of the entry. *)
Theorem marker_matches_bibliography (T : list Item) (used used' : list string)
    (refNum : Q) (marker : string) (R : Research) :
  resolveReference T used refNum = Ok (used', Some marker) ->
  used' `prefix_of` usedReferences R ->
  exists (i : nat) (u entryTitle : string),
    marker = renderMarker (Z.of_nat i) u
    /\ markerText (N.of_nat i) u marker
    /\ In (i, u, entryTitle) (finalOrdering R)
    /\ (exists c, Js.at_number T (refNum - 1)%Q = Some c /\ url c = u)
    /\ forall text,
         orderedReferences R = Ok text ->
         occursIn ("- " +:+ marker +:+ " " +:+ entryTitle) text.
Proof.
  intros H [later Hlater].
  apply resolveReference_Ok in H as [(_ & _ & [=])|(c & _ & Hc & -> & [= ->])].
  destruct (citeOrGetIndex_position used (url c)) as (k & Hidx & Hk).
  change (indexOf (url c) (if includes (url c) used then used else used ++ [url c])
          + 1)
    with (snd (citeOrGetIndex used (url c))).
  rewrite Hidx.
  assert (usedReferences R !! k = Some (url c)) as Hused
    by (rewrite Hlater; by apply lookup_app_l_Some).
  exists (k + 1)%nat, (url c). eexists. split; [done|]. split.
  { replace (N.of_nat (k + 1)) with (Z.to_N (Z.of_nat (k + 1))) by lia.
    apply renderMarker_text. lia. }
  split; [by apply finalOrdering_entry|]. split; [by exists c|].
  intros text Htext. unfold orderedReferences in Htext.
  ok_step Htext lines El. injection Htext as <-.
  destruct (referenceLines_defined _ _ _ _ El (url c)) as [ref Href].
  { apply list_elem_of_In. by eapply list_elem_of_lookup_2. }
  pose proof (referenceLines_lookup _ _ _ _ _ _ _ El Hused Href) as Hline.
  rewrite Href. cbn [fmap option_fmap option_map default].
  unfold renderMarker. rewrite of_Z_of_nat.
  eapply occursIn_in_part; [|apply occursIn_self].
  apply list_elem_of_In. apply (list_elem_of_lookup_2 _ k). rewrite Hline.
  cbn [Nat.add]. by rewrite !append_assoc.
Qed.

Lemma marker_matches_bibliography_witness :
  exists (i : nat) (u entryTitle : string),
    "[(1)](http://a.example/solar)" = renderMarker (Z.of_nat i) u
    /\ markerText (N.of_nat i) u "[(1)](http://a.example/solar)"
    /\ In (i, u, entryTitle) (finalOrdering scenarioResearch)
    /\ (exists c, Js.at_number [docA; docB] (1 - 1)%Q = Some c /\ url c = u)
    /\ forall text,
         orderedReferences scenarioResearch = Ok text ->
         occursIn ("- " +:+ "[(1)](http://a.example/solar)" +:+ " " +:+ entryTitle)
           text.
Proof.
  apply (marker_matches_bibliography [docA; docB] [] [url docA] 1
           "[(1)](http://a.example/solar)" scenarioResearch).
  - reflexivity.
  - exists ["http://b.example/panel"]. vm_compute. reflexivity.
Defined.
